(** * StudyMatePlus mind-map editor: graph store, visibility, connection tool,
      waypoint topology and JSON snapshot.

    Shallow embedding of [client/src/pages/MindMapEditor.js].

    Conventions of the embedding
    - a JavaScript string is a [string]; a property that may be [undefined]
      is an [option];
    - a JavaScript number held by the state is a rational [Q] (positions,
      stroke widths), on which the arithmetic of the handlers is exact; the
      program computes in binary64, and the expressions whose rounding
      matters are given over both arithmetics (see [Arithmetic]): what is
      stated of a computed coordinate is stated in binary64;
    - a JavaScript [Set] of ids is the list of its members in insertion
      order (the iteration order of a [Set]), without duplicates;
    - the React state of the component is the record [State]; a handler is a
      function [State -> State] that applies its [setX] calls in order;
    - every call of [uuid()] and of [Math.random()] is an argument of the
      handler that makes it, in the order of the calls. *)

From Stdlib Require Import List String Ascii Bool Arith Lia QArith Lqa Floats.
Import ListNotations.

Local Open Scope nat_scope.
Local Open Scope string_scope.
Local Open Scope list_scope.

(* ------------------------------------------------------------------ *)
(** ** JavaScript values used by the editor *)

Definition Id := string.

(** [a || b] on strings: the empty string is falsy. *)
Definition or_undefined (s : string) : option string :=
  if String.eqb s "" then None else Some s.

(** Truthiness of a possibly-null string ([if (selectedEdgeId)]). *)
Definition truthy (s : option string) : bool :=
  match s with
  | None => false
  | Some v => negb (String.eqb v "")
  end.

(** [s === t] where [s] may be null/undefined and [t] is a string. *)
Definition opt_is (s : option string) (t : string) : bool :=
  match s with
  | None => false
  | Some v => String.eqb v t
  end.

Module JSSet.
(** A [Set] of ids, in insertion order. *)
Definition t := list Id.

Definition empty : t := [].

Definition has (s : t) (v : Id) : bool := existsb (String.eqb v) s.

Definition add (s : t) (v : Id) : t := if has s v then s else s ++ [v].

Definition delete (s : t) (v : Id) : t :=
  filter (fun w => negb (String.eqb w v)) s.

(** [new Set(iterable)] *)
Definition of_list (l : list Id) : t := fold_left add l empty.

(** [Array.from(set)] and [[...set]] *)
Definition to_list (s : t) : list Id := s.
End JSSet.

(* ------------------------------------------------------------------ *)
(** ** Data model *)

Module Position.
Record t := mk { x : Q; y : Q }.
End Position.

(** The value of a [color] property: a string; what a lookup in the
    [SUBJECTS] object gives for a key that the object inherits from
    [Object.prototype], which is a function ([constructor], [toString], ...)
    or the prototype object itself ([__proto__]); or the object that
    [JSON.parse] returns for [{}]. *)
Inductive JSColor :=
| ColorString (s : string)
| ColorFunction (name : string)
| ColorPrototype
| ColorPlainObject.

Module NodeData.
Record t := mk {
  label : option string;
  subject : option string;
  color : option JSColor;
  collapsed : option bool
}.
(** [{}] *)
Definition empty : t := mk None None None None.
End NodeData.

Module Node.
Record t := mk {
  id : Id;
  type : string;
  position : Position.t;
  data : NodeData.t
}.
End Node.

Module Marker.
Record t := mk { type : string }.
End Marker.

Module Style.
Record t := mk {
  stroke : option string;
  strokeWidth : option Q;
  strokeDasharray : option string
}.
(** [{}] *)
Definition empty : t := mk None None None.
End Style.

Module Fill.
Record t := mk { fill : string }.
End Fill.

Module Edge.
Record t := mk {
  id : Id;
  source : Id;
  target : Id;
  type : option string;
  label : option string;
  style : option Style.t;
  markerEnd : option Marker.t;
  markerStart : option Marker.t;
  labelShowBg : option bool;
  labelBgStyle : option Fill.t;
  labelStyle : option Fill.t;
  labelBgPadding : option (list Q)
}.
End Edge.

(** [MarkerType.ArrowClosed] of reactflow. *)
Definition ArrowClosed : Marker.t := Marker.mk "arrowclosed".

(** The names of the function-valued properties of [Object.prototype]. *)
Definition prototypeFunctions : list string :=
  ["constructor"; "hasOwnProperty"; "isPrototypeOf"; "propertyIsEnumerable";
   "toLocaleString"; "toString"; "valueOf"; "__defineGetter__";
   "__defineSetter__"; "__lookupGetter__"; "__lookupSetter__"].

(** [SUBJECTS[subject]]: the six own keys of the subject palette, then the
    properties that the object literal inherits. *)
Definition SUBJECTS (subject : string) : option JSColor :=
  if String.eqb subject "Math" then Some (ColorString "#4f83cc")
  else if String.eqb subject "Science" then Some (ColorString "#4caf50")
  else if String.eqb subject "History" then Some (ColorString "#ffb300")
  else if String.eqb subject "Literature" then Some (ColorString "#9c27b0")
  else if String.eqb subject "CS" then Some (ColorString "#5c6bc0")
  else if String.eqb subject "Default" then Some (ColorString "#2d7ef7")
  else if existsb (String.eqb subject) prototypeFunctions
       then Some (ColorFunction subject)
  else if String.eqb subject "__proto__" then Some ColorPrototype
  else None.

Definition SUBJECTS_Default : string := "#2d7ef7".

(** [SUBJECTS[subject] || SUBJECTS.Default] *)
Definition subject_color (subject : string) : JSColor :=
  match SUBJECTS subject with
  | Some c => c
  | None => ColorString SUBJECTS_Default
  end.

(** [nodes.find(n => n.id === v)] *)
Definition find_node (v : Id) (nodes : list Node.t) : option Node.t :=
  find (fun n => String.eqb (Node.id n) v) nodes.

(** [edges.find(x => x.id === v)] *)
Definition find_edge (v : Id) (edges : list Edge.t) : option Edge.t :=
  find (fun e => String.eqb (Edge.id e) v) edges.

(* ------------------------------------------------------------------ *)
(** ** Visibility engine: [computeHiddenTargets] *)

Module Visibility.

(** The state of the [while] loop.  [pushes] is a ghost field: the history
    of the arguments of [queue.push], which the program does not keep. *)
Record loop := mk {
  hidden : JSSet.t;
  queue : list Id;
  pushes : list Id
}.

(** The body of [edges.forEach] for the dequeued id [src]. *)
Definition visit (src : Id) (st : loop) (e : Edge.t) : loop :=
  if String.eqb (Edge.source e) src && negb (JSSet.has (hidden st) (Edge.target e))
  then mk (JSSet.add (hidden st) (Edge.target e))
          (queue st ++ [Edge.target e])
          (pushes st ++ [Edge.target e])
  else st.

(** One iteration of [while (queue.length)]: [queue.shift()], then the
    [forEach].  [None] when the queue is empty (the loop exits). *)
Definition iteration (edges : list Edge.t) (st : loop) : option loop :=
  match queue st with
  | [] => None
  | src :: rest => Some (fold_left (visit src) edges (mk (hidden st) rest (pushes st)))
  end.

(** The loop, run for at most [fuel] iterations; [None] when the fuel is
    used up before the queue is empty. *)
Fixpoint while (fuel : nat) (edges : list Edge.t) (st : loop) : option loop :=
  match iteration edges st with
  | None => Some st
  | Some st' =>
      match fuel with
      | O => None
      | S fuel' => while fuel' edges st'
      end
  end.

(** [computeHiddenTargets] with an explicit bound on the iterations. *)
Definition run (fuel : nat) (collapsedIds : JSSet.t) (edges : list Edge.t)
  : option loop :=
  while fuel edges (mk JSSet.empty (JSSet.to_list collapsedIds) []).

(** A number of iterations that is always enough (see [run_total]). *)
Definition bound (collapsedIds : JSSet.t) (edges : list Edge.t) : nat :=
  List.length collapsedIds + List.length edges.

Definition computeHiddenTargets (collapsedIds : JSSet.t) (edges : list Edge.t)
  : JSSet.t :=
  match run (bound collapsedIds edges) collapsedIds edges with
  | Some st => hidden st
  | None => JSSet.empty
  end.

(** Every id that has been put in the queue when the loop is in state
    [st]: the ids the queue is created with, then the pushes. *)
Definition enqueued (collapsedIds : JSSet.t) (st : loop) : list Id :=
  JSSet.to_list collapsedIds ++ pushes st.

(** The edges whose target is not hidden yet: with the length of the
    queue, the quantity that goes down at each iteration. *)
Definition pending (edges : list Edge.t) (h : JSSet.t) : nat :=
  List.length (filter (fun e => negb (JSSet.has h (Edge.target e))) edges).

(** [b] is reached from [a] along one or more edges, source to target. *)
Inductive reach (edges : list Edge.t) : Id -> Id -> Prop :=
| reach_edge : forall e, In e edges -> reach edges (Edge.source e) (Edge.target e)
| reach_step : forall a e, reach edges a (Edge.source e) -> In e edges ->
                           reach edges a (Edge.target e).

(** The descendants of a set of ids. *)
Definition descendant (roots : list Id) (edges : list Edge.t) (v : Id) : Prop :=
  exists r, In r roots /\ reach edges r v.

(** The invariant of the loop started by [computeHiddenTargets C E]. *)
Definition loopInv (C : list Id) (E : list Edge.t) (st : loop) : Prop :=
  NoDup (hidden st)
  /\ pushes st = hidden st
  /\ (forall x, In x (hidden st) -> descendant C E x)
  /\ (forall x, In x (queue st) -> In x C \/ descendant C E x)
  /\ (forall x, In x C \/ In x (hidden st) ->
        In x (queue st)
        \/ forall e, In e E -> Edge.source e = x -> In (Edge.target e) (hidden st)).

End Visibility.

(* ------------------------------------------------------------------ *)
(** ** The component state ([useState] cells of [MindMapEditor]) *)

Record State := mkState {
  nodes : list Node.t;
  edges : list Edge.t;
  selectedId : option Id;
  selectedEdgeId : option Id;
  collapsed : JSSet.t;
  connLabel : string;
  connType : string;
  connColor : string;
  connWidth : Q;
  connLabelBg : bool;
  connLabelBgColor : string;
  connLabelTextColor : string;
  currentTool : string
}.

Definition setNodes (f : list Node.t -> list Node.t) (st : State) : State :=
  mkState (f (nodes st)) (edges st) (selectedId st) (selectedEdgeId st)
    (collapsed st) (connLabel st) (connType st) (connColor st) (connWidth st)
    (connLabelBg st) (connLabelBgColor st) (connLabelTextColor st) (currentTool st).

Definition setEdges (f : list Edge.t -> list Edge.t) (st : State) : State :=
  mkState (nodes st) (f (edges st)) (selectedId st) (selectedEdgeId st)
    (collapsed st) (connLabel st) (connType st) (connColor st) (connWidth st)
    (connLabelBg st) (connLabelBgColor st) (connLabelTextColor st) (currentTool st).

Definition setSelectedId (v : option Id) (st : State) : State :=
  mkState (nodes st) (edges st) v (selectedEdgeId st)
    (collapsed st) (connLabel st) (connType st) (connColor st) (connWidth st)
    (connLabelBg st) (connLabelBgColor st) (connLabelTextColor st) (currentTool st).

Definition setSelectedEdgeId (v : option Id) (st : State) : State :=
  mkState (nodes st) (edges st) (selectedId st) v
    (collapsed st) (connLabel st) (connType st) (connColor st) (connWidth st)
    (connLabelBg st) (connLabelBgColor st) (connLabelTextColor st) (currentTool st).

Definition setCollapsed (f : JSSet.t -> JSSet.t) (st : State) : State :=
  mkState (nodes st) (edges st) (selectedId st) (selectedEdgeId st)
    (f (collapsed st)) (connLabel st) (connType st) (connColor st) (connWidth st)
    (connLabelBg st) (connLabelBgColor st) (connLabelTextColor st) (currentTool st).

Definition setConnLabel (v : string) (st : State) : State :=
  mkState (nodes st) (edges st) (selectedId st) (selectedEdgeId st)
    (collapsed st) v (connType st) (connColor st) (connWidth st)
    (connLabelBg st) (connLabelBgColor st) (connLabelTextColor st) (currentTool st).

Definition setConnType (v : string) (st : State) : State :=
  mkState (nodes st) (edges st) (selectedId st) (selectedEdgeId st)
    (collapsed st) (connLabel st) v (connColor st) (connWidth st)
    (connLabelBg st) (connLabelBgColor st) (connLabelTextColor st) (currentTool st).

Definition setConnColor (v : string) (st : State) : State :=
  mkState (nodes st) (edges st) (selectedId st) (selectedEdgeId st)
    (collapsed st) (connLabel st) (connType st) v (connWidth st)
    (connLabelBg st) (connLabelBgColor st) (connLabelTextColor st) (currentTool st).

Definition setConnWidth (v : Q) (st : State) : State :=
  mkState (nodes st) (edges st) (selectedId st) (selectedEdgeId st)
    (collapsed st) (connLabel st) (connType st) (connColor st) v
    (connLabelBg st) (connLabelBgColor st) (connLabelTextColor st) (currentTool st).

Definition setConnLabelBg (v : bool) (st : State) : State :=
  mkState (nodes st) (edges st) (selectedId st) (selectedEdgeId st)
    (collapsed st) (connLabel st) (connType st) (connColor st) (connWidth st)
    v (connLabelBgColor st) (connLabelTextColor st) (currentTool st).

Definition setConnLabelBgColor (v : string) (st : State) : State :=
  mkState (nodes st) (edges st) (selectedId st) (selectedEdgeId st)
    (collapsed st) (connLabel st) (connType st) (connColor st) (connWidth st)
    (connLabelBg st) v (connLabelTextColor st) (currentTool st).

Definition setConnLabelTextColor (v : string) (st : State) : State :=
  mkState (nodes st) (edges st) (selectedId st) (selectedEdgeId st)
    (collapsed st) (connLabel st) (connType st) (connColor st) (connWidth st)
    (connLabelBg st) (connLabelBgColor st) v (currentTool st).

Definition setCurrentTool (v : string) (st : State) : State :=
  mkState (nodes st) (edges st) (selectedId st) (selectedEdgeId st)
    (collapsed st) (connLabel st) (connType st) (connColor st) (connWidth st)
    (connLabelBg st) (connLabelBgColor st) (connLabelTextColor st) v.

(** [nds => nds.concat(n)] *)
Definition concat1 {A : Type} (a : A) (l : list A) : list A := l ++ [a].

(** A node of type ['study'] with the four data fields of a created node. *)
Definition studyNode (v : Id) (pos : Position.t) (label subject : string)
  (color : JSColor) : Node.t :=
  Node.mk v "study" pos
    (NodeData.mk (Some label) (Some subject) (Some color) (Some false)).

(** A template node: its data has no [collapsed] field. *)
Definition templateNode (v : Id) (px py : Q) (label subject color : string)
  : Node.t :=
  Node.mk v "study" (Position.mk px py)
    (NodeData.mk (Some label) (Some subject) (Some (ColorString color)) None).

(** [{ id, source, target, type:'smoothstep', markerEnd:{ type: ArrowClosed } }] *)
Definition arrowEdge (v src tgt : Id) : Edge.t :=
  Edge.mk v src tgt (Some "smoothstep") None None (Some ArrowClosed) None
    None None None None.

(** The root node of the initial [nodes] state. *)
Definition rootNode : Node.t :=
  studyNode "root" (Position.mk 250 100) "Study Plan" "Default"
    (ColorString SUBJECTS_Default).

Definition initialState : State :=
  mkState [rootNode] [] (Some "root") None JSSet.empty
    "" "one-way" "#4f46e5" 2 true "#ffffff" "#111827" "one-way".

(* ------------------------------------------------------------------ *)
(** ** Derived view *)

Definition hiddenTargets (st : State) : JSSet.t :=
  Visibility.computeHiddenTargets (collapsed st) (edges st).

(** The [filter] of [decoratedNodes]; the [map] that follows only adds the
    [onToggleCollapse] callback and [matchesQuery] to [data]. *)
Definition decoratedNodes (st : State) : list Node.t :=
  filter (fun n => negb (JSSet.has (hiddenTargets st) (Node.id n))
                   && negb (JSSet.has (collapsed st) (Node.id n)))
         (nodes st).

Definition visibleEdges (st : State) : list Edge.t :=
  filter (fun e => negb (JSSet.has (hiddenTargets st) (Edge.source e))
                   && negb (JSSet.has (hiddenTargets st) (Edge.target e))
                   && negb (JSSet.has (collapsed st) (Edge.source e)))
         (edges st).

(** [onToggleCollapse] *)
Definition onToggleCollapse (v : Id) (st : State) : State :=
  setCollapsed (fun prev => if JSSet.has prev v then JSSet.delete prev v
                            else JSSet.add prev v) st.

(* ------------------------------------------------------------------ *)
(** ** The arithmetic of the coordinates

    The handlers compute coordinates with [+], [-], [*] and [/].  The state
    of the model holds rationals, on which these are exact; the program
    computes in binary64, where each of them rounds to nearest.  The
    expressions of the handlers are written here once, over either
    arithmetic. *)

Module Arithmetic.
Record t := mk {
  num : Type;
  add : num -> num -> num;
  sub : num -> num -> num;
  mul : num -> num -> num;
  div : num -> num -> num;
  lit : Z -> num
}.
End Arithmetic.

(** The arithmetic of the model. *)
Definition Exact : Arithmetic.t :=
  Arithmetic.mk Q Qplus Qminus Qmult Qdiv inject_Z.

(** The arithmetic of the program; the literals of the handlers are small
    natural numbers. *)
Definition Binary64 : Arithmetic.t :=
  Arithmetic.mk float PrimFloat.add PrimFloat.sub PrimFloat.mul PrimFloat.div
    (fun z => PrimFloat.of_uint63 (Uint63.of_Z z)).

(** [120 + Math.random() * 200] ([createNodeBox]). *)
Definition boxCoordinate (A : Arithmetic.t) (r : Arithmetic.num A) : Arithmetic.num A :=
  Arithmetic.add A (Arithmetic.lit A 120) (Arithmetic.mul A r (Arithmetic.lit A 200)).

(** [{ x: base.position.x + 200, y: base.position.y + (Math.random() * 160 - 80) }]
    ([addChild]). *)
Definition childPosition (A : Arithmetic.t)
  (base : Arithmetic.num A * Arithmetic.num A) (r : Arithmetic.num A)
  : Arithmetic.num A * Arithmetic.num A :=
  (Arithmetic.add A (fst base) (Arithmetic.lit A 200),
   Arithmetic.add A (snd base)
     (Arithmetic.sub A (Arithmetic.mul A r (Arithmetic.lit A 160))
        (Arithmetic.lit A 80))).

(** [{ x: (srcNode.position.x + tgtNode.position.x) / 2,
       y: (srcNode.position.y + tgtNode.position.y) / 2 }]
    ([onConnect], informational tool). *)
Definition midpoint (A : Arithmetic.t)
  (s t : Arithmetic.num A * Arithmetic.num A)
  : Arithmetic.num A * Arithmetic.num A :=
  (Arithmetic.div A (Arithmetic.add A (fst s) (fst t)) (Arithmetic.lit A 2),
   Arithmetic.div A (Arithmetic.add A (snd s) (snd t)) (Arithmetic.lit A 2)).

Definition coordinates (p : Position.t) : Q * Q := (Position.x p, Position.y p).

Definition positionAt (c : Q * Q) : Position.t := Position.mk (fst c) (snd c).

(* ------------------------------------------------------------------ *)
(** ** Node creation *)

(** [createNodeBox]: [u] is the uuid, [r1 r2] the two [Math.random()]. *)
Definition createNodeBox (u : Id) (r1 r2 : Q) (st : State) : State :=
  let pos := Position.mk (boxCoordinate Exact r1) (boxCoordinate Exact r2) in
  setSelectedId (Some u)
    (setNodes (concat1 (studyNode u pos "New Node" "Default"
                          (ColorString SUBJECTS_Default))) st).

Definition createNodeBoxAt (u : Id) (pos : Position.t) (st : State) : State :=
  setSelectedId (Some u)
    (setNodes (concat1 (studyNode u pos "New Node" "Default"
                          (ColorString SUBJECTS_Default))) st).

Definition createInfoNodeAt (u : Id) (pos : Position.t) (st : State) : State :=
  setSelectedId (Some u)
    (setNodes (concat1 (Node.mk u "info" pos
                          (NodeData.mk (Some "Info") None (Some (ColorString "#fff")) None))) st).

(* ------------------------------------------------------------------ *)
(** ** Connection tool: [onConnect] *)

(** [{ stroke: connColor, strokeWidth: Number(connWidth) }] *)
Definition baseStyle (st : State) : Style.t :=
  Style.mk (Some (connColor st)) (Some (connWidth st)) None.

(** The midpoint used by the informational tool, in the arithmetic of the
    model. *)
Definition connectMid (srcNode tgtNode : option Node.t) : Position.t :=
  match srcNode, tgtNode with
  | Some s, Some t =>
      positionAt (midpoint Exact (coordinates (Node.position s))
                                 (coordinates (Node.position t)))
  | _, _ => Position.mk 120 120
  end.

(** The single edge of the dotted and default branches. *)
Definition plainEdge (v : Id) (src tgt : Id) (sty : Style.t) (st : State) : Edge.t :=
  Edge.mk v src tgt (Some "smoothstep") (or_undefined (connLabel st)) (Some sty)
    (if negb (String.eqb (connType st) "none") then Some ArrowClosed else None)
    (if String.eqb (connType st) "two-way" then Some ArrowClosed else None)
    (Some (connLabelBg st)) (Some (Fill.mk (connLabelBgColor st)))
    (Some (Fill.mk (connLabelTextColor st))) (Some [6%Q; 4%Q]).

(** [onConnect(params)].  [u0] is the uuid taken on entry; [u1 u2 u3] are the
    next ones, taken only by the node and informational branches. *)
Definition onConnect (u0 u1 u2 u3 : Id) (r1 r2 : Q) (source target : Id)
  (st : State) : State :=
  if String.eqb (currentTool st) "node" then createNodeBox u1 r1 r2 st
  else if String.eqb (currentTool st) "informational" then
    let wpId := u1 in
    let srcNode := find_node source (nodes st) in
    let tgtNode := find_node target (nodes st) in
    let mid := connectMid srcNode tgtNode in
    let waypoint := Node.mk wpId "waypoint" mid NodeData.empty in
    let edgeA :=
      Edge.mk u2 source wpId (Some "smoothstep") (or_undefined (connLabel st))
        (Some (baseStyle st)) None None
        (Some (connLabelBg st)) (Some (Fill.mk (connLabelBgColor st)))
        (Some (Fill.mk (connLabelTextColor st))) (Some [6%Q; 4%Q]) in
    let edgeB :=
      Edge.mk u3 wpId target (Some "smoothstep") None
        (Some (baseStyle st)) None None None None None None in
    setEdges (fun eds => eds ++ [edgeA; edgeB]) (setNodes (concat1 waypoint) st)
  else if String.eqb (currentTool st) "dotted" then
    let sty := Style.mk (Some (connColor st)) (Some (connWidth st)) (Some "6 6") in
    setEdges (concat1 (plainEdge u0 source target sty st)) st
  else
    setEdges (concat1 (plainEdge u0 source target (baseStyle st) st)) st.

(* ------------------------------------------------------------------ *)
(** ** Selection and deletion *)

(** [onSelectionChange({ nodes, edges })] *)
Definition onSelectionChange (sel_nodes : list Node.t) (sel_edges : list Edge.t)
  (st : State) : State :=
  match sel_nodes with
  | n :: _ => setSelectedEdgeId None (setSelectedId (Some (Node.id n)) st)
  | [] =>
      match sel_edges with
      | e :: _ => setSelectedId None (setSelectedEdgeId (Some (Edge.id e)) st)
      | [] => setSelectedEdgeId None (setSelectedId None st)
      end
  end.

(** [nodes.find(n => n.id === selectedId)] *)
Definition selectedNode (st : State) : option Node.t :=
  find (fun n => opt_is (selectedId st) (Node.id n)) (nodes st).

(** [edges.find(e => e.id === selectedEdgeId)] *)
Definition selectedEdge (st : State) : option Edge.t :=
  find (fun e => opt_is (selectedEdgeId st) (Edge.id e)) (edges st).

(** [onKey] for the keys ['Delete'] and ['Backspace']. *)
Definition onKeyDelete (st : State) : State :=
  if truthy (selectedEdgeId st) then
    setSelectedEdgeId None
      (setEdges (filter (fun x => negb (opt_is (selectedEdgeId st) (Edge.id x)))) st)
  else if truthy (selectedId st) && negb (opt_is (selectedId st) "root") then
    setSelectedId None
      (setEdges (filter (fun ed => negb (opt_is (selectedId st) (Edge.source ed))
                                   && negb (opt_is (selectedId st) (Edge.target ed))))
         (setNodes (filter (fun n => negb (opt_is (selectedId st) (Node.id n)))) st))
  else st.

(** [addChild(subject)]: [u] the node's uuid, [ue] the edge's, [r] the random. *)
Definition addChild (u ue : Id) (r : Q) (subject : string) (st : State) : State :=
  let base := match selectedNode st with
              | Some n => Some n
              | None => hd_error (nodes st)
              end in
  match base with
  | None => st
  | Some b =>
      let pos := positionAt (childPosition Exact (coordinates (Node.position b)) r) in
      let newNode := studyNode u pos (subject ++ " Topic") subject (subject_color subject) in
      setSelectedId (Some u)
        (setEdges (concat1 (arrowEdge ue (Node.id b) u))
           (setNodes (concat1 newNode) st))
  end.

Definition deleteSelected (st : State) : State :=
  match selectedNode st with
  | None => st
  | Some n =>
      if String.eqb (Node.id n) "root" then st
      else
        let v := Node.id n in
        setSelectedId (Some "root")
          (setEdges (filter (fun e => negb (String.eqb (Edge.source e) v)
                                      && negb (String.eqb (Edge.target e) v)))
             (setNodes (filter (fun m => negb (String.eqb (Node.id m) v))) st))
  end.

(* ------------------------------------------------------------------ *)
(** ** Waypoint topology *)

(** The midpoint used by [splitEdgeToWaypoint] (shifted by 20 on x). *)
Definition splitMid (srcNode tgtNode : option Node.t) : Position.t :=
  match srcNode, tgtNode with
  | Some s, Some t =>
      Position.mk ((Position.x (Node.position s) + Position.x (Node.position t)) / 2 + 20)
                  ((Position.y (Node.position s) + Position.y (Node.position t)) / 2)
  | _, _ => Position.mk 100 100
  end.

(** [splitEdgeToWaypoint(edgeId)]: [uw] is the waypoint's uuid, [ua ub] the
    uuids of the two segments. *)
Definition splitEdgeToWaypoint (uw ua ub : Id) (edgeId : Id) (st : State) : State :=
  match find_edge edgeId (edges st) with
  | None => st
  | Some e =>
      let srcNode := find_node (Edge.source e) (nodes st) in
      let tgtNode := find_node (Edge.target e) (nodes st) in
      let waypoint := Node.mk uw "waypoint" (splitMid srcNode tgtNode) NodeData.empty in
      let segA := Edge.mk ua (Edge.source e) uw (Edge.type e) (Edge.label e)
                    (Edge.style e) (Edge.markerEnd e) (Edge.markerStart e)
                    None None None None in
      let segB := Edge.mk ub uw (Edge.target e) (Edge.type e) (Edge.label e)
                    (Edge.style e) (Edge.markerEnd e) (Edge.markerStart e)
                    None None None None in
      setNodes (concat1 waypoint)
        (setEdges (fun eds =>
                     filter (fun x => negb (String.eqb (Edge.id x) edgeId)) eds
                     ++ [segA; segB]) st)
  end.

(** [e.type || 'smoothstep'] *)
Definition type_or_smoothstep (ty : option string) : string :=
  match ty with
  | None => "smoothstep"
  | Some s => if String.eqb s "" then "smoothstep" else s
  end.

(** [{ ...(e.style || {}) }] *)
Definition style_or_empty (sty : option Style.t) : Style.t :=
  match sty with
  | None => Style.empty
  | Some s => s
  end.

(** [insertWaypointAt(edgeId, position)] *)
Definition insertWaypointAt (uw ua ub : Id) (edgeId : Id) (position : Position.t)
  (st : State) : State :=
  let waypoint := Node.mk uw "waypoint" position NodeData.empty in
  setEdges (fun eds =>
              match find_edge edgeId eds with
              | None => eds
              | Some e =>
                  let others := filter (fun x => negb (String.eqb (Edge.id x) edgeId)) eds in
                  let style := style_or_empty (Edge.style e) in
                  let a := Edge.mk ua (Edge.source e) uw
                             (Some (type_or_smoothstep (Edge.type e))) (Edge.label e)
                             (Some style) None (Edge.markerStart e)
                             None None None None in
                  let b := Edge.mk ub uw (Edge.target e)
                             (Some (type_or_smoothstep (Edge.type e))) None
                             (Some style) (Edge.markerEnd e) None
                             None None None None in
                  others ++ [a; b]
              end)
    (setNodes (concat1 waypoint) st).

(** The predicate of [nodes.find] in [removeWaypoint], for the edge [e]. *)
Definition waypointFor (eds : list Edge.t) (e : Edge.t) (n : Node.t) : bool :=
  String.eqb (Node.type n) "waypoint"
  && (existsb (fun ed => String.eqb (Edge.source ed) (Node.id n)
                         && String.eqb (Edge.target ed) (Edge.target e)) eds
      || existsb (fun ed => String.eqb (Edge.target ed) (Node.id n)
                            && String.eqb (Edge.source ed) (Edge.source e)) eds).

(** [removeWaypoint(edgeId)]: [u] is the uuid of the rejoined edge. *)
Definition removeWaypoint (u : Id) (edgeId : Id) (st : State) : State :=
  match find_edge edgeId (edges st) with
  | None => st
  | Some e =>
      match find (waypointFor (edges st) e) (nodes st) with
      | None => st
      | Some wp =>
          let w := Node.id wp in
          setEdges (fun eds =>
                      let before := find (fun x => String.eqb (Edge.target x) w) eds in
                      let after := find (fun x => String.eqb (Edge.source x) w) eds in
                      let others := filter (fun x => negb (String.eqb (Edge.source x) w)
                                                     && negb (String.eqb (Edge.target x) w)) eds in
                      match before, after with
                      | Some bf, Some af =>
                          others ++ [Edge.mk u (Edge.source bf) (Edge.target af)
                                       (Edge.type bf) (Edge.label bf) (Edge.style bf)
                                       (Edge.markerEnd af) None None None None None]
                      | _, _ => others
                      end)
            (setNodes (filter (fun n => negb (String.eqb (Node.id n) w))) st)
      end
  end.

(* ------------------------------------------------------------------ *)
(** ** Inspector edits *)

(** [{ ...n.data, ...patch }]: a field set in the patch wins. *)
Definition patchData (d patch : NodeData.t) : NodeData.t :=
  let pick {A} (p o : option A) := match p with Some v => Some v | None => o end in
  NodeData.mk (pick (NodeData.label patch) (NodeData.label d))
              (pick (NodeData.subject patch) (NodeData.subject d))
              (pick (NodeData.color patch) (NodeData.color d))
              (pick (NodeData.collapsed patch) (NodeData.collapsed d)).

Definition updateSelected (patch : NodeData.t) (st : State) : State :=
  setNodes (map (fun n => if opt_is (selectedId st) (Node.id n)
                          then Node.mk (Node.id n) (Node.type n) (Node.position n)
                                 (patchData (Node.data n) patch)
                          else n)) st.

(** [eds.map(x => x.id === v ? f(x) : x)] *)
Definition mapEdge (v : Id) (f : Edge.t -> Edge.t) (eds : list Edge.t) : list Edge.t :=
  map (fun x => if String.eqb (Edge.id x) v then f x else x) eds.

Definition withLabel (l : option string) (x : Edge.t) : Edge.t :=
  Edge.mk (Edge.id x) (Edge.source x) (Edge.target x) (Edge.type x) l
    (Edge.style x) (Edge.markerEnd x) (Edge.markerStart x) (Edge.labelShowBg x)
    (Edge.labelBgStyle x) (Edge.labelStyle x) (Edge.labelBgPadding x).

Definition withMarkers (mEnd mStart : option Marker.t) (x : Edge.t) : Edge.t :=
  Edge.mk (Edge.id x) (Edge.source x) (Edge.target x) (Edge.type x) (Edge.label x)
    (Edge.style x) mEnd mStart (Edge.labelShowBg x)
    (Edge.labelBgStyle x) (Edge.labelStyle x) (Edge.labelBgPadding x).

Definition withStyle (s : Style.t) (x : Edge.t) : Edge.t :=
  Edge.mk (Edge.id x) (Edge.source x) (Edge.target x) (Edge.type x) (Edge.label x)
    (Some s) (Edge.markerEnd x) (Edge.markerStart x) (Edge.labelShowBg x)
    (Edge.labelBgStyle x) (Edge.labelStyle x) (Edge.labelBgPadding x).

(** The label input of an edge row. *)
Definition editEdgeLabel (v : Id) (value : string) (st : State) : State :=
  setEdges (mapEdge v (withLabel (Some value))) st.

(** The arrow select of an edge row. *)
Definition editEdgeArrow (v : Id) (value : string) (st : State) : State :=
  setEdges (mapEdge v (withMarkers
                         (if negb (String.eqb value "none") then Some ArrowClosed else None)
                         (if String.eqb value "two-way" then Some ArrowClosed else None))) st.

(** The colour input of an edge row. *)
Definition editEdgeStroke (v : Id) (value : string) (st : State) : State :=
  setEdges (mapEdge v (fun x =>
    let s := style_or_empty (Edge.style x) in
    withStyle (Style.mk (Some value) (Style.strokeWidth s) (Style.strokeDasharray s)) x)) st.

(** The width input of an edge row. *)
Definition editEdgeWidth (v : Id) (value : Q) (st : State) : State :=
  setEdges (mapEdge v (fun x =>
    let s := style_or_empty (Edge.style x) in
    withStyle (Style.mk (Style.stroke s) (Some value) (Style.strokeDasharray s)) x)) st.

(** The Delete button of an edge row. *)
Definition deleteEdgeRow (v : Id) (st : State) : State :=
  setEdges (filter (fun e => negb (String.eqb (Edge.id e) v))) st.

(** The Delete Edge button of the edge inspector. *)
Definition deleteEdgeInspector (v : Id) (st : State) : State :=
  setSelectedEdgeId None (setEdges (filter (fun x => negb (String.eqb (Edge.id x) v))) st).

(** The tool buttons. *)
Definition selectTool (tool : string) (st : State) : State :=
  if String.eqb tool "one-way" then setConnType "one-way" (setCurrentTool tool st)
  else if String.eqb tool "two-way" then setConnType "two-way" (setCurrentTool tool st)
  else if String.eqb tool "informational" then setConnType "none" (setCurrentTool tool st)
  else if String.eqb tool "dotted" then setConnType "one-way" (setCurrentTool tool st)
  else setCurrentTool tool st.

(** [onPaneClick] once the position is resolved. *)
Definition onPaneClick (u : Id) (pos : Position.t) (st : State) : State :=
  if String.eqb (currentTool st) "node" then createNodeBoxAt u pos st
  else if String.eqb (currentTool st) "informational" then createInfoNodeAt u pos st
  else st.

(** [onEdgeClick] once the position is resolved. *)
Definition onEdgeClick (uw ua ub : Id) (edgeId : Id) (pos : Position.t) (st : State)
  : State :=
  if String.eqb (currentTool st) "waypoint" then insertWaypointAt uw ua ub edgeId pos st
  else st.

(** The Auto Arrange button: a grid of [perRow] columns. *)
Definition autoArrange (st : State) : State :=
  let n := List.length (nodes st) in
  let perRow := Nat.sqrt_up (if Nat.eqb n 0 then 1 else n) in
  let place (idx : nat) (nd : Node.t) :=
    Node.mk (Node.id nd) (Node.type nd)
      (Position.mk (80 + inject_Z (Z.of_nat (idx mod perRow)) * 200)
                   (80 + inject_Z (Z.of_nat (idx / perRow)) * 160))
      (Node.data nd) in
  setNodes (fun nds => map (fun p => place (fst p) (snd p))
                           (combine (seq 0 (List.length nds)) nds)) st.

(* ------------------------------------------------------------------ *)
(** ** Templates *)

(** [applyTemplate(type)]; [u1 .. u4] are the uuids of the edges of the
    research and planner templates, in the order of the calls. *)
Definition applyTemplate (u1 u2 u3 u4 : Id) (type : string) (st : State) : State :=
  if String.eqb type "exam" then
    let n1 := templateNode "1" 250 80 "Exam Prep" "Default" SUBJECTS_Default in
    let n2 := templateNode "2" 60 260 "Math" "Math" "#4f83cc" in
    let n3 := templateNode "3" 250 260 "Science" "Science" "#4caf50" in
    let n4 := templateNode "4" 440 260 "History" "History" "#ffb300" in
    setCollapsed (fun _ => JSSet.of_list [])
      (setSelectedId (Some "1")
         (setEdges (fun _ => [arrowEdge "e1-2" "1" "2"; arrowEdge "e1-3" "1" "3";
                              arrowEdge "e1-4" "1" "4"])
            (setNodes (fun _ => [n1; n2; n3; n4]) st)))
  else if String.eqb type "research" then
    let ids := ["root"; "i"; "m"; "r"; "c"] in
    let labels := ["Research Paper"; "Introduction"; "Method"; "Results"; "Conclusion"] in
    let base :=
      map (fun p =>
             let idx := fst p in
             templateNode (fst (snd p))
               (140 + inject_Z (Z.of_nat idx) * 160)
               (if Nat.eqb idx 0 then 90 else 260)
               (snd (snd p)) "Default" SUBJECTS_Default)
          (combine (seq 0 5) (combine ids labels)) in
    setCollapsed (fun _ => JSSet.of_list [])
      (setSelectedId (Some "root")
         (setEdges (fun _ => map (fun p => arrowEdge (fst p) "root" (Node.id (snd p)))
                                 (combine [u1; u2; u3; u4] (tl base)))
            (setNodes (fun _ => base) st)))
  else if String.eqb type "planner" then
    let root := templateNode "root" 250 90 "Today" "Default" SUBJECTS_Default in
    let morn := templateNode "m" 80 250 "Morning" "Default" "#6c8cff" in
    let noon := templateNode "n" 250 250 "Afternoon" "Default" "#64d2b4" in
    let eve := templateNode "e" 420 250 "Evening" "Default" "#ff9e6e" in
    setCollapsed (fun _ => JSSet.of_list [])
      (setSelectedId (Some "root")
         (setEdges (fun _ => [arrowEdge u1 "root" "m"; arrowEdge u2 "root" "n";
                              arrowEdge u3 "root" "e"])
            (setNodes (fun _ => [root; morn; noon; eve]) st)))
  else st.

(* ------------------------------------------------------------------ *)
(** ** JSON snapshot *)

(** A JSON value, as [JSON.stringify] writes it and [JSON.parse] returns it.
    An object is the list of its properties; a property whose value is
    [undefined] or a function is not written.  Numbers are the finite ones. *)
#[warnings="-register-all"]
Inductive json :=
| JNull
| JBool (b : bool)
| JNum (q : Q)
| JStr (s : string)
| JArr (items : list json)
| JObj (props : list (string * json)).

(** The properties of an object literal that are not [undefined]. *)
Fixpoint present (l : list (string * option json)) : list (string * json) :=
  match l with
  | [] => []
  | (k, None) :: rest => present rest
  | (k, Some j) :: rest => (k, j) :: present rest
  end.

(** [obj[name]] *)
Fixpoint get (name : string) (props : list (string * json)) : option json :=
  match props with
  | [] => None
  | (k, j) :: rest => if String.eqb name k then Some j else get name rest
  end.

(** The property [name] of an object literal, [undefined] values included. *)
Fixpoint lookup (name : string) (l : list (string * option json)) : option json :=
  match l with
  | [] => None
  | (k, v) :: rest => if String.eqb name k then v else lookup name rest
  end.

(** The keys of an object are pairwise distinct. *)
Fixpoint distinct_keys {V : Type} (l : list (string * V)) : bool :=
  match l with
  | [] => true
  | (k, _) :: rest =>
      negb (existsb (fun p => String.eqb k (fst p)) rest) && distinct_keys rest
  end.

(** Every key of an object is one of [known]. *)
Definition only_keys {V : Type} (known : list string) (l : list (string * V)) : bool :=
  forallb (fun p => existsb (String.eqb (fst p)) known) l.

Definition bind {A B : Type} (o : option A) (f : A -> option B) : option B :=
  match o with
  | Some a => f a
  | None => None
  end.

Notation "x <- e ;; k" := (bind e (fun x => k))
  (at level 61, e at next level, right associativity).

(** *** What [JSON.stringify] writes *)

Definition position_json (p : Position.t) : json :=
  JObj [("x", JNum (Position.x p)); ("y", JNum (Position.y p))].

(** A colour: a string as it is, a function as [undefined] (the property is
    left out), an object without own enumerable property as [{}]. *)
Definition color_json (c : JSColor) : option json :=
  match c with
  | ColorString s => Some (JStr s)
  | ColorFunction _ => None
  | ColorPrototype | ColorPlainObject => Some (JObj [])
  end.

Definition data_json (d : NodeData.t) : json :=
  JObj (present [("label", option_map JStr (NodeData.label d));
                 ("subject", option_map JStr (NodeData.subject d));
                 ("color", c <- NodeData.color d ;; color_json c);
                 ("collapsed", option_map JBool (NodeData.collapsed d))]).

Definition node_json (n : Node.t) : json :=
  JObj [("id", JStr (Node.id n)); ("type", JStr (Node.type n));
        ("position", position_json (Node.position n));
        ("data", data_json (Node.data n))].

Definition style_json (s : Style.t) : json :=
  JObj (present [("stroke", option_map JStr (Style.stroke s));
                 ("strokeWidth", option_map JNum (Style.strokeWidth s));
                 ("strokeDasharray", option_map JStr (Style.strokeDasharray s))]).

Definition marker_json (m : Marker.t) : json := JObj [("type", JStr (Marker.type m))].

Definition fill_json (f : Fill.t) : json := JObj [("fill", JStr (Fill.fill f))].

Definition edge_json (e : Edge.t) : json :=
  JObj (present [("id", Some (JStr (Edge.id e)));
                 ("source", Some (JStr (Edge.source e)));
                 ("target", Some (JStr (Edge.target e)));
                 ("type", option_map JStr (Edge.type e));
                 ("label", option_map JStr (Edge.label e));
                 ("style", option_map style_json (Edge.style e));
                 ("markerEnd", option_map marker_json (Edge.markerEnd e));
                 ("markerStart", option_map marker_json (Edge.markerStart e));
                 ("labelShowBg", option_map JBool (Edge.labelShowBg e));
                 ("labelBgStyle", option_map fill_json (Edge.labelBgStyle e));
                 ("labelStyle", option_map fill_json (Edge.labelStyle e));
                 ("labelBgPadding",
                  option_map (fun l => JArr (map JNum l)) (Edge.labelBgPadding e))]).

(** The value given to [JSON.stringify] by [exportJSON] (and by the
    autosave effect): [{ nodes, edges, collapsed: Array.from(collapsed) }]. *)
Definition exportJSON (st : State) : json :=
  JObj [("nodes", JArr (map node_json (nodes st)));
        ("edges", JArr (map edge_json (edges st)));
        ("collapsed", JArr (map JStr (JSSet.to_list (collapsed st))))].

(** *** Parsed values as records of the model.
    The handlers store the parsed values as they are.  A parsed value is a
    record of the model when it is an object with the properties of that
    record and no other, each of them a value of its type; [None] is a
    value that the records cannot hold. *)

Definition as_string (j : json) : option string :=
  match j with JStr s => Some s | _ => None end.

Definition as_num (j : json) : option Q :=
  match j with JNum q => Some q | _ => None end.

Definition as_bool (j : json) : option bool :=
  match j with JBool b => Some b | _ => None end.

Definition as_color (j : json) : option JSColor :=
  match j with
  | JStr s => Some (ColorString s)
  | JObj [] => Some ColorPlainObject
  | _ => None
  end.

(** An object whose keys are distinct and all among [known]. *)
Definition as_props (known : list string) (j : json)
  : option (list (string * json)) :=
  match j with
  | JObj props =>
      if only_keys known props && distinct_keys props then Some props else None
  | _ => None
  end.

Fixpoint all_some {A : Type} (l : list (option A)) : option (list A) :=
  match l with
  | [] => Some []
  | o :: rest => a <- o ;; r <- all_some rest ;; Some (a :: r)
  end.

Definition as_array {A : Type} (read : json -> option A) (j : json) : option (list A) :=
  match j with JArr items => all_some (map read items) | _ => None end.

(** A property that must be there. *)
Definition field {A : Type} (read : json -> option A) (name : string)
  (props : list (string * json)) : option A :=
  j <- get name props ;; read j.

(** A property that may be missing ([undefined] when read). *)
Definition field_opt {A : Type} (read : json -> option A) (name : string)
  (props : list (string * json)) : option (option A) :=
  match get name props with
  | None => Some None
  | Some j => a <- read j ;; Some (Some a)
  end.

Definition position_of_json (j : json) : option Position.t :=
  p <- as_props ["x"; "y"] j ;;
  px <- field as_num "x" p ;;
  py <- field as_num "y" p ;;
  Some (Position.mk px py).

Definition data_of_json (j : json) : option NodeData.t :=
  p <- as_props ["label"; "subject"; "color"; "collapsed"] j ;;
  l <- field_opt as_string "label" p ;;
  s <- field_opt as_string "subject" p ;;
  c <- field_opt as_color "color" p ;;
  k <- field_opt as_bool "collapsed" p ;;
  Some (NodeData.mk l s c k).

Definition node_of_json (j : json) : option Node.t :=
  p <- as_props ["id"; "type"; "position"; "data"] j ;;
  i <- field as_string "id" p ;;
  t <- field as_string "type" p ;;
  pos <- field position_of_json "position" p ;;
  d <- field data_of_json "data" p ;;
  Some (Node.mk i t pos d).

Definition style_of_json (j : json) : option Style.t :=
  p <- as_props ["stroke"; "strokeWidth"; "strokeDasharray"] j ;;
  s <- field_opt as_string "stroke" p ;;
  w <- field_opt as_num "strokeWidth" p ;;
  d <- field_opt as_string "strokeDasharray" p ;;
  Some (Style.mk s w d).

Definition marker_of_json (j : json) : option Marker.t :=
  p <- as_props ["type"] j ;; t <- field as_string "type" p ;; Some (Marker.mk t).

Definition fill_of_json (j : json) : option Fill.t :=
  p <- as_props ["fill"] j ;; f <- field as_string "fill" p ;; Some (Fill.mk f).

Definition edgeKeys : list string :=
  ["id"; "source"; "target"; "type"; "label"; "style"; "markerEnd";
   "markerStart"; "labelShowBg"; "labelBgStyle"; "labelStyle"; "labelBgPadding"].

Definition edge_of_json (j : json) : option Edge.t :=
  p <- as_props edgeKeys j ;;
  i <- field as_string "id" p ;;
  s <- field as_string "source" p ;;
  t <- field as_string "target" p ;;
  ty <- field_opt as_string "type" p ;;
  l <- field_opt as_string "label" p ;;
  sty <- field_opt style_of_json "style" p ;;
  me <- field_opt marker_of_json "markerEnd" p ;;
  ms <- field_opt marker_of_json "markerStart" p ;;
  bg <- field_opt as_bool "labelShowBg" p ;;
  bgs <- field_opt fill_of_json "labelBgStyle" p ;;
  ls <- field_opt fill_of_json "labelStyle" p ;;
  pad <- field_opt (as_array as_num) "labelBgPadding" p ;;
  Some (Edge.mk i s t ty l sty me ms bg bgs ls pad).

(** *** [importJSON] *)

(** The three values the setters of [importJSON] receive, each [None] when
    the property of the parsed object is missing or falsy. *)
Record Snapshot := mkSnapshot {
  snap_nodes : option (list Node.t);
  snap_edges : option (list Edge.t);
  snap_collapsed : option (list Id)
}.

(** [x || []] *)
Definition or_empty {A : Type} (o : option (list A)) : list A :=
  match o with
  | Some l => l
  | None => []
  end.

(** The [try] block of [importJSON] once [JSON.parse] has returned [parsed]. *)
Definition importJSON (parsed : Snapshot) (st : State) : State :=
  setCollapsed (fun _ => JSSet.of_list (or_empty (snap_collapsed parsed)))
    (setEdges (fun _ => or_empty (snap_edges parsed))
       (setNodes (fun _ => or_empty (snap_nodes parsed)) st)).

(** [ToBoolean] of a parsed value. *)
Definition truthy_json (j : json) : bool :=
  match j with
  | JNull => false
  | JBool b => b
  | JNum q => negb (Qeq_bool q 0)
  | JStr s => negb (String.eqb s "")
  | JArr _ | JObj _ => true
  end.

(** [parsed[name] || []] as a list of the model: nothing for a missing or
    falsy property, the items of an array, and [None] for any other value
    (the setter stores it, and the state is no longer one of the model). *)
Definition list_property {A : Type} (read : json -> option A) (name : string)
  (props : list (string * json)) : option (option (list A)) :=
  match get name props with
  | None => Some None
  | Some j =>
      if truthy_json j then l <- as_array read j ;; Some (Some l) else Some None
  end.

(** The strings a string iterates over: its characters. *)
Fixpoint characters (s : string) : list string :=
  match s with
  | EmptyString => []
  | String c rest => String c EmptyString :: characters rest
  end.

(** The argument [parsed.collapsed || []] of [new Set]: ids to iterate
    over, or a value that is not iterable, on which [new Set] throws. *)
Inductive SetArgument :=
| Iterable (ids : option (list Id))
| NotIterable.

Definition collapsed_property (props : list (string * json)) : option SetArgument :=
  match get "collapsed" props with
  | None => Some (Iterable None)
  | Some j =>
      if truthy_json j then
        match j with
        | JArr items =>
            ids <- all_some (map as_string items) ;; Some (Iterable (Some ids))
        | JStr s => Some (Iterable (Some (characters s)))
        | _ => Some NotIterable
        end
      else Some (Iterable None)
  end.

(** [importJSON] on the text of a file.  [content] is what [JSON.parse]
    returns, [None] for a text it rejects.  The result is the next state,
    or [None] when that state holds a value that the model has no record
    for (and when [content] repeats a key, which a parsed object does
    not).
    - [JSON.parse] throws, or returns [null] so that [parsed.nodes] throws:
      the [catch] branch runs and no setter has been called.
    - An array and a primitive other than [null] have none of the three
      properties: the three cells are emptied.
    - On an object each cell receives [parsed[name] || []]; when
      [new Set] throws, [setNodes] and [setEdges] have been called and
      [setCollapsed] is not. *)
Definition importFile (content : option json) (st : State) : option State :=
  match content with
  | None => Some st
  | Some JNull => Some st
  | Some (JObj props) =>
      if distinct_keys props then
        ns <- list_property node_of_json "nodes" props ;;
        es <- list_property edge_of_json "edges" props ;;
        arg <- collapsed_property props ;;
        match arg with
        | Iterable ids => Some (importJSON (mkSnapshot ns es ids) st)
        | NotIterable =>
            Some (setEdges (fun _ => or_empty es)
                    (setNodes (fun _ => or_empty ns) st))
        end
      else None
  | Some _ => Some (importJSON (mkSnapshot None None None) st)
  end.

(* ------------------------------------------------------------------ *)
(** ** Binary64 numbers as rationals and in JSON *)

(** The rational that a binary64 number is; [None] for an infinity and for
    NaN. *)
Definition toQ (f : float) : option Q :=
  match Prim2SF f with
  | S754_zero _ => Some 0%Q
  | S754_finite s m e =>
      Some ((if s then -1 else 1) * inject_Z (Zpos m) * Qpower 2 e)%Q
  | S754_infinity _ | S754_nan => None
  end.

(** [JSON.stringify] of a number: one that is not finite is written
    [null]. *)
Definition number_json64 (f : float) : json :=
  match toQ f with
  | Some q => JNum q
  | None => JNull
  end.



(* ------------------------------------------------------------------ *)
(** ** The editor as a transition system *)

(** The user gestures the component handles, with the values the handler
    receives or draws ([uuid()], [Math.random()], resolved positions). *)
Inductive Event :=
| EvToggleCollapse (v : Id)
| EvCreateNodeBox (u : Id) (r1 r2 : Q)
| EvCreateNodeBoxAt (u : Id) (pos : Position.t)
| EvPaneClick (u : Id) (pos : Position.t)
| EvConnect (u0 u1 u2 u3 : Id) (r1 r2 : Q) (source target : Id)
| EvSelectionChange (sel_nodes : list Node.t) (sel_edges : list Edge.t)
| EvKeyDelete
| EvAddChild (u ue : Id) (r : Q) (subject : string)
| EvDeleteSelected
| EvSplitEdge (uw ua ub : Id) (edgeId : Id)
| EvEdgeDoubleClick (uw ua ub : Id) (edgeId : Id) (pos : Position.t)
| EvEdgeClick (uw ua ub : Id) (edgeId : Id) (pos : Position.t)
| EvRemoveWaypoint (u : Id) (edgeId : Id)
| EvUpdateSelected (patch : NodeData.t)
| EvEditEdgeLabel (v : Id) (value : string)
| EvEditEdgeArrow (v : Id) (value : string)
| EvEditEdgeStroke (v : Id) (value : string)
| EvEditEdgeWidth (v : Id) (value : Q)
| EvDeleteEdgeRow (v : Id)
| EvDeleteEdgeInspector (v : Id)
| EvSelectTool (tool : string)
| EvSetConnLabel (value : string)
| EvSetConnType (value : string)
| EvSetConnColor (value : string)
| EvSetConnWidth (value : Q)
| EvSetConnLabelBg (value : bool)
| EvSetConnLabelBgColor (value : string)
| EvSetConnLabelTextColor (value : string)
| EvAutoArrange
| EvApplyTemplate (u1 u2 u3 u4 : Id) (type : string)
| EvImportJSON (parsed : Snapshot).

Definition step (ev : Event) (st : State) : State :=
  match ev with
  | EvToggleCollapse v => onToggleCollapse v st
  | EvCreateNodeBox u r1 r2 => createNodeBox u r1 r2 st
  | EvCreateNodeBoxAt u pos => createNodeBoxAt u pos st
  | EvPaneClick u pos => onPaneClick u pos st
  | EvConnect u0 u1 u2 u3 r1 r2 s t => onConnect u0 u1 u2 u3 r1 r2 s t st
  | EvSelectionChange ns es => onSelectionChange ns es st
  | EvKeyDelete => onKeyDelete st
  | EvAddChild u ue r subject => addChild u ue r subject st
  | EvDeleteSelected => deleteSelected st
  | EvSplitEdge uw ua ub edgeId => splitEdgeToWaypoint uw ua ub edgeId st
  | EvEdgeDoubleClick uw ua ub edgeId pos => insertWaypointAt uw ua ub edgeId pos st
  | EvEdgeClick uw ua ub edgeId pos => onEdgeClick uw ua ub edgeId pos st
  | EvRemoveWaypoint u edgeId => removeWaypoint u edgeId st
  | EvUpdateSelected patch => updateSelected patch st
  | EvEditEdgeLabel v value => editEdgeLabel v value st
  | EvEditEdgeArrow v value => editEdgeArrow v value st
  | EvEditEdgeStroke v value => editEdgeStroke v value st
  | EvEditEdgeWidth v value => editEdgeWidth v value st
  | EvDeleteEdgeRow v => deleteEdgeRow v st
  | EvDeleteEdgeInspector v => deleteEdgeInspector v st
  | EvSelectTool tool => selectTool tool st
  | EvSetConnLabel value => setConnLabel value st
  | EvSetConnType value => setConnType value st
  | EvSetConnColor value => setConnColor value st
  | EvSetConnWidth value => setConnWidth value st
  | EvSetConnLabelBg value => setConnLabelBg value st
  | EvSetConnLabelBgColor value => setConnLabelBgColor value st
  | EvSetConnLabelTextColor value => setConnLabelTextColor value st
  | EvAutoArrange => autoArrange st
  | EvApplyTemplate u1 u2 u3 u4 type => applyTemplate u1 u2 u3 u4 type st
  | EvImportJSON parsed => importJSON parsed st
  end.

(** The state after a sequence of gestures, the first one first. *)
Definition play (evs : list Event) (st : State) : State :=
  fold_left (fun s ev => step ev s) evs st.

(** The uuids an event hands to its handler. *)
Definition uuids (ev : Event) : list Id :=
  match ev with
  | EvCreateNodeBox u _ _ | EvCreateNodeBoxAt u _ | EvPaneClick u _
  | EvRemoveWaypoint u _ => [u]
  | EvConnect u0 u1 u2 u3 _ _ _ _ => [u0; u1; u2; u3]
  | EvAddChild u ue _ _ => [u; ue]
  | EvSplitEdge uw ua ub _ | EvEdgeDoubleClick uw ua ub _ _
  | EvEdgeClick uw ua ub _ _ => [uw; ua; ub]
  | EvApplyTemplate u1 u2 u3 u4 _ => [u1; u2; u3; u4]
  | _ => []
  end.

(** The number of nodes with the reserved id ['root']. *)
Definition rootCount (nds : list Node.t) : nat :=
  List.length (filter (fun n => String.eqb (Node.id n) "root") nds).

(** A node list with exactly one node of id ['root'], whose type is not
    ['waypoint']. *)
Definition oneRoot (nds : list Node.t) : bool :=
  Nat.eqb (rootCount nds) 1
  && forallb (fun n => negb (String.eqb (Node.id n) "root"
                             && String.eqb (Node.type n) "waypoint")) nds.

(** The gestures under which the root node is kept: every one but the exam
    template and the import of a node list that is not [oneRoot], with
    uuids that are not ['root'] (a uuid has 36 characters). *)
Definition keepsRoot (ev : Event) : bool :=
  forallb (fun u => negb (String.eqb u "root")) (uuids ev)
  && match ev with
     | EvImportJSON parsed => oneRoot (or_empty (snap_nodes parsed))
     | EvApplyTemplate _ _ _ _ type => negb (String.eqb type "exam")
     | _ => true
     end.

(** No node of type ['waypoint'] has the id ['root']. *)
Definition rootNotWaypoint (nds : list Node.t) : Prop :=
  forall n, In n nds -> Node.id n = "root" -> Node.type n <> "waypoint".

(** The id and type of each node, in order. *)
Definition nodeSig (nds : list Node.t) : list (Id * string) :=
  map (fun n => (Node.id n, Node.type n)) nds.

(** The invariant of the node list: one root, which is not a waypoint. *)
Definition rootOk (nds : list Node.t) : Prop :=
  rootCount nds = 1 /\ rootNotWaypoint nds.

(* ------------------------------------------------------------------ *)
(** ** Derived notions used to state properties of the handlers *)

(** A colour once written by [JSON.stringify] and read by [JSON.parse]:
    a function is lost, an object comes back as a new empty object. *)
Definition colorAfterJSON (c : JSColor) : option JSColor :=
  match c with
  | ColorString s => Some (ColorString s)
  | ColorFunction _ => None
  | ColorPrototype | ColorPlainObject => Some ColorPlainObject
  end.

Definition dataAfterJSON (d : NodeData.t) : NodeData.t :=
  NodeData.mk (NodeData.label d) (NodeData.subject d)
    (c <- NodeData.color d ;; colorAfterJSON c) (NodeData.collapsed d).

Definition nodeAfterJSON (n : Node.t) : Node.t :=
  Node.mk (Node.id n) (Node.type n) (Node.position n) (dataAfterJSON (Node.data n)).

(** The colour of the node is a string, a plain object, or missing. *)
Definition plainColor (n : Node.t) : bool :=
  match NodeData.color (Node.data n) with
  | Some (ColorFunction _) | Some ColorPrototype => false
  | _ => true
  end.

(** The value shown by the arrow select of an edge row:
    [(ed.markerStart && ed.markerEnd) ? 'two-way' : (ed.markerEnd ? 'one-way' : 'none')]. *)
Definition arrowSelectValue (ed : Edge.t) : string :=
  match Edge.markerStart ed, Edge.markerEnd ed with
  | Some _, Some _ => "two-way"
  | _, Some _ => "one-way"
  | _, None => "none"
  end.

(** Some node has the id [v]. *)
Definition hasNode (nds : list Node.t) (v : Id) : bool :=
  existsb (fun n => String.eqb (Node.id n) v) nds.

(** Both ends of every edge are ids of nodes. *)
Definition danglingFree (nds : list Node.t) (eds : list Edge.t) : bool :=
  forallb (fun e => hasNode nds (Edge.source e) && hasNode nds (Edge.target e)) eds.

(** No edge goes from a node to itself. *)
Definition loopFree (eds : list Edge.t) : bool :=
  forallb (fun e => negb (String.eqb (Edge.source e) (Edge.target e))) eds.

(** [danglingFree] as a statement on the ids of the nodes. *)
Definition closedOver (ids : list Id) (eds : list Edge.t) : Prop :=
  forall e, In e eds -> In (Edge.source e) ids /\ In (Edge.target e) ids.

(** The gestures that cannot leave a dangling edge: a connect gesture
    names two nodes of the graph (unless the tool is the node box, which
    ignores them), [removeWaypoint] is used on a graph without self-loop,
    and an imported payload is itself free of dangling edges. *)
Definition endpointsKnown (st : State) (ev : Event) : bool :=
  match ev with
  | EvConnect _ _ _ _ _ _ s t =>
      String.eqb (currentTool st) "node"
      || (hasNode (nodes st) s && hasNode (nodes st) t)
  | EvRemoveWaypoint _ _ => loopFree (edges st)
  | EvImportJSON parsed =>
      danglingFree (or_empty (snap_nodes parsed)) (or_empty (snap_edges parsed))
  | _ => true
  end.

(** The node ids of a list are pairwise distinct. *)
Fixpoint distinctIds (ids : list Id) : bool :=
  match ids with
  | [] => true
  | v :: rest => negb (existsb (String.eqb v) rest) && distinctIds rest
  end.

(** The gestures that cannot give two nodes the same id: the uuid of a new
    node is not the id of a node of the graph, and the nodes of an imported
    payload have distinct ids. *)
Definition nodeIdsFresh (st : State) (ev : Event) : bool :=
  match ev with
  | EvCreateNodeBox u _ _ | EvCreateNodeBoxAt u _ | EvPaneClick u _
  | EvAddChild u _ _ _ => negb (hasNode (nodes st) u)
  | EvConnect _ u1 _ _ _ _ _ _ => negb (hasNode (nodes st) u1)
  | EvSplitEdge uw _ _ _ | EvEdgeDoubleClick uw _ _ _ _
  | EvEdgeClick uw _ _ _ _ => negb (hasNode (nodes st) uw)
  | EvImportJSON parsed => distinctIds (map Node.id (or_empty (snap_nodes parsed)))
  | _ => true
  end.

(** Every gesture of a sequence satisfies [ok] in the state it is made in. *)
Fixpoint playable (ok : State -> Event -> bool) (evs : list Event) (st : State)
  : bool :=
  match evs with
  | [] => true
  | ev :: rest => ok st ev && playable ok rest (step ev st)
  end.

(** The number of columns of the Auto Arrange grid:
    [Math.ceil(Math.sqrt(nodes.length || 1))]. *)
Definition perRow (st : State) : nat :=
  Nat.sqrt_up (if Nat.eqb (List.length (nodes st)) 0 then 1
               else List.length (nodes st)).

(* ------------------------------------------------------------------ *)
(** ** The to-do list ([client/src/pages/Todo.js])

    A task and the form are objects with the same properties; [id] is
    [null] in the empty form, [createdAt] and [completed] may be missing.
    Dates are ISO strings; the functions of [Date] are arguments. *)

Module Todo.

Record Item := mkItem {
  id : option Id;
  title : string;
  description : string;
  deadline : string;
  recurrence : string;
  createdAt : option string;
  completed : option bool
}.

Record State := mkState {
  tasks : list Item;
  form : Item;
  isEditing : bool;
  showModal : bool
}.

Definition defaultForm : Item := mkItem None "" "" "" "none" None None.

Definition initialState : State := mkState [] defaultForm false false.

(** [a === b] on ids that may be [null]. *)
Definition same_id (a b : option Id) : bool :=
  match a, b with
  | Some x, Some y => String.eqb x y
  | None, None => true
  | _, _ => false
  end.

(** [{ ...t, ...form }] *)
Definition merge (t f : Item) : Item :=
  mkItem (id f) (title f) (description f) (deadline f) (recurrence f)
    (match createdAt f with Some c => Some c | None => createdAt t end)
    (match completed f with Some c => Some c | None => completed t end).

(** [resetForm] *)
Definition resetForm (st : State) : State :=
  mkState (tasks st) defaultForm false false.

(** [handleSubmit]: [newId] is [generateId()], [now] is
    [new Date().toISOString()]. *)
Definition handleSubmit (newId now : string) (st : State) : State :=
  if String.eqb (title (form st)) "" || String.eqb (deadline (form st)) "" then st
  else if isEditing st then
    resetForm (mkState (map (fun t => if same_id (id t) (id (form st))
                                      then merge t (form st) else t) (tasks st))
                 (form st) (isEditing st) (showModal st))
  else
    let f := form st in
    let newTask := mkItem (Some newId) (title f) (description f) (deadline f)
                     (recurrence f) (Some now) (completed f) in
    resetForm (mkState (newTask :: tasks st) (form st) (isEditing st) (showModal st)).

(** [handleEdit(task)] *)
Definition handleEdit (task : Item) (st : State) : State :=
  mkState (tasks st) task true true.

(** [handleDelete(id)]: [confirmed] is the answer to [window.confirm]. *)
Definition handleDelete (confirmed : bool) (v : option Id) (st : State) : State :=
  if confirmed then
    mkState (filter (fun t => negb (same_id (id t) v)) (tasks st))
      (form st) (isEditing st) (showModal st)
  else st.

(** [!t.completed] *)
Definition not_completed (t : Item) : bool :=
  match completed t with
  | Some true => false
  | _ => true
  end.

(** [toggleComplete(id)] *)
Definition toggleComplete (v : option Id) (st : State) : State :=
  mkState (map (fun t => if same_id (id t) v
                         then mkItem (id t) (title t) (description t) (deadline t)
                                (recurrence t) (createdAt t) (Some (not_completed t))
                         else t) (tasks st))
    (form st) (isEditing st) (showModal st).

(** [handleAdvanceOnce(id)], given [addIntervalToDate]. *)
Definition handleAdvanceOnce (addIntervalToDate : string -> string -> string)
  (v : option Id) (st : State) : State :=
  mkState (map (fun t =>
                  if negb (same_id (id t) v) then t
                  else if String.eqb (recurrence t) ""
                          || String.eqb (recurrence t) "none" then t
                  else mkItem (id t) (title t) (description t)
                         (addIntervalToDate (deadline t) (recurrence t))
                         (recurrence t) (createdAt t) (completed t))
               (tasks st))
    (form st) (isEditing st) (showModal st).

(** The checkbox of a task: [!!t.completed]. *)
Definition checked (t : Item) : bool := negb (not_completed t).

End Todo.

(* ================================================================== *)
(** * Properties *)

Import Visibility.

(** Comparisons of ids are kept folded by [simpl]. *)
#[local] Arguments String.eqb : simpl nomatch.

(* ------------------------------------------------------------------ *)
(** ** Sets of ids *)

Lemma has_In (s : JSSet.t) (v : Id) : JSSet.has s v = true <-> In v s.
Proof.
  unfold JSSet.has. rewrite existsb_exists. split.
  - intros [w [Hw He]]. apply String.eqb_eq in He. now subst.
  - intros H. exists v. split; [assumption | apply String.eqb_refl].
Qed.

Lemma has_not_In (s : JSSet.t) (v : Id) : JSSet.has s v = false <-> ~ In v s.
Proof.
  rewrite <- has_In. destruct (JSSet.has s v); split; congruence.
Qed.

Lemma add_In (s : JSSet.t) (v x : Id) : In x (JSSet.add s v) <-> In x s \/ x = v.
Proof.
  unfold JSSet.add. destruct (JSSet.has s v) eqn:H.
  - apply has_In in H. split; [auto | intros [?| ->]; assumption].
  - rewrite in_app_iff. simpl. intuition.
Qed.

Lemma add_NoDup (s : JSSet.t) (v : Id) : NoDup s -> NoDup (JSSet.add s v).
Proof.
  intros Hs. unfold JSSet.add. destruct (JSSet.has s v) eqn:H; [assumption|].
  apply has_not_In in H. apply NoDup_app.
  - assumption.
  - constructor; [intros [] | constructor].
  - intros w Hw [<- | []]. contradiction.
Qed.

Lemma fold_add_In (l : list Id) : forall (acc : JSSet.t) (x : Id),
  In x (fold_left JSSet.add l acc) <-> In x acc \/ In x l.
Proof.
  induction l as [|a l IH]; intros acc x; simpl.
  - intuition.
  - rewrite IH, add_In. intuition.
Qed.

Lemma fold_add_NoDup (l : list Id) : forall acc : JSSet.t,
  NoDup acc -> NoDup (fold_left JSSet.add l acc).
Proof.
  induction l as [|a l IH]; intros acc H; simpl; [assumption|].
  apply IH, add_NoDup, H.
Qed.

Lemma of_list_In (l : list Id) (x : Id) : In x (JSSet.of_list l) <-> In x l.
Proof.
  unfold JSSet.of_list. rewrite fold_add_In. unfold JSSet.empty. simpl. intuition.
Qed.

(** [new Set(Array.from(s))] has the members of [s], in the same order. *)
Lemma fold_add_fresh (l : list Id) : forall acc : JSSet.t,
  NoDup (acc ++ l) -> fold_left JSSet.add l acc = acc ++ l.
Proof.
  induction l as [|a l IH]; intros acc H; simpl.
  - now rewrite app_nil_r.
  - assert (Ha : JSSet.has acc a = false).
    { apply has_not_In. intros Hin. apply NoDup_remove_2 in H.
      apply H. apply in_or_app. now left. }
    unfold JSSet.add at 2. rewrite Ha.
    rewrite IH; rewrite <- app_assoc; simpl; [reflexivity | assumption].
Qed.

Lemma of_list_to_list (s : JSSet.t) : NoDup s -> JSSet.of_list (JSSet.to_list s) = s.
Proof.
  intros H. unfold JSSet.of_list, JSSet.to_list, JSSet.empty.
  now rewrite fold_add_fresh.
Qed.

(* ------------------------------------------------------------------ *)
(** ** The loop of [computeHiddenTargets] *)

Lemma filter_length_mono {A : Type} (p q : A -> bool) (l : list A) :
  (forall a, p a = true -> q a = true) ->
  List.length (filter p l) <= List.length (filter q l).
Proof.
  intros Hpq. induction l as [|a l IH]; simpl; [lia|].
  destruct (p a) eqn:Hp.
  - rewrite (Hpq a Hp). simpl. lia.
  - destruct (q a); simpl; lia.
Qed.

Lemma filter_length_strict {A : Type} (p q : A -> bool) (l : list A) (a : A) :
  (forall b, p b = true -> q b = true) ->
  In a l -> p a = false -> q a = true ->
  List.length (filter p l) < List.length (filter q l).
Proof.
  intros Hpq Hin Hp Hq. induction l as [|b l IH]; simpl; [destruct Hin|].
  destruct Hin as [-> | Hin].
  - rewrite Hp, Hq. simpl.
    pose proof (filter_length_mono p q l Hpq). lia.
  - specialize (IH Hin). destruct (p b) eqn:Hpb.
    + rewrite (Hpq b Hpb). simpl. lia.
    + destruct (q b); simpl; lia.
Qed.

Lemma pending_push (E : list Edge.t) (h : JSSet.t) (e : Edge.t) :
  In e E -> JSSet.has h (Edge.target e) = false ->
  pending E (h ++ [Edge.target e]) < pending E h.
Proof.
  intros Hin Hh. unfold pending. apply filter_length_strict with (a := e).
  - intros b Hb. apply negb_true_iff in Hb. apply negb_true_iff.
    apply has_not_In in Hb. apply has_not_In. intros Hc. apply Hb.
    apply in_or_app. now left.
  - assumption.
  - apply negb_false_iff. apply has_In. apply in_or_app. right. now left.
  - now rewrite Hh.
Qed.

(** What [visit] does: nothing, or one push of a target that was not hidden. *)
Lemma visit_cases (src : Id) (st : loop) (e : Edge.t) :
  (visit src st e = st
   /\ (Edge.source e = src -> In (Edge.target e) (hidden st)))
  \/ (Edge.source e = src /\ JSSet.has (hidden st) (Edge.target e) = false
      /\ visit src st e = mk (hidden st ++ [Edge.target e])
                             (queue st ++ [Edge.target e])
                             (pushes st ++ [Edge.target e])).
Proof.
  unfold visit. destruct (String.eqb (Edge.source e) src) eqn:Hs; simpl.
  - apply String.eqb_eq in Hs.
    destruct (JSSet.has (hidden st) (Edge.target e)) eqn:Hh; simpl.
    + left. split; [reflexivity | intros _; now apply has_In].
    + right. unfold JSSet.add. rewrite Hh. auto.
  - left. apply String.eqb_neq in Hs. split; [reflexivity | congruence].
Qed.

Lemma fold_visit_spec (src : Id) (es : list Edge.t) : forall st : loop,
  exists new : list Id,
    hidden (fold_left (visit src) es st) = hidden st ++ new
    /\ queue (fold_left (visit src) es st) = queue st ++ new
    /\ pushes (fold_left (visit src) es st) = pushes st ++ new
    /\ (forall x, In x new ->
          exists e, In e es /\ Edge.source e = src /\ Edge.target e = x)
    /\ (NoDup (hidden st) -> NoDup (hidden (fold_left (visit src) es st)))
    /\ (forall e, In e es -> Edge.source e = src ->
          In (Edge.target e) (hidden (fold_left (visit src) es st))).
Proof.
  induction es as [|a es IH]; intros st; simpl.
  - exists []. rewrite !app_nil_r. repeat split; auto; intros ? [].
  - destruct (IH (visit src st a)) as (new & Hh & Hq & Hp & Hnew & Hnd & Hall).
    destruct (visit_cases src st a) as [[Hv Hin] | (Hs & Hhas & Hv)].
    + rewrite Hv in *. exists new. repeat split; auto.
      * intros x Hx. destruct (Hnew x Hx) as (e & ? & ? & ?). exists e. auto.
      * intros e [<- | He] Hsrc; [|now apply Hall].
        rewrite Hh. apply in_or_app. left. now apply Hin.
    + rewrite Hv in *. simpl in *. exists (Edge.target a :: new).
      rewrite Hh, Hq, Hp, <- !app_assoc. simpl. repeat split; auto.
      * intros x [<- | Hx]; [exists a; auto|].
        destruct (Hnew x Hx) as (e & ? & ? & ?). exists e. auto.
      * intros Hst.
        replace (hidden st ++ Edge.target a :: new)
          with ((hidden st ++ [Edge.target a]) ++ new)
          by (now rewrite <- app_assoc).
        rewrite <- Hh. apply Hnd.
        apply NoDup_app; [assumption | constructor; [intros []|constructor] |].
        intros w Hw [<- | []]. apply has_not_In in Hhas. contradiction.
      * intros e [<- | He] Hsrc.
        -- apply in_or_app. right. now left.
        -- specialize (Hall e He Hsrc). rewrite Hh, <- app_assoc in Hall. exact Hall.
Qed.

Lemma fold_visit_measure (E : list Edge.t) (src : Id) (es : list Edge.t) :
  incl es E -> forall st : loop,
  pending E (hidden (fold_left (visit src) es st))
    + List.length (queue (fold_left (visit src) es st))
  <= pending E (hidden st) + List.length (queue st).
Proof.
  induction es as [|a es IH]; intros Hincl st; simpl; [lia|].
  assert (Ha : In a E) by (apply Hincl; now left).
  assert (Hes : incl es E) by (intros x Hx; apply Hincl; now right).
  specialize (IH Hes (visit src st a)).
  destruct (visit_cases src st a) as [[Hv _] | (_ & Hhas & Hv)].
  - eapply Nat.le_trans; [exact IH|]. rewrite Hv. lia.
  - eapply Nat.le_trans; [exact IH|]. rewrite Hv. simpl.
    pose proof (pending_push E (hidden st) a Ha Hhas).
    rewrite length_app. simpl. lia.
Qed.

Lemma iteration_measure (E : list Edge.t) (st st' : loop) :
  iteration E st = Some st' ->
  pending E (hidden st') + List.length (queue st')
  < pending E (hidden st) + List.length (queue st).
Proof.
  unfold iteration. destruct (queue st) as [|src rest] eqn:Hq; [discriminate|].
  intros [= <-].
  pose proof (fold_visit_measure E src E (incl_refl E) (mk (hidden st) rest (pushes st))).
  simpl in *. lia.
Qed.

(** The loop ends within [pending + queue length] iterations. *)
Lemma while_terminates (E : list Edge.t) : forall (fuel : nat) (st : loop),
  pending E (hidden st) + List.length (queue st) <= fuel ->
  exists st', while fuel E st = Some st'.
Proof.
  induction fuel as [|fuel IH]; intros st H; simpl.
  - destruct (iteration E st) as [st'|] eqn:Hit; [|now exists st].
    apply iteration_measure in Hit. lia.
  - destruct (iteration E st) as [st'|] eqn:Hit; [|now exists st].
    apply IH. apply iteration_measure in Hit. lia.
Qed.

(** More fuel does not change the result. *)
Lemma while_more_fuel (E : list Edge.t) : forall (fuel k : nat) (st r : loop),
  while fuel E st = Some r -> while (fuel + k) E st = Some r.
Proof.
  induction fuel as [|fuel IH]; intros k st r; simpl.
  - destruct (iteration E st) eqn:Hit; [discriminate|].
    intros [= <-]. destruct k; simpl; now rewrite Hit.
  - destruct (iteration E st) eqn:Hit; [apply IH | trivial].
Qed.

(** Invariants of the loop. *)
Lemma while_invariant (E : list Edge.t) (P : loop -> Prop) :
  (forall st st', P st -> iteration E st = Some st' -> P st') ->
  forall (fuel : nat) (st r : loop),
    P st -> while fuel E st = Some r -> P r /\ queue r = [].
Proof.
  intros Hstep. induction fuel as [|fuel IH]; intros st r HP; simpl.
  - destruct (iteration E st) eqn:Hit; [discriminate|].
    intros [= <-]. split; [assumption|].
    unfold iteration in Hit. destruct (queue st); [reflexivity | discriminate].
  - destruct (iteration E st) as [st'|] eqn:Hit.
    + apply IH. now apply (Hstep st).
    + intros [= <-]. split; [assumption|].
      unfold iteration in Hit. destruct (queue st); [reflexivity | discriminate].
Qed.

Lemma iteration_spec (E : list Edge.t) (st st' : loop) :
  iteration E st = Some st' ->
  exists (src : Id) (rest new : list Id),
    queue st = src :: rest
    /\ hidden st' = hidden st ++ new
    /\ queue st' = rest ++ new
    /\ pushes st' = pushes st ++ new
    /\ (forall x, In x new ->
          exists e, In e E /\ Edge.source e = src /\ Edge.target e = x)
    /\ (NoDup (hidden st) -> NoDup (hidden st'))
    /\ (forall e, In e E -> Edge.source e = src -> In (Edge.target e) (hidden st')).
Proof.
  unfold iteration. destruct (queue st) as [|src rest] eqn:Hq; [discriminate|].
  intros [= <-]. exists src, rest.
  destruct (fold_visit_spec src E (mk (hidden st) rest (pushes st)))
    as (new & H). exists new. simpl in H. tauto.
Qed.

Lemma descendant_edge (C : list Id) (E : list Edge.t) (e : Edge.t) :
  In (Edge.source e) C -> In e E -> descendant C E (Edge.target e).
Proof.
  intros HC He. exists (Edge.source e). split; [assumption | now constructor].
Qed.

Lemma descendant_step (C : list Id) (E : list Edge.t) (e : Edge.t) :
  descendant C E (Edge.source e) -> In e E -> descendant C E (Edge.target e).
Proof.
  intros (r & Hr & Hreach) He. exists r. split; [assumption|].
  now apply reach_step.
Qed.

Lemma loopInv_init (C : list Id) (E : list Edge.t) :
  loopInv C E (mk JSSet.empty (JSSet.to_list C) []).
Proof.
  unfold loopInv, JSSet.empty, JSSet.to_list. simpl. repeat split.
  - constructor.
  - intros x [].
  - intros x Hx. now left.
  - intros x [Hx | []]. now left.
Qed.

Lemma loopInv_step (C : list Id) (E : list Edge.t) (st st' : loop) :
  loopInv C E st -> iteration E st = Some st' -> loopInv C E st'.
Proof.
  intros (Hnd & Hpush & Hsound & Hqueue & Hclosed) Hit.
  destruct (iteration_spec E st st' Hit)
    as (src & rest & new & Hq & Hh' & Hq' & Hp' & Hnew & Hnd' & Hall).
  assert (Hsrc : In src C \/ descendant C E src)
    by (apply Hqueue; rewrite Hq; now left).
  assert (Hdesc : forall x, In x new -> descendant C E x).
  { intros x Hx. destruct (Hnew x Hx) as (e & He & Hs & <-).
    destruct Hsrc as [Hc | Hd].
    - apply descendant_edge; [now rewrite Hs | assumption].
    - apply descendant_step; [now rewrite Hs | assumption]. }
  unfold loopInv. rewrite Hh', Hq', Hp'. repeat split.
  - rewrite <- Hh'. now apply Hnd'.
  - now rewrite Hpush.
  - intros x Hx. apply in_app_or in Hx. destruct Hx; auto.
  - intros x Hx. apply in_app_or in Hx. destruct Hx as [Hx | Hx].
    + apply Hqueue. rewrite Hq. now right.
    + right. now apply Hdesc.
  - intros x Hx.
    assert (Hx' : In x new \/ In x C \/ In x (hidden st)).
    { destruct Hx as [Hx | Hx]; [tauto|]. apply in_app_or in Hx. tauto. }
    destruct Hx' as [Hx' | Hx'].
    + left. apply in_or_app. now right.
    + destruct (Hclosed x Hx') as [Hin | Hsucc].
      * rewrite Hq in Hin. destruct Hin as [<- | Hin].
        -- right. intros e He Hs. rewrite <- Hh'. now apply Hall.
        -- left. apply in_or_app. now left.
      * right. intros e He Hs. apply in_or_app. left. now apply Hsucc.
Qed.

(** Any run that ends has computed the descendants of the collapsed ids,
    each pushed on the queue once. *)
Lemma run_spec (fuel : nat) (C : JSSet.t) (E : list Edge.t) (st : loop) :
  run fuel C E = Some st ->
  queue st = [] /\ NoDup (hidden st) /\ pushes st = hidden st
  /\ forall x, In x (hidden st) <-> descendant C E x.
Proof.
  unfold run. intros Hrun.
  destruct (while_invariant E (loopInv C E) (loopInv_step C E) fuel _ st
              (loopInv_init C E) Hrun)
    as ((Hnd & Hpush & Hsound & _ & Hclosed) & Hq).
  repeat split; auto.
  intros (r & Hr & Hreach).
  assert (Hgen : forall a b, reach E a b -> In a C \/ In a (hidden st) ->
                             In b (hidden st)).
  { intros a b Hab. induction Hab as [e He | a e Hab IH He]; intros Ha.
    - destruct (Hclosed _ Ha) as [Hin | Hsucc]; [rewrite Hq in Hin; destruct Hin|].
      now apply Hsucc.
    - specialize (IH Ha).
      destruct (Hclosed (Edge.source e) (or_intror IH)) as [Hin | Hsucc];
        [rewrite Hq in Hin; destruct Hin|].
      now apply Hsucc. }
  apply (Hgen r x Hreach). now left.
Qed.

Lemma pending_empty_le (E : list Edge.t) : pending E JSSet.empty <= List.length E.
Proof.
  unfold pending, JSSet.empty, JSSet.has.
  induction E as [|e E IH]; simpl in *; lia.
Qed.

(** The bound of [computeHiddenTargets] is enough, whatever the edges. *)
Lemma run_total (C : JSSet.t) (E : list Edge.t) (k : nat) :
  exists st, run (bound C E + k) C E = Some st
             /\ hidden st = computeHiddenTargets C E.
Proof.
  destruct (while_terminates E (bound C E)
              (mk JSSet.empty (JSSet.to_list C) [])) as (st & Hst).
  { simpl. unfold bound, JSSet.to_list. pose proof (pending_empty_le E). lia. }
  exists st. split.
  - unfold run. now apply while_more_fuel.
  - unfold computeHiddenTargets, run. now rewrite Hst.
Qed.

(** [computeHiddenTargets] returns the descendants of the collapsed ids. *)
Lemma computeHiddenTargets_spec (C : JSSet.t) (E : list Edge.t) (x : Id) :
  In x (computeHiddenTargets C E) <-> descendant C E x.
Proof.
  destruct (run_total C E 0) as (st & Hrun & <-).
  now apply (run_spec _ _ _ _ Hrun).
Qed.

Lemma computeHiddenTargets_NoDup (C : JSSet.t) (E : list Edge.t) :
  NoDup (computeHiddenTargets C E).
Proof.
  destruct (run_total C E 0) as (st & Hrun & <-).
  now apply (run_spec _ _ _ _ Hrun).
Qed.

Lemma reach_trans (E : list Edge.t) (a b c : Id) :
  reach E a b -> reach E b c -> reach E a c.
Proof.
  intros Hab Hbc. induction Hbc as [e He | b e Hbe IH He].
  - now apply reach_step.
  - apply reach_step; [now apply IH | assumption].
Qed.

(* ------------------------------------------------------------------ *)
(** ** Termination of the visibility traversal *)

(** A descendant is the target of an edge. *)
Lemma descendant_target (C : list Id) (E : list Edge.t) (x : Id) :
  descendant C E x -> In x (map Edge.target E).
Proof.
  intros (r & _ & Hreach).
  destruct Hreach as [e He | a e _ He]; now apply in_map.
Qed.

(** On the two-cycle [A -> B], [B -> A] with [A] collapsed, [A] is in the
    queue twice: the queue is created with it, and it is pushed when the
    edge [B -> A] is met, [A] not being in the hidden set then. *)
Lemma collapsed_id_enqueued_twice :
  let E := [arrowEdge "e1" "A" "B"; arrowEdge "e2" "B" "A"] in
  let start := mk JSSet.empty ["A"] [] in
  let second := mk ["B"] ["B"] ["B"] in
  let third := mk ["B"; "A"] ["A"] ["B"; "A"] in
  let last := mk ["B"; "A"] [] ["B"; "A"] in
  iteration E start = Some second
  /\ iteration E second = Some third
  /\ iteration E third = Some last
  /\ iteration E last = None
  /\ run (bound ["A"] E) ["A"] E = Some last
  /\ enqueued ["A"] last = ["A"; "B"; "A"]
  /\ count_occ string_dec (enqueued ["A"] last) "A" = 2
  /\ ~ NoDup (enqueued ["A"] last).
Proof.
  intros E start second third last.
  do 7 (split; [reflexivity|]).
  intros H. apply NoDup_cons_iff in H. destruct H as [H _].
  apply H. right. now left.
Qed.

(** C10 (amended). For every collapse set and every edge list, cycles and
    self-loops included, the loop of [computeHiddenTargets] ends within
    [bound C E] iterations (and any larger number changes nothing) with an
    empty queue and the returned set, which has no duplicate.  The ids
    pushed on the queue are exactly the ids added to the hidden set, in the
    same order: they are the descendants of the collapsed ids, none is
    pushed twice, and there are no more of them than edges.  The queue is
    created with the collapsed ids, which are not in the hidden set then:
    an id is put in the queue at most once more than it occurs among the
    collapsed ids. *)
Theorem computeHiddenTargets_terminates (C : JSSet.t) (E : list Edge.t) (k : nat) :
  exists st : loop,
    run (bound C E + k) C E = Some st
    /\ queue st = []
    /\ hidden st = computeHiddenTargets C E
    /\ pushes st = hidden st
    /\ NoDup (pushes st)
    /\ NoDup (computeHiddenTargets C E)
    /\ (forall x, In x (pushes st) <-> descendant C E x)
    /\ List.length (pushes st) <= List.length E
    /\ (forall x, count_occ string_dec (enqueued C st) x
                  <= count_occ string_dec (JSSet.to_list C) x + 1).
Proof.
  destruct (run_total C E k) as (st & Hrun & Hres).
  destruct (run_spec _ _ _ _ Hrun) as (Hq & Hnd & Hpush & Hdesc).
  exists st. rewrite Hpush, <- Hres.
  do 6 (split; [auto|]). split; [|split].
  - exact Hdesc.
  - rewrite <- (length_map Edge.target E). apply NoDup_incl_length; [exact Hnd|].
    intros x Hx. apply (descendant_target C). now apply Hdesc.
  - intros x. unfold enqueued. rewrite count_occ_app, Hpush.
    apply Nat.add_le_mono_l.
    now apply (proj1 (NoDup_count_occ string_dec (hidden st))).
Qed.

(** The traversal on a two-cycle, on a self-loop and on both. *)
Lemma cycle_example :
  let ab := arrowEdge "e1" "A" "B" in
  let ba := arrowEdge "e2" "B" "A" in
  let aa := arrowEdge "e3" "A" "A" in
  computeHiddenTargets ["A"] [ab; ba] = ["B"; "A"]
  /\ computeHiddenTargets ["A"] [aa] = ["A"]
  /\ computeHiddenTargets ["A"; "B"] [ab; ba; aa] = ["B"; "A"].
Proof. repeat split; reflexivity. Qed.

(* ------------------------------------------------------------------ *)
(** ** Recomputing the hidden set *)

(** The hidden set of the hidden set is one step further down: collapsing
    [root] over the single edge [root -> A] hides [A], and nothing is below
    [A]. *)
Lemma computeHidden_not_idempotent :
  let E := [arrowEdge "e" "root" "A"] in
  computeHiddenTargets ["root"] E = ["A"]
  /\ computeHiddenTargets (computeHiddenTargets ["root"] E) E = []
  /\ computeHiddenTargets (computeHiddenTargets ["root"] E) E
     <> computeHiddenTargets ["root"] E.
Proof.
  intros E. split; [reflexivity | split; [reflexivity | discriminate]].
Qed.

(** C3 (amended). Recomputing on the hidden set alone gives a subset of
    it; recomputing on the collapse set together with the hidden set gives
    the hidden set again. *)
Theorem computeHidden_closed (C : JSSet.t) (E : list Edge.t) :
  incl (computeHiddenTargets (computeHiddenTargets C E) E)
       (computeHiddenTargets C E)
  /\ forall x : Id,
       In x (computeHiddenTargets
               (JSSet.of_list (JSSet.to_list C
                               ++ JSSet.to_list (computeHiddenTargets C E))) E)
       <-> In x (computeHiddenTargets C E).
Proof.
  split.
  - intros x Hx. apply computeHiddenTargets_spec in Hx.
    destruct Hx as (h & Hh & Hreach).
    apply computeHiddenTargets_spec in Hh. destruct Hh as (r & Hr & Hrh).
    apply computeHiddenTargets_spec. exists r. split; [assumption|].
    now apply reach_trans with h.
  - intros x. rewrite !computeHiddenTargets_spec. split.
    + intros (r & Hr & Hreach). apply (proj1 (of_list_In _ _)) in Hr.
      unfold JSSet.to_list in Hr. apply in_app_or in Hr.
      destruct Hr as [Hr | Hr]; [now exists r|].
      apply computeHiddenTargets_spec in Hr. destruct Hr as (c & Hc & Hcr).
      exists c. split; [assumption | now apply reach_trans with r].
    + intros (r & Hr & Hreach). exists r. split; [|assumption].
      apply of_list_In. apply in_or_app. now left.
Qed.

(* ------------------------------------------------------------------ *)
(** ** Rendered edges *)

(** The graph with [root], one child [A] and the edge [root -> A], with
    [root] collapsed. *)
Lemma collapsed_root_state :
  let st := onToggleCollapse "root" (addChild "A" "e" 0 "Math" initialState) in
  map Node.id (nodes st) = ["root"; "A"]
  /\ map (fun e => (Edge.source e, Edge.target e)) (edges st) = [("root", "A")]
  /\ collapsed st = ["root"].
Proof. repeat split; reflexivity. Qed.

(** C5. An edge of the graph is rendered exactly when neither end is in
    the set that [computeHiddenTargets] returns for the collapsed set and
    the edges of the state, and its source is not collapsed.  That set is
    the set of the descendants of the collapsed nodes, so an edge is
    rendered exactly when neither end is below a collapsed node and its
    source is not collapsed.
    With [root] collapsed over the single edge [root -> A] the hidden set
    is [{A}] and the edge is not rendered.  With edges [root -> A],
    [A -> B] and [root -> B]: collapsing [root] hides [A] and [B], and
    [A -> B] is not rendered although [A] is not collapsed; collapsing [A]
    hides [B], and [root -> B] is not rendered although [root] is neither
    hidden nor collapsed, while [root -> A] is. *)
Theorem visibleEdges_spec :
  (forall (st : State) (e : Edge.t),
      In e (visibleEdges st)
      <-> In e (edges st)
          /\ ~ In (Edge.source e) (computeHiddenTargets (collapsed st) (edges st))
          /\ ~ In (Edge.target e) (computeHiddenTargets (collapsed st) (edges st))
          /\ ~ In (Edge.source e) (collapsed st))
  /\ (forall (st : State) (v : Id),
        In v (computeHiddenTargets (collapsed st) (edges st))
        <-> exists c, In c (collapsed st) /\ reach (edges st) c v)
  /\ (forall (st : State) (e : Edge.t),
        In e (visibleEdges st)
        <-> In e (edges st)
            /\ ~ descendant (collapsed st) (edges st) (Edge.source e)
            /\ ~ descendant (collapsed st) (edges st) (Edge.target e)
            /\ ~ In (Edge.source e) (collapsed st))
  /\ (let st := onToggleCollapse "root" (addChild "A" "e" 0 "Math" initialState) in
      edges st = [arrowEdge "e" "root" "A"]
      /\ collapsed st = ["root"]
      /\ computeHiddenTargets ["root"] [arrowEdge "e" "root" "A"] = ["A"]
      /\ computeHiddenTargets (collapsed st) (edges st) = ["A"]
      /\ ~ In (arrowEdge "e" "root" "A") (visibleEdges st)
      /\ visibleEdges st = [])
  /\ (let ends := map (fun e => (Edge.source e, Edge.target e)) in
      let st := play [EvAddChild "A" "e1" 0 "Math"; EvAddChild "B" "e2" 0 "Math";
                      EvConnect "e3" "u1" "u2" "u3" 0 0 "root" "B"] initialState in
      let below_root := onToggleCollapse "root" st in
      let below_A := onToggleCollapse "A" st in
      ends (edges st) = [("root", "A"); ("A", "B"); ("root", "B")]
      /\ visibleEdges st = edges st
      /\ computeHiddenTargets (collapsed below_root) (edges below_root) = ["A"; "B"]
      /\ ends (visibleEdges below_root) = []
      /\ computeHiddenTargets (collapsed below_A) (edges below_A) = ["B"]
      /\ ends (visibleEdges below_A) = [("root", "A")]).
Proof.
  assert (Hvis : forall (st : State) (e : Edge.t),
      In e (visibleEdges st)
      <-> In e (edges st)
          /\ ~ In (Edge.source e) (computeHiddenTargets (collapsed st) (edges st))
          /\ ~ In (Edge.target e) (computeHiddenTargets (collapsed st) (edges st))
          /\ ~ In (Edge.source e) (collapsed st)).
  { intros st e. unfold visibleEdges, hiddenTargets. rewrite filter_In.
    rewrite !andb_true_iff, !negb_true_iff, !has_not_In. tauto. }
  split; [exact Hvis|]. split; [|split].
  - intros st v. apply computeHiddenTargets_spec.
  - intros st e. rewrite Hvis, !computeHiddenTargets_spec. tauto.
  - split.
    + repeat split; try reflexivity. intros [].
    + repeat split; reflexivity.
Qed.

(* ------------------------------------------------------------------ *)
(** ** Rendered nodes *)

(** The filter of [decoratedNodes] drops every collapsed node. *)
Lemma decoratedNodes_spec (st : State) (n : Node.t) :
  In n (decoratedNodes st)
  <-> In n (nodes st)
      /\ ~ In (Node.id n) (hiddenTargets st)
      /\ ~ In (Node.id n) (collapsed st).
Proof.
  unfold decoratedNodes. rewrite filter_In.
  rewrite andb_true_iff, !negb_true_iff, !has_not_In. tauto.
Qed.

(** C4 (the code at the failing input). With [root] collapsed over the
    edge [root -> A], [root] is in the collapsed set and not in the hidden
    set, and the rendered node list is empty: [root] is not rendered. *)
Theorem decoratedNodes_drops_collapsed :
  let st := onToggleCollapse "root" (addChild "A" "e" 0 "Math" initialState) in
  In "root" (collapsed st)
  /\ ~ In "root" (hiddenTargets st)
  /\ In "root" (map Node.id (nodes st))
  /\ decoratedNodes st = [].
Proof.
  intros st. split; [now left|]. split.
  - change (hiddenTargets st) with ["A"]. intros [H | []]. discriminate.
  - split; [now left | reflexivity].
Qed.

(* ------------------------------------------------------------------ *)
(** ** Deleting while the root is selected *)

(** A state the editor reaches in which the root is the selected node and
    an edge is selected too: add a child, select its edge, add a second
    child, delete it with the Delete button (which selects the root). *)
Lemma root_and_edge_selected :
  let st := play [EvAddChild "a" "e1" 0 "Math";
                  EvSelectionChange [] [arrowEdge "e1" "root" "a"];
                  EvAddChild "b" "e2" 0 "Math";
                  EvDeleteSelected] initialState in
  selectedId st = Some "root"
  /\ selectedEdgeId st = Some "e1"
  /\ option_map Node.id (selectedNode st) = Some "root"
  /\ map Edge.id (edges st) = ["e1"].
Proof. repeat split; reflexivity. Qed.

(** In that state the Delete key removes the selected edge. *)
Lemma delete_key_on_root_removes_edge :
  let st := play [EvAddChild "a" "e1" 0 "Math";
                  EvSelectionChange [] [arrowEdge "e1" "root" "a"];
                  EvAddChild "b" "e2" 0 "Math";
                  EvDeleteSelected] initialState in
  option_map Node.id (selectedNode st) = Some "root"
  /\ List.length (edges st) = 1
  /\ List.length (edges (onKeyDelete st)) = 0
  /\ edges (onKeyDelete st) <> edges st.
Proof.
  intros st. split; [reflexivity|]. split; [reflexivity|].
  split; [reflexivity | discriminate].
Qed.

(** C2 (amended). With the root selected, the Delete button changes nothing;
    the Delete and Backspace keys leave the nodes unchanged, change nothing
    at all when no edge is selected, and otherwise remove the selected
    edge. *)
Theorem delete_root_noop (st : State) (Hroot : selectedId st = Some "root") :
  deleteSelected st = st
  /\ nodes (onKeyDelete st) = nodes st
  /\ (truthy (selectedEdgeId st) = false -> onKeyDelete st = st)
  /\ (truthy (selectedEdgeId st) = true ->
      edges (onKeyDelete st)
      = filter (fun x => negb (opt_is (selectedEdgeId st) (Edge.id x))) (edges st)).
Proof.
  repeat split.
  - unfold deleteSelected. destruct (selectedNode st) as [n|] eqn:Hn; [|reflexivity].
    unfold selectedNode in Hn. apply find_some in Hn. destruct Hn as [_ Hn].
    rewrite Hroot in Hn. simpl in Hn. apply String.eqb_eq in Hn.
    rewrite <- Hn. reflexivity.
  - unfold onKeyDelete. destruct (truthy (selectedEdgeId st)); [reflexivity|].
    rewrite Hroot. reflexivity.
  - intros He. unfold onKeyDelete. rewrite He, Hroot. reflexivity.
  - intros He. unfold onKeyDelete. rewrite He. reflexivity.
Qed.

Lemma delete_root_noop_witness :
  deleteSelected initialState = initialState
  /\ onKeyDelete initialState = initialState.
Proof.
  destruct (delete_root_noop initialState eq_refl) as (Hd & _ & Hk & _).
  split; [exact Hd | apply Hk; reflexivity].
Defined.

(* ------------------------------------------------------------------ *)
(** ** The informational tool *)

(** The expressions of the handlers in the two arithmetics: the formulas
    of the source over rationals and over binary64 numbers. *)
Lemma expressions_unfold :
  (forall r : Q, boxCoordinate Exact r = (120 + r * 200)%Q)
  /\ (forall x y r : Q,
        childPosition Exact (x, y) r = (x + 200, y + (r * 160 - 80))%Q)
  /\ (forall sx sy tx ty : Q,
        midpoint Exact (sx, sy) (tx, ty) = ((sx + tx) / 2, (sy + ty) / 2)%Q)
  /\ (forall r : float, boxCoordinate Binary64 r = (120 + r * 200)%float)
  /\ (forall x y r : float,
        childPosition Binary64 (x, y) r = (x + 200, y + (r * 160 - 80))%float)
  /\ (forall sx sy tx ty : float,
        midpoint Binary64 (sx, sy) (tx, ty)
        = ((sx + tx) / 2, (sy + ty) / 2)%float).
Proof. repeat split. Qed.

(** The coordinates that the handlers of the model store. *)
Lemma handlers_use_expressions :
  (forall u r1 r2 st,
      createNodeBox u r1 r2 st
      = createNodeBoxAt u (Position.mk (boxCoordinate Exact r1)
                                       (boxCoordinate Exact r2)) st)
  /\ (forall u ue r subject st b,
        selectedNode st = Some b ->
        exists n, nodes (addChild u ue r subject st) = nodes st ++ [n]
                  /\ coordinates (Node.position n)
                     = childPosition Exact (coordinates (Node.position b)) r)
  /\ (forall s t,
        coordinates (connectMid (Some s) (Some t))
        = midpoint Exact (coordinates (Node.position s))
                         (coordinates (Node.position t))).
Proof.
  split; [reflexivity|]. split; [|reflexivity].
  intros u ue r subject st b Hb. unfold addChild. rewrite Hb.
  eexists. split; reflexivity.
Qed.






(* ------------------------------------------------------------------ *)
(** ** Waypoint operations whose preconditions are unmet *)

(** A waypoint with an inbound edge only: connect [root] to [A] with the
    informational tool, then delete the second segment. *)
Lemma dangling_waypoint_state :
  let st := play [EvAddChild "A" "e" 0 "Math"; EvSelectTool "informational";
                  EvConnect "u0" "w" "ea" "eb" 0 0 "root" "A";
                  EvDeleteEdgeRow "eb"] initialState in
  map (fun n => (Node.id n, Node.type n)) (nodes st)
    = [("root", "study"); ("A", "study"); ("w", "waypoint")]
  /\ map (fun e => (Edge.id e, Edge.source e, Edge.target e)) (edges st)
    = [("e", "root", "A"); ("ea", "root", "w")].
Proof. split; reflexivity. Qed.

(** [removeWaypoint] on the remaining segment finds the waypoint, finds no
    outbound edge, and removes the waypoint and the segment. *)
Lemma removeWaypoint_dangling_mutates :
  let st := play [EvAddChild "A" "e" 0 "Math"; EvSelectTool "informational";
                  EvConnect "u0" "w" "ea" "eb" 0 0 "root" "A";
                  EvDeleteEdgeRow "eb"] initialState in
  find (fun x => String.eqb (Edge.source x) "w") (edges st) = None
  /\ List.length (nodes (removeWaypoint "j" "ea" st)) <> List.length (nodes st)
  /\ List.length (edges (removeWaypoint "j" "ea" st)) <> List.length (edges st).
Proof.
  intros st. split; [reflexivity|]. split; vm_compute; discriminate.
Qed.

(** [insertWaypointAt] on an edge id that does not exist adds its waypoint
    node all the same. *)
Lemma insertWaypointAt_unknown_edge_adds_node :
  let st := insertWaypointAt "w" "a" "b" "nope" (Position.mk 0 0) initialState in
  map Node.id (nodes st) = ["root"; "w"] /\ edges st = [].
Proof. split; reflexivity. Qed.

(** [splitEdgeToWaypoint] on an edge id that does not exist changes nothing. *)
Lemma splitEdgeToWaypoint_unknown_edge (uw ua ub edgeId : Id) (st : State) :
  find_edge edgeId (edges st) = None ->
  splitEdgeToWaypoint uw ua ub edgeId st = st.
Proof.
  intros H. unfold splitEdgeToWaypoint. now rewrite H.
Qed.

Lemma setNodes_setEdges_id (st : State) :
  setEdges (fun eds => eds) (setNodes (fun nds => nds) st) = st.
Proof. now destruct st. Qed.

(** C8 (amended). [insertWaypointAt] on an edge id that is not in the edge
    set leaves the edge set unchanged. [removeWaypoint] leaves nodes and
    edges unchanged when the edge id is not in the edge set or when its
    search finds no waypoint; when it finds a waypoint that lacks an inbound
    or an outbound edge, it removes that waypoint and the edges at it. *)
Theorem unmet_preconditions
  (uw ua ub u : Id) (edgeId : Id) (pos : Position.t) (st : State) :
  (find_edge edgeId (edges st) = None ->
     edges (insertWaypointAt uw ua ub edgeId pos st) = edges st
     /\ removeWaypoint u edgeId st = st)
  /\ (forall e : Edge.t,
        find_edge edgeId (edges st) = Some e ->
        find (waypointFor (edges st) e) (nodes st) = None ->
        removeWaypoint u edgeId st = st)
  /\ (forall (e : Edge.t) (wp : Node.t),
        find_edge edgeId (edges st) = Some e ->
        find (waypointFor (edges st) e) (nodes st) = Some wp ->
        find (fun x => String.eqb (Edge.target x) (Node.id wp)) (edges st) = None
        \/ find (fun x => String.eqb (Edge.source x) (Node.id wp)) (edges st) = None ->
        nodes (removeWaypoint u edgeId st)
          = filter (fun n => negb (String.eqb (Node.id n) (Node.id wp))) (nodes st)
        /\ edges (removeWaypoint u edgeId st)
          = filter (fun x => negb (String.eqb (Edge.source x) (Node.id wp))
                             && negb (String.eqb (Edge.target x) (Node.id wp)))
                   (edges st)).
Proof.
  split; [|split].
  - intros H. split.
    + unfold insertWaypointAt. simpl. now rewrite H.
    + unfold removeWaypoint. now rewrite H.
  - intros e He Hwp. unfold removeWaypoint. now rewrite He, Hwp.
  - intros e wp He Hwp Hpair. unfold removeWaypoint. rewrite He, Hwp. simpl.
    split; [reflexivity|].
    destruct Hpair as [H1 | H1]; rewrite H1; [reflexivity|].
    destruct (find (fun x => String.eqb (Edge.target x) (Node.id wp)) (edges st));
      reflexivity.
Qed.

Lemma unmet_preconditions_witness :
  find_edge "nope" (edges initialState) = None
  /\ removeWaypoint "j" "nope" initialState = initialState.
Proof.
  split; [reflexivity|].
  apply (unmet_preconditions "w" "a" "b" "j" "nope" (Position.mk 0 0) initialState).
  reflexivity.
Defined.

(* ------------------------------------------------------------------ *)
(** ** Splitting an edge and removing the waypoint again *)

(** The graph [root -> A], [root -> B] and a bent edge [A -> w0 -> B]
    made with the informational tool. *)
Lemma bent_edge_state :
  let st := play [EvAddChild "A" "e1" 0 "Math";
                  EvSelectionChange [rootNode] [];
                  EvAddChild "B" "e2" 0 "Math";
                  EvSelectTool "informational";
                  EvConnect "u0" "w0" "s1" "s2" 0 0 "A" "B"] initialState in
  nodeSig (nodes st)
    = [("root", "study"); ("A", "study"); ("B", "study"); ("w0", "waypoint")]
  /\ map (fun e => (Edge.id e, Edge.source e, Edge.target e)) (edges st)
    = [("e1", "root", "A"); ("e2", "root", "B");
       ("s1", "A", "w0"); ("s2", "w0", "B")].
Proof. split; reflexivity. Qed.

(** C7 (the code at the failing input). In that graph, split the edge
    [e2 : root -> B] and call [removeWaypoint] on the second segment
    [b : w1 -> B]: the search of [removeWaypoint] meets [w0] first (it has an
    edge into [B]), so [w0] is removed and [A -> B] rejoined, while the
    inserted waypoint [w1] and its two segments stay and no edge
    [root -> B] comes back. *)
Theorem split_remove_wrong_waypoint :
  let st := play [EvAddChild "A" "e1" 0 "Math";
                  EvSelectionChange [rootNode] [];
                  EvAddChild "B" "e2" 0 "Math";
                  EvSelectTool "informational";
                  EvConnect "u0" "w0" "s1" "s2" 0 0 "A" "B"] initialState in
  let st1 := splitEdgeToWaypoint "w1" "a" "b" "e2" st in
  let st2 := removeWaypoint "j" "b" st1 in
  option_map (fun e => (Edge.source e, Edge.target e)) (find_edge "e2" (edges st))
    = Some ("root", "B")
  /\ map (fun e => (Edge.id e, Edge.source e, Edge.target e)) (edges st1)
     = [("e1", "root", "A"); ("s1", "A", "w0"); ("s2", "w0", "B");
        ("a", "root", "w1"); ("b", "w1", "B")]
  /\ map Node.id (nodes st2) = ["root"; "A"; "B"; "w1"]
  /\ map (fun e => (Edge.id e, Edge.source e, Edge.target e)) (edges st2)
     = [("e1", "root", "A"); ("a", "root", "w1"); ("b", "w1", "B");
        ("j", "A", "B")].
Proof. repeat split; reflexivity. Qed.

(* ------------------------------------------------------------------ *)
(** ** The root node *)

Lemma rootCount_app (l l' : list Node.t) :
  rootCount (l ++ l') = rootCount l + rootCount l'.
Proof.
  unfold rootCount. now rewrite filter_app, length_app.
Qed.

Lemma rootOk_concat (n : Node.t) (l : list Node.t) :
  Node.id n <> "root" -> rootOk l -> rootOk (concat1 n l).
Proof.
  intros Hn [Hc Hw]. unfold concat1. split.
  - rewrite rootCount_app, Hc. unfold rootCount. simpl.
    apply String.eqb_neq in Hn. now rewrite Hn.
  - intros m Hm Hid. apply in_app_or in Hm. destruct Hm as [Hm | [<- | []]].
    + now apply Hw.
    + contradiction.
Qed.

(** Removing nodes that are not the root keeps the invariant. *)
Lemma rootOk_filter (p : Node.t -> bool) (l : list Node.t) :
  (forall n, In n l -> Node.id n = "root" -> p n = true) ->
  rootOk l -> rootOk (filter p l).
Proof.
  intros Hp [Hc Hw]. split.
  - rewrite <- Hc. unfold rootCount. clear Hc Hw.
    induction l as [|a l IH]; [reflexivity|]. simpl.
    assert (IH' : List.length (filter (fun n => String.eqb (Node.id n) "root") (filter p l))
                  = List.length (filter (fun n => String.eqb (Node.id n) "root") l)).
    { apply IH. intros n Hn. apply Hp. now right. }
    destruct (String.eqb (Node.id a) "root") eqn:Ha.
    + rewrite (Hp a (or_introl eq_refl) (proj1 (String.eqb_eq _ _) Ha)).
      simpl. rewrite Ha. simpl. now rewrite IH'.
    + destruct (p a); simpl; [rewrite Ha|]; exact IH'.
  - intros n Hn. apply filter_In in Hn. now apply Hw.
Qed.

Lemma rootCount_sig (l : list Node.t) :
  rootCount l
  = List.length (filter (fun p => String.eqb (fst p) "root") (nodeSig l)).
Proof.
  unfold rootCount, nodeSig. induction l as [|a l IH]; [reflexivity|].
  simpl. destruct (String.eqb (Node.id a) "root"); simpl; now rewrite IH.
Qed.

(** The invariant depends on the ids and types only. *)
Lemma rootOk_sig (l l' : list Node.t) :
  nodeSig l' = nodeSig l -> rootOk l -> rootOk l'.
Proof.
  intros Hsig [Hc Hw]. split.
  - now rewrite rootCount_sig, Hsig, <- rootCount_sig.
  - intros n Hn Hid Hty.
    assert (Hin : In (Node.id n, Node.type n) (nodeSig l)).
    { rewrite <- Hsig. unfold nodeSig.
      now apply (in_map (fun m => (Node.id m, Node.type m))). }
    unfold nodeSig in Hin. apply in_map_iff in Hin.
    destruct Hin as (m & Hm & Hin). injection Hm as Hmid Hmty.
    apply (Hw m Hin); congruence.
Qed.

Lemma nodeSig_map (f : Node.t -> Node.t) (l : list Node.t) :
  (forall n, Node.id (f n) = Node.id n /\ Node.type (f n) = Node.type n) ->
  nodeSig (map f l) = nodeSig l.
Proof.
  intros Hf. unfold nodeSig. rewrite map_map. apply map_ext.
  intros n. destruct (Hf n) as [-> ->]. reflexivity.
Qed.

Lemma nodeSig_indexed (g : nat * Node.t -> Node.t) (l : list Node.t) :
  (forall p, Node.id (g p) = Node.id (snd p) /\ Node.type (g p) = Node.type (snd p)) ->
  forall k : nat,
    nodeSig (map g (combine (seq k (List.length l)) l)) = nodeSig l.
Proof.
  intros Hg. induction l as [|a l IH]; intros k; [reflexivity|].
  simpl. unfold nodeSig in *. simpl. rewrite IH.
  destruct (Hg (k, a)) as [-> ->]. reflexivity.
Qed.

Lemma rootOk_initial : rootOk (nodes initialState).
Proof.
  split; [reflexivity|].
  intros n [<- | []] _. discriminate.
Qed.

Ltac fresh_ids :=
  repeat match goal with
    | H : (_ && _)%bool = true |- _ => apply andb_prop in H; destruct H
    | H : negb (String.eqb _ _) = true |- _ =>
        apply negb_true_iff in H; apply String.eqb_neq in H
    | H : true = true |- _ => clear H
    end.

Ltac keeps_concat := simpl; apply rootOk_concat; [simpl; assumption | assumption].

Lemma rootOk_onKeyDelete (st : State) :
  rootOk (nodes st) -> rootOk (nodes (onKeyDelete st)).
Proof.
  intros Hok. unfold onKeyDelete.
  destruct (truthy (selectedEdgeId st)); [exact Hok|].
  destruct (truthy (selectedId st) && negb (opt_is (selectedId st) "root")) eqn:Hg;
    [|exact Hok].
  simpl. apply rootOk_filter; [|exact Hok].
  intros n _ Hid. rewrite Hid. apply andb_prop in Hg. tauto.
Qed.

Lemma rootOk_deleteSelected (st : State) :
  rootOk (nodes st) -> rootOk (nodes (deleteSelected st)).
Proof.
  intros Hok. unfold deleteSelected.
  destruct (selectedNode st) as [s|]; [|exact Hok].
  destruct (String.eqb (Node.id s) "root") eqn:Hs; [exact Hok|].
  simpl. apply rootOk_filter; [|exact Hok].
  intros n _ Hid. rewrite Hid. rewrite String.eqb_sym, Hs. reflexivity.
Qed.

Lemma rootOk_removeWaypoint (u edgeId : Id) (st : State) :
  rootOk (nodes st) -> rootOk (nodes (removeWaypoint u edgeId st)).
Proof.
  intros Hok. unfold removeWaypoint.
  destruct (find_edge edgeId (edges st)) as [e|]; [|exact Hok].
  destruct (find (waypointFor (edges st) e) (nodes st)) as [wp|] eqn:Hwp; [|exact Hok].
  apply find_some in Hwp. destruct Hwp as [Hin Hwp].
  unfold waypointFor in Hwp. apply andb_prop in Hwp. destruct Hwp as [Hty _].
  apply String.eqb_eq in Hty.
  simpl. apply rootOk_filter; [|exact Hok].
  intros n _ Hid. apply negb_true_iff. apply String.eqb_neq. rewrite Hid.
  intros Heq. destruct Hok as [_ Hw]. now apply (Hw wp Hin).
Qed.

Lemma rootOk_insertWaypointAt (uw ua ub edgeId : Id) (pos : Position.t) (st : State) :
  uw <> "root" -> rootOk (nodes st) ->
  rootOk (nodes (insertWaypointAt uw ua ub edgeId pos st)).
Proof.
  intros Hu Hok. unfold insertWaypointAt. keeps_concat.
Qed.

Lemma rootOk_applyTemplate (u1 u2 u3 u4 : Id) (type : string) (st : State) :
  String.eqb type "exam" = false -> rootOk (nodes st) ->
  rootOk (nodes (applyTemplate u1 u2 u3 u4 type st)).
Proof.
  intros Hty Hok. unfold applyTemplate. rewrite Hty.
  destruct (String.eqb type "research").
  - split; [reflexivity|]. intros n Hin _ Hw. vm_compute in Hin.
    repeat (destruct Hin as [<- | Hin]; [discriminate Hw|]). destruct Hin.
  - destruct (String.eqb type "planner"); [|exact Hok].
    split; [reflexivity|]. intros n Hin _ Hw. simpl in Hin.
    repeat (destruct Hin as [<- | Hin]; [discriminate Hw|]). destruct Hin.
Qed.

Lemma oneRoot_rootOk (nds : list Node.t) : oneRoot nds = true -> rootOk nds.
Proof.
  unfold oneRoot. intros H. apply andb_prop in H. destruct H as [Hc Hw].
  split; [now apply Nat.eqb_eq|].
  intros n Hin Hid Hty. rewrite forallb_forall in Hw. specialize (Hw n Hin).
  rewrite Hid, Hty in Hw. discriminate Hw.
Qed.

(** Each gesture of [keepsRoot] keeps the invariant of the node list. *)
Lemma rootOk_step (ev : Event) (st : State) :
  keepsRoot ev = true -> rootOk (nodes st) -> rootOk (nodes (step ev st)).
Proof.
  intros Hk Hok. unfold keepsRoot in Hk.
  destruct ev; simpl in Hk; fresh_ids; try discriminate;
    try exact Hok; try keeps_concat.
  - (* onPaneClick *)
    unfold step, onPaneClick.
    destruct (String.eqb (currentTool st) "node"); [keeps_concat|].
    destruct (String.eqb (currentTool st) "informational"); [keeps_concat | exact Hok].
  - (* onConnect *)
    unfold step, onConnect.
    destruct (String.eqb (currentTool st) "node"); [keeps_concat|].
    destruct (String.eqb (currentTool st) "informational"); [keeps_concat|].
    destruct (String.eqb (currentTool st) "dotted"); exact Hok.
  - (* onSelectionChange *)
    unfold step, onSelectionChange.
    destruct sel_nodes; [destruct sel_edges|]; exact Hok.
  - now apply rootOk_onKeyDelete.
  - (* addChild *)
    unfold step, addChild.
    destruct (selectedNode st); [keeps_concat|].
    destruct (hd_error (nodes st)); [keeps_concat | exact Hok].
  - now apply rootOk_deleteSelected.
  - (* splitEdgeToWaypoint *)
    unfold step, splitEdgeToWaypoint.
    destruct (find_edge edgeId (edges st)); [keeps_concat | exact Hok].
  - (* onEdgeClick *)
    unfold step, onEdgeClick.
    destruct (String.eqb (currentTool st) "waypoint"); [|exact Hok].
    now apply rootOk_insertWaypointAt.
  - now apply rootOk_removeWaypoint.
  - (* updateSelected *)
    unfold step, updateSelected. simpl.
    apply rootOk_sig with (l := nodes st); [|exact Hok].
    apply nodeSig_map. intros n.
    destruct (opt_is (selectedId st) (Node.id n)); split; reflexivity.
  - (* selectTool *)
    unfold step, selectTool.
    repeat match goal with
      | |- context [if ?b then _ else _] => destruct b
      end; exact Hok.
  - (* autoArrange *)
    unfold step, autoArrange. simpl.
    apply rootOk_sig with (l := nodes st); [|exact Hok].
    apply nodeSig_indexed. intros p. split; reflexivity.
  - (* applyTemplate *)
    apply rootOk_applyTemplate; [|exact Hok].
    now apply String.eqb_neq.
  - (* importJSON *)
    now apply oneRoot_rootOk.
Qed.

(** The import sets the node list to the list of the payload. *)
Lemma importJSON_nodes (parsed : Snapshot) (st : State) :
  nodes (importJSON parsed st) = or_empty (snap_nodes parsed).
Proof. reflexivity. Qed.

(** An import whose payload has no node list, or an empty one, leaves no
    root: so do a file without [nodes], one whose [nodes] is [null], and
    one that holds an array.  An import whose only root is a waypoint
    leaves a root that [removeWaypoint] deletes. *)
Lemma import_empty_no_root :
  let roots := option_map (fun st => rootCount (nodes st)) in
  let bend := Node.mk "root" "waypoint" (Position.mk 0 0) NodeData.empty in
  let bent := mkSnapshot (Some [bend])
                (Some [arrowEdge "a" "A" "root"; arrowEdge "b" "root" "B"]) None in
  rootCount (nodes (step (EvImportJSON (mkSnapshot None None None)) initialState)) = 0
  /\ roots (importFile (Some (JObj [])) initialState) = Some 0
  /\ roots (importFile (Some (JObj [("nodes", JArr [])])) initialState) = Some 0
  /\ roots (importFile (Some (JObj [("nodes", JNull)])) initialState) = Some 0
  /\ roots (importFile (Some (JArr [])) initialState) = Some 0
  /\ rootCount (nodes (step (EvImportJSON bent) initialState)) = 1
  /\ rootCount (nodes (play [EvImportJSON bent; EvRemoveWaypoint "j" "a"]
                         initialState)) = 0.
Proof. repeat split. Qed.

(** The nodes of the exam template are ['1'] to ['4']: none is ['root']. *)
Lemma exam_template_no_root (u1 u2 u3 u4 : Id) (st : State) :
  rootCount (nodes (applyTemplate u1 u2 u3 u4 "exam" st)) = 0
  /\ selectedId (applyTemplate u1 u2 u3 u4 "exam" st) = Some "1".
Proof. split; reflexivity. Qed.

(** C1 (amended). From the initial state, under every sequence of gestures
    (node and edge creation, both deletions, the waypoint operations, the
    research and planner templates, edits, collapse, auto-arrange, and the
    import of a node list that has exactly one node of id ['root'], of a
    type other than ['waypoint']) with generated uuids other than ['root'],
    exactly one node has the id ['root'].  Left out are the exam template
    and the import of any other node list. *)
Theorem root_kept (evs : list Event) (Hevs : forallb keepsRoot evs = true) :
  rootCount (nodes (play evs initialState)) = 1.
Proof.
  assert (Hgen : forall st, rootOk (nodes st) -> rootOk (nodes (play evs st))).
  { induction evs as [|ev evs IH]; intros st Hok; [exact Hok|].
    simpl in Hevs. apply andb_prop in Hevs. destruct Hevs as [Hev Hrest].
    simpl. apply (IH Hrest). now apply rootOk_step. }
  apply (Hgen initialState rootOk_initial).
Qed.

Lemma root_kept_witness :
  rootCount (nodes (play [EvAddChild "A" "e1" 0 "Math";
                          EvSelectTool "informational";
                          EvConnect "u0" "w" "ea" "eb" 0 0 "root" "A";
                          EvRemoveWaypoint "j" "ea";
                          EvApplyTemplate "p" "q" "r" "s" "planner";
                          EvKeyDelete; EvDeleteSelected;
                          EvImportJSON
                            (mkSnapshot
                               (Some [templateNode "root" 0 0 "Plan" "Default"
                                        SUBJECTS_Default;
                                      templateNode "n" 0 200 "Notes" "Math"
                                        "#4f83cc"])
                               (Some [arrowEdge "e" "root" "n"]) None);
                          EvSelectionChange
                            [templateNode "n" 0 200 "Notes" "Math" "#4f83cc"] [];
                          EvDeleteSelected] initialState)) = 1.
Proof.
  apply root_kept. reflexivity.
Defined.

(* ------------------------------------------------------------------ *)
(** ** The JSON snapshot *)

Lemma lookup_absent (name : string) (l : list (string * option json)) :
  existsb (fun p => String.eqb name (fst p)) l = false -> lookup name l = None.
Proof.
  induction l as [|[k v] l IH]; [reflexivity|]. simpl. intros H.
  apply orb_false_elim in H. destruct H as [Hk Hl].
  rewrite Hk. now apply IH.
Qed.

(** Reading a property of a written object literal. *)
Lemma get_present (name : string) (l : list (string * option json)) :
  distinct_keys l = true -> get name (present l) = lookup name l.
Proof.
  induction l as [|[k v] l IH]; [reflexivity|]. simpl. intros H.
  apply andb_prop in H. destruct H as [Hk Hl]. apply negb_true_iff in Hk.
  destruct v as [j|]; simpl.
  - destruct (String.eqb name k); [reflexivity | now apply IH].
  - rewrite (IH Hl). destruct (String.eqb name k) eqn:Hn; [|reflexivity].
    apply String.eqb_eq in Hn. subst name. now apply lookup_absent.
Qed.

Lemma existsb_present (k : string) (l : list (string * option json)) :
  existsb (fun p => String.eqb k (fst p)) l = false ->
  existsb (fun p => String.eqb k (fst p)) (present l) = false.
Proof.
  induction l as [|[k' v] l IH]; [reflexivity|]. simpl. intros H.
  apply orb_false_elim in H. destruct H as [Hk Hl].
  destruct v as [j|]; simpl; [rewrite Hk|]; now apply IH.
Qed.

Lemma distinct_keys_present (l : list (string * option json)) :
  distinct_keys l = true -> distinct_keys (present l) = true.
Proof.
  induction l as [|[k v] l IH]; [reflexivity|]. simpl. intros H.
  apply andb_prop in H. destruct H as [Hk Hl]. apply negb_true_iff in Hk.
  destruct v as [j|]; simpl; [|now apply IH].
  rewrite (existsb_present _ _ Hk). now apply IH.
Qed.

Lemma only_keys_present (known : list string) (l : list (string * option json)) :
  only_keys known l = true -> only_keys known (present l) = true.
Proof.
  unfold only_keys. induction l as [|[k v] l IH]; [reflexivity|]. simpl. intros H.
  apply andb_prop in H. destruct H as [Hk Hl].
  destruct v as [j|]; simpl; [rewrite Hk|]; now apply IH.
Qed.

(** A written object literal has the properties of its record only. *)
Lemma as_props_present (known : list string) (l : list (string * option json)) :
  only_keys known l = true -> distinct_keys l = true ->
  as_props known (JObj (present l)) = Some (present l).
Proof.
  intros Hk Hd. unfold as_props.
  now rewrite only_keys_present, distinct_keys_present.
Qed.

Lemma field_present {A : Type} (read : json -> option A) (name : string)
  (l : list (string * option json)) (j : json) (a : A) :
  distinct_keys l = true -> lookup name l = Some j -> read j = Some a ->
  field read name (present l) = Some a.
Proof.
  intros Hd Hl Hr. unfold field. now rewrite get_present, Hl.
Qed.

Lemma field_opt_lookup {A : Type} (read : json -> option A) (name : string)
  (l : list (string * option json)) :
  distinct_keys l = true ->
  field_opt read name (present l)
  = match lookup name l with
    | None => Some None
    | Some j => a <- read j ;; Some (Some a)
    end.
Proof.
  intros Hd. unfold field_opt. now rewrite get_present.
Qed.

Lemma field_opt_present {A : Type} (read : json -> option A) (name : string)
  (l : list (string * option json)) (f : A -> json) (v : option A) :
  distinct_keys l = true -> lookup name l = option_map f v ->
  (forall a, read (f a) = Some a) ->
  field_opt read name (present l) = Some v.
Proof.
  intros Hd Hl Hr. rewrite field_opt_lookup, Hl by assumption.
  destruct v as [a|]; simpl; [now rewrite Hr | reflexivity].
Qed.

#[local] Arguments as_array : simpl never.

Lemma all_some_map {A B : Type} (read : json -> option B) (f : A -> json)
  (g : A -> B) (l : list A) :
  (forall a, read (f a) = Some (g a)) ->
  all_some (map read (map f l)) = Some (map g l).
Proof.
  intros Hr. induction l as [|a l IH]; [reflexivity|].
  simpl. now rewrite Hr, IH.
Qed.

Lemma as_array_map {A B : Type} (read : json -> option B) (f : A -> json)
  (g : A -> B) (l : list A) :
  (forall a, read (f a) = Some (g a)) ->
  as_array read (JArr (map f l)) = Some (map g l).
Proof. intros Hr. unfold as_array. now apply all_some_map. Qed.

Ltac read_fields :=
  repeat first
    [ erewrite field_opt_present;
      [ | reflexivity | reflexivity | solve [intros; cbv beta; (reflexivity || auto)] ]
    | erewrite field_present;
      [ | reflexivity | reflexivity | solve [reflexivity | auto] ] ];
  cbn [bind].

Lemma position_roundtrip (p : Position.t) : position_of_json (position_json p) = Some p.
Proof. now destruct p. Qed.

(** The data of a node come back with the colour as [JSON] carries it. *)
Lemma data_roundtrip (d : NodeData.t) :
  data_of_json (data_json d) = Some (dataAfterJSON d).
Proof.
  unfold data_of_json, data_json.
  rewrite as_props_present by reflexivity. cbn [bind].
  rewrite !field_opt_lookup by reflexivity.
  destruct d as [l s c k]. unfold dataAfterJSON. cbn.
  destruct l, s, k; destruct c as [[x|f| |]|]; reflexivity.
Qed.

Lemma node_roundtrip (n : Node.t) : node_of_json (node_json n) = Some (nodeAfterJSON n).
Proof.
  unfold node_of_json, node_json, field. simpl.
  rewrite data_roundtrip. simpl. destruct n as [i t [px py] d]. reflexivity.
Qed.

(** A node whose colour is a string, a plain object or missing comes back
    as it is. *)
Lemma nodeAfterJSON_plain (n : Node.t) : plainColor n = true -> nodeAfterJSON n = n.
Proof.
  destruct n as [i t pos [l s c k]]. unfold plainColor, nodeAfterJSON, dataAfterJSON.
  simpl. destruct c as [[x|f| |]|]; intros H; try discriminate H; reflexivity.
Qed.

Lemma style_roundtrip (s : Style.t) : style_of_json (style_json s) = Some s.
Proof.
  unfold style_of_json, style_json.
  rewrite as_props_present by reflexivity. cbn [bind]. read_fields. now destruct s.
Qed.

Lemma marker_roundtrip (m : Marker.t) : marker_of_json (marker_json m) = Some m.
Proof. now destruct m. Qed.

Lemma fill_roundtrip (f : Fill.t) : fill_of_json (fill_json f) = Some f.
Proof. now destruct f. Qed.

Lemma padding_roundtrip (l : list Q) :
  as_array as_num (JArr (map JNum l)) = Some l.
Proof.
  rewrite <- (map_id l) at 2. now apply as_array_map.
Qed.

Lemma edge_roundtrip (e : Edge.t) : edge_of_json (edge_json e) = Some e.
Proof.
  pose proof style_roundtrip. pose proof marker_roundtrip.
  pose proof fill_roundtrip. pose proof padding_roundtrip.
  unfold edge_of_json, edge_json.
  rewrite as_props_present by reflexivity. cbn [bind]. read_fields. now destruct e.
Qed.

(** What is written for a node that has been written and read is what
    was written for the node. *)
Lemma node_json_after (n : Node.t) : node_json (nodeAfterJSON n) = node_json n.
Proof.
  destruct n as [i t pos [l s c k]]. unfold node_json, nodeAfterJSON, data_json.
  simpl. now destruct c as [[x|f| |]|].
Qed.

(** What is written determines an edge, and a node up to a colour that is
    not a string. *)
Lemma edge_json_injective (e e' : Edge.t) : edge_json e = edge_json e' -> e = e'.
Proof.
  intros H. apply (f_equal edge_of_json) in H.
  rewrite !edge_roundtrip in H. congruence.
Qed.

Lemma node_json_injective (n n' : Node.t) :
  node_json n = node_json n' -> nodeAfterJSON n = nodeAfterJSON n'.
Proof.
  intros H. apply (f_equal node_of_json) in H.
  rewrite !node_roundtrip in H. congruence.
Qed.

(** What [importJSON] makes of the text written by [exportJSON]. *)
Lemma importFile_exportJSON (st st0 : State) :
  importFile (Some (exportJSON st)) st0
  = Some (importJSON (mkSnapshot (Some (map nodeAfterJSON (nodes st)))
                                 (Some (edges st))
                                 (Some (JSSet.to_list (collapsed st)))) st0).
Proof.
  unfold importFile, exportJSON, list_property, collapsed_property.
  cbn [distinct_keys existsb fst negb andb orb get truthy_json].
  simpl.
  rewrite (as_array_map node_of_json node_json nodeAfterJSON _ node_roundtrip).
  rewrite (as_array_map edge_of_json edge_json (fun e => e) _ edge_roundtrip).
  rewrite (all_some_map as_string JStr (fun v => v)) by reflexivity.
  rewrite !map_id. reflexivity.
Qed.

(** A state that the editor reaches and whose export does not come back:
    a file brings a node of subject ['constructor']; with that node
    selected the Add Child button calls [addChild('constructor')], and
    [SUBJECTS['constructor']] is a function, which [JSON.stringify] leaves
    out.  Likewise a coordinate that is not finite, as the informational
    tool computes between two nodes at the largest binary64 abscissa, is
    written [null], which is not a number when read. *)
Lemma export_import_not_lossless :
  let file :=
    JObj [("nodes",
           JArr [JObj [("id", JStr "n"); ("type", JStr "study");
                       ("position", JObj [("x", JNum 0); ("y", JNum 0)]);
                       ("data", JObj [("label", JStr "Notes");
                                      ("subject", JStr "constructor")])]])] in
  let n := Node.mk "n" "study" (Position.mk 0 0)
             (NodeData.mk (Some "Notes") (Some "constructor") None None) in
  let st := play [EvSelectionChange [n] []; EvAddChild "c" "e" 0 "constructor"]
              (importJSON (mkSnapshot (Some [n]) None None) initialState) in
  importFile (Some file) initialState
  = Some (importJSON (mkSnapshot (Some [n]) None None) initialState)
  /\ option_map (fun m => NodeData.subject (Node.data m))
       (selectedNode (onSelectionChange [n] []
          (importJSON (mkSnapshot (Some [n]) None None) initialState)))
     = Some (Some "constructor")
  /\ map (fun m => NodeData.color (Node.data m)) (nodes st)
     = [None; Some (ColorFunction "constructor")]
  /\ NoDup (collapsed st)
  /\ (exists st',
        importFile (Some (exportJSON st)) st = Some st'
        /\ map (fun m => NodeData.color (Node.data m)) (nodes st') = [None; None]
        /\ nodes st' <> nodes st)
  /\ (let far := (0x1.fffffffffffffp+1023, 0)%float in
      let wp := midpoint Binary64 far far in
      toQ (fst far) <> None
      /\ number_json64 (fst wp) = JNull
      /\ position_of_json (JObj [("x", number_json64 (fst wp));
                                 ("y", number_json64 (snd wp))]) = None).
Proof.
  intros file n st.
  split; [reflexivity|]. split; [reflexivity|]. split; [reflexivity|].
  split; [constructor|]. split.
  - eexists. split; [apply importFile_exportJSON|].
    split; [reflexivity | discriminate].
  - split; [vm_compute; discriminate|]. split; vm_compute; reflexivity.
Qed.

(** C9 (amended). Writing the graph with [exportJSON] and reading the
    result with [importJSON], into whatever state, gives back the same
    edges with their attributes, the same collapsed set ([collapsed] being
    a set: no duplicates), and the nodes in the same order with the same
    ids, types, positions, labels, subjects and collapsed flags; a colour
    comes back as it is when it is a string, is lost when it is a
    function, and comes back as an empty object when it is an object.  So
    the nodes come back as they are when no colour is a function or the
    prototype object.  The cells other than the three are not touched. *)
Theorem export_import_roundtrip (st st0 : State) (Hset : NoDup (collapsed st)) :
  exists st',
    importFile (Some (exportJSON st)) st0 = Some st'
    /\ edges st' = edges st
    /\ collapsed st' = collapsed st
    /\ nodes st' = map nodeAfterJSON (nodes st)
    /\ Forall2 (fun m m' =>
                  Node.id m' = Node.id m /\ Node.type m' = Node.type m
                  /\ Node.position m' = Node.position m
                  /\ NodeData.label (Node.data m') = NodeData.label (Node.data m)
                  /\ NodeData.subject (Node.data m') = NodeData.subject (Node.data m)
                  /\ NodeData.collapsed (Node.data m')
                     = NodeData.collapsed (Node.data m)
                  /\ NodeData.color (Node.data m')
                     = match NodeData.color (Node.data m) with
                       | Some (ColorString s) => Some (ColorString s)
                       | Some (ColorFunction _) | None => None
                       | Some ColorPrototype | Some ColorPlainObject =>
                           Some ColorPlainObject
                       end)
         (nodes st) (nodes st')
    /\ (forallb plainColor (nodes st) = true -> nodes st' = nodes st)
    /\ exportJSON st' = exportJSON st
    /\ (forall m m', plainColor m = true -> plainColor m' = true ->
                     node_json m = node_json m' -> m = m')
    /\ (forall e e', edge_json e = edge_json e' -> e = e')
    /\ selectedId st' = selectedId st0
    /\ selectedEdgeId st' = selectedEdgeId st0
    /\ currentTool st' = currentTool st0.
Proof.
  eexists. split; [apply importFile_exportJSON|].
  unfold importJSON. simpl.
  split; [reflexivity|]. split; [now apply of_list_to_list|].
  split; [reflexivity|].
  split; [|split; [|split; [|split; [|split; [|repeat split]]]]].
  - induction (nodes st) as [|m l IH]; constructor; [|exact IH].
    destruct m as [i t pos [lb sb c k]]. simpl.
    repeat split; now destruct c as [[x|f| |]|].
  - intros Hplain. rewrite forallb_forall in Hplain.
    rewrite <- (map_id (nodes st)) at 2. apply map_ext_in.
    intros m Hm. now apply nodeAfterJSON_plain, Hplain.
  - unfold exportJSON. simpl. rewrite map_map.
    rewrite (map_ext _ _ node_json_after).
    now rewrite (of_list_to_list _ Hset).
  - intros m m' Hm Hm' H. apply node_json_injective in H.
    now rewrite !nodeAfterJSON_plain in H.
  - exact edge_json_injective.
Qed.

(** The three graphs of the specification: empty, single root, and a
    graph with a waypoint-bent edge and a collapsed node. *)
Lemma export_import_examples :
  let empty := importJSON (mkSnapshot None None None) initialState in
  let bent := play [EvAddChild "A" "e1" 0 "Math";
                    EvEdgeDoubleClick "w" "a" "b" "e1" (Position.mk 300 40);
                    EvToggleCollapse "A"] initialState in
  (nodes empty = [] /\ edges empty = [] /\ collapsed empty = [])
  /\ List.length (nodes bent) = 3 /\ List.length (edges bent) = 2
  /\ collapsed bent = ["A"]
  /\ (forall st0,
        option_map nodes (importFile (Some (exportJSON empty)) st0) = Some []
        /\ option_map nodes (importFile (Some (exportJSON initialState)) st0)
           = Some [rootNode]
        /\ option_map nodes (importFile (Some (exportJSON bent)) st0)
           = Some (nodes bent)
        /\ option_map edges (importFile (Some (exportJSON bent)) st0)
           = Some (edges bent)
        /\ option_map collapsed (importFile (Some (exportJSON bent)) st0)
           = Some ["A"]).
Proof.
  intros empty bent. repeat split; reflexivity.
Qed.

Lemma export_import_roundtrip_witness :
  let bent := play [EvAddChild "A" "e1" 0 "Math";
                    EvEdgeDoubleClick "w" "a" "b" "e1" (Position.mk 300 40);
                    EvToggleCollapse "A"] initialState in
  NoDup (collapsed bent)
  /\ exists st',
       importFile (Some (exportJSON bent)) initialState = Some st'
       /\ edges st' = edges bent
       /\ collapsed st' = collapsed bent
       /\ nodes st' = map nodeAfterJSON (nodes bent).
Proof.
  intros bent.
  assert (Hset : NoDup (collapsed bent)).
  { change (collapsed bent) with ["A"]. constructor; [intros [] | constructor]. }
  split; [exact Hset|].
  destruct (export_import_roundtrip bent initialState Hset)
    as [st' [Himp [He [Hc [Hn _]]]]].
  exists st'. repeat split; assumption.
Defined.


(* ------------------------------------------------------------------ *)
(** ** Split then remove, where the search meets the inserted waypoint *)

Lemma find_app_split {A : Type} (p : A -> bool) (l l' : list A) :
  find p (l ++ l') = match find p l with Some a => Some a | None => find p l' end.
Proof.
  induction l as [|a l IH]; [reflexivity|]. simpl. now destruct (p a).
Qed.

Lemma find_all_false {A : Type} (p : A -> bool) (l : list A) :
  (forall a, In a l -> p a = false) -> find p l = None.
Proof.
  intros H. induction l as [|a l IH]; [reflexivity|]. simpl.
  rewrite (H a (or_introl eq_refl)). apply IH. intros b Hb. apply H. now right.
Qed.

Lemma filter_all_true {A : Type} (p : A -> bool) (l : list A) :
  (forall a, In a l -> p a = true) -> filter p l = l.
Proof.
  intros H. induction l as [|a l IH]; [reflexivity|]. simpl.
  rewrite (H a (or_introl eq_refl)). f_equal. apply IH. intros b Hb. apply H. now right.
Qed.

Lemma existsb_all_false {A : Type} (p : A -> bool) (l : list A) :
  (forall a, In a l -> p a = false) -> existsb p l = false.
Proof.
  intros H. induction l as [|a l IH]; [reflexivity|]. simpl.
  rewrite (H a (or_introl eq_refl)). apply IH. intros b Hb. apply H. now right.
Qed.

Lemma eqb_pair_false (a b c d : string) :
  (a = b -> c = d -> False) -> String.eqb a b && String.eqb c d = false.
Proof.
  intros H. destruct (String.eqb a b) eqn:Hab; [|reflexivity].
  destruct (String.eqb c d) eqn:Hcd; [|reflexivity].
  apply String.eqb_eq in Hab, Hcd. now destruct (H Hab Hcd).
Qed.

Section SplitRemove.

Variables (uw ua ub u edgeId : Id) (st : State) (e : Edge.t).

(** The edge to split. *)
Hypothesis Hedge : find_edge edgeId (edges st) = Some e.
(** The generated ids are new. *)
Hypothesis Hnode_fresh : forall n, In n (nodes st) -> Node.id n <> uw.
Hypothesis Hedge_fresh : forall x, In x (edges st) ->
  Edge.source x <> uw /\ Edge.target x <> uw /\ Edge.id x <> ua /\ Edge.id x <> ub.
Hypothesis Hsegs : ua <> ub.
(** No waypoint already in the graph is an end of [e], the target of an
    edge that leaves the source of [e], or the source of an edge that
    enters the target of [e]. *)
Hypothesis Hclear : forall n, In n (nodes st) -> Node.type n = "waypoint" ->
  Node.id n <> Edge.source e /\ Node.id n <> Edge.target e
  /\ (forall x, In x (edges st) ->
        ~ (Edge.source x = Edge.source e /\ Edge.target x = Node.id n))
  /\ (forall x, In x (edges st) ->
        ~ (Edge.source x = Node.id n /\ Edge.target x = Edge.target e)).

Local Abbreviation others :=
  (filter (fun x => negb (String.eqb (Edge.id x) edgeId)) (edges st)).
Local Abbreviation segA :=
  (Edge.mk ua (Edge.source e) uw (Edge.type e) (Edge.label e)
     (Edge.style e) (Edge.markerEnd e) (Edge.markerStart e)
     None None None None).
Local Abbreviation segB :=
  (Edge.mk ub uw (Edge.target e) (Edge.type e) (Edge.label e)
     (Edge.style e) (Edge.markerEnd e) (Edge.markerStart e)
     None None None None).
Local Abbreviation st1 := (splitEdgeToWaypoint uw ua ub edgeId st).

Lemma split_state :
  exists wpn : Node.t,
    Node.id wpn = uw /\ Node.type wpn = "waypoint"
    /\ nodes st1 = nodes st ++ [wpn]
    /\ edges st1 = others ++ [segA; segB].
Proof.
  unfold splitEdgeToWaypoint. rewrite Hedge.
  exists (Node.mk uw "waypoint"
            (splitMid (find_node (Edge.source e) (nodes st))
                      (find_node (Edge.target e) (nodes st)))
            NodeData.empty).
  split; [|split; [|split]]; reflexivity.
Qed.

Lemma others_in (x : Edge.t) : In x others -> In x (edges st).
Proof. intros H. now apply filter_In in H. Qed.

Lemma edge_in : In e (edges st).
Proof. unfold find_edge in Hedge. now apply find_some in Hedge. Qed.

Lemma find_segment (seg : Id) :
  seg = ua \/ seg = ub ->
  exists sg, find_edge seg (edges st1) = Some sg /\ (sg = segA \/ sg = segB).
Proof.
  intros Hseg. destruct split_state as (wpn & _ & _ & _ & ->).
  unfold find_edge. rewrite find_app_split, find_all_false.
  - simpl. destruct Hseg as [-> | ->].
    + rewrite String.eqb_refl. eauto.
    + destruct (String.eqb ua ub); [|rewrite String.eqb_refl]; eauto.
  - intros x Hx. apply others_in, Hedge_fresh in Hx.
    apply String.eqb_neq. destruct Hseg as [-> | ->]; tauto.
Qed.

(** The search of [removeWaypoint] passes every node of the graph. *)
Lemma search_skips (sg : Edge.t) (n : Node.t) :
  sg = segA \/ sg = segB -> In n (nodes st) ->
  waypointFor (others ++ [segA; segB]) sg n = false.
Proof.
  intros Hsg Hn. unfold waypointFor.
  destruct (String.eqb (Node.type n) "waypoint") eqn:Hty; [|reflexivity].
  apply String.eqb_eq in Hty. simpl.
  destruct (Hclear n Hn Hty) as (Hs & Ht & Hout & Hin).
  pose proof (Hnode_fresh n Hn) as Hfresh.
  destruct (Hedge_fresh e edge_in) as (Hes & Het & _).
  rewrite !existsb_app. simpl. rewrite !orb_false_r.
  destruct Hsg as [-> | ->]; simpl;
    rewrite (existsb_all_false _ others), (existsb_all_false _ others);
    try (simpl; rewrite !eqb_pair_false; [reflexivity | | | |]; congruence);
    intros;
    match goal with
    | Hy : In ?y others |- _ =>
        apply others_in in Hy; apply eqb_pair_false; intros H1 H2;
        first [ destruct (Hedge_fresh y Hy) as (? & ? & ? & ?); congruence
              | apply (Hout y Hy); now split
              | apply (Hin y Hy); now split ]
    end.
Qed.

(** ... and stops at the inserted waypoint. *)
Lemma search_finds (sg : Edge.t) :
  sg = segA \/ sg = segB ->
  exists wpn : Node.t,
    Node.id wpn = uw /\ nodes st1 = nodes st ++ [wpn]
    /\ find (waypointFor (edges st1) sg) (nodes st1) = Some wpn.
Proof.
  intros Hsg. destruct split_state as (wpn & Hid & Hty & Hn & He).
  exists wpn. split; [assumption|]. split; [assumption|].
  rewrite Hn, He, find_app_split, find_all_false.
  - simpl. unfold waypointFor. rewrite Hty, Hid, !existsb_app. simpl.
    destruct Hsg as [-> | ->]; simpl; rewrite !String.eqb_refl; simpl;
      rewrite ?orb_true_r; reflexivity.
  - intros n Hin. now apply search_skips.
Qed.

(** Under the hypotheses above, [splitEdgeToWaypoint] followed by
    [removeWaypoint] on either segment gives back the nodes, and the edges
    with [e] replaced by one edge with the source, target, type, label,
    style and end marker of [e] (and no start marker). *)
Lemma split_remove_roundtrip (seg : Id) :
  seg = ua \/ seg = ub ->
  nodes (removeWaypoint u seg st1) = nodes st
  /\ edges (removeWaypoint u seg st1)
     = others ++ [Edge.mk u (Edge.source e) (Edge.target e) (Edge.type e)
                    (Edge.label e) (Edge.style e) (Edge.markerEnd e) None
                    None None None None].
Proof.
  intros Hseg. destruct (find_segment seg Hseg) as (sg & Hfind & Hsg).
  destruct (search_finds sg Hsg) as (wpn & Hid & Hn & Hwp).
  destruct split_state as (_ & _ & _ & _ & He).
  destruct (Hedge_fresh e edge_in) as (Hes & Het & _).
  unfold removeWaypoint. rewrite Hfind, Hwp. simpl. rewrite Hn, He, Hid. split.
  - rewrite filter_app. simpl. rewrite Hid, String.eqb_refl. simpl.
    rewrite app_nil_r. apply filter_all_true.
    intros n Hin. apply negb_true_iff, String.eqb_neq. now apply Hnode_fresh.
  - rewrite !find_app_split, (find_all_false _ others), (find_all_false _ others).
    + simpl. rewrite String.eqb_refl.
      replace (String.eqb (Edge.source e) uw) with false
        by (symmetry; now apply String.eqb_neq).
      f_equal. rewrite filter_app. simpl.
      rewrite !String.eqb_refl. simpl. rewrite andb_false_r, app_nil_r.
      apply filter_all_true.
      intros x Hx. apply others_in, Hedge_fresh in Hx.
      apply andb_true_iff. split; apply negb_true_iff, String.eqb_neq; tauto.
    + intros x Hx. apply others_in, Hedge_fresh in Hx.
      apply String.eqb_neq. tauto.
    + intros x Hx. apply others_in, Hedge_fresh in Hx.
      apply String.eqb_neq. tauto.
Qed.

End SplitRemove.

(* ------------------------------------------------------------------ *)
(** ** The collapsed set is a set *)

Lemma delete_NoDup (s : JSSet.t) (v : Id) : NoDup s -> NoDup (JSSet.delete s v).
Proof. intros H. unfold JSSet.delete. now apply NoDup_filter. Qed.

Lemma of_list_NoDup (l : list Id) : NoDup (JSSet.of_list l).
Proof. unfold JSSet.of_list. apply fold_add_NoDup. constructor. Qed.

Lemma collapsed_step (ev : Event) (st : State) :
  NoDup (collapsed st) -> NoDup (collapsed (step ev st)).
Proof.
  intros H. destruct ev; simpl; try exact H.
  - (* onToggleCollapse *)
    destruct (JSSet.has (collapsed st) v); [now apply delete_NoDup | now apply add_NoDup].
  - unfold onPaneClick. repeat match goal with
      | |- context [if ?b then _ else _] => destruct b end; exact H.
  - unfold onConnect. repeat match goal with
      | |- context [if ?b then _ else _] => destruct b end; exact H.
  - unfold onSelectionChange. destruct sel_nodes; [destruct sel_edges|]; exact H.
  - unfold onKeyDelete. repeat match goal with
      | |- context [if ?b then _ else _] => destruct b end; exact H.
  - unfold addChild. destruct (selectedNode st); [exact H|].
    destruct (hd_error (nodes st)); exact H.
  - unfold deleteSelected. destruct (selectedNode st) as [n|]; [|exact H].
    destruct (String.eqb (Node.id n) "root"); exact H.
  - unfold splitEdgeToWaypoint. destruct (find_edge edgeId (edges st)); exact H.
  - unfold onEdgeClick. destruct (String.eqb (currentTool st) "waypoint"); exact H.
  - unfold removeWaypoint. destruct (find_edge edgeId (edges st)) as [e|]; [|exact H].
    destruct (find (waypointFor (edges st) e) (nodes st)); exact H.
  - unfold selectTool. repeat match goal with
      | |- context [if ?b then _ else _] => destruct b end; exact H.
  - unfold applyTemplate. repeat match goal with
      | |- context [if ?b then _ else _] => destruct b end;
      try exact H; apply of_list_NoDup.
  - apply of_list_NoDup.
Qed.

(** In every state the editor reaches, [collapsed] has no duplicate. *)
Lemma collapsed_is_set (evs : list Event) : NoDup (collapsed (play evs initialState)).
Proof.
  assert (Hgen : forall st, NoDup (collapsed st) -> NoDup (collapsed (play evs st))).
  { induction evs as [|ev evs IH]; intros st H; [exact H|].
    simpl. apply IH. now apply collapsed_step. }
  apply Hgen. constructor.
Qed.

(* ================================================================== *)
(** * Further properties of the editor *)

(* ------------------------------------------------------------------ *)
(** ** What the visibility traversal returns *)

(** X1. The set returned by [computeHiddenTargets] holds exactly the ids
    reached from a collapsed id along one or more edges, each once. *)
Theorem hidden_iff_descendant (C : JSSet.t) (E : list Edge.t) :
  NoDup (computeHiddenTargets C E)
  /\ forall x : Id,
       In x (computeHiddenTargets C E)
       <-> exists c, In c C /\ reach E c x.
Proof.
  split; [apply computeHiddenTargets_NoDup|].
  intros x. apply computeHiddenTargets_spec.
Qed.

Lemma reach_incl (E E' : list Edge.t) (a b : Id) :
  incl E E' -> reach E a b -> reach E' a b.
Proof.
  intros Hincl H. induction H as [e He | a e H IH He].
  - apply reach_edge. now apply Hincl.
  - apply reach_step; [assumption | now apply Hincl].
Qed.

(** X2. Collapsing more nodes or adding edges never un-hides a node. *)
Theorem hidden_monotone (C C' : JSSet.t) (E E' : list Edge.t)
  (HC : incl C C') (HE : incl E E') :
  incl (computeHiddenTargets C E) (computeHiddenTargets C' E').
Proof.
  intros x Hx. apply computeHiddenTargets_spec in Hx.
  destruct Hx as (c & Hc & Hreach).
  apply computeHiddenTargets_spec. exists c. split; [now apply HC|].
  now apply reach_incl with E.
Qed.

Lemma hidden_monotone_witness :
  incl (computeHiddenTargets ["A"] [arrowEdge "e1" "A" "B"])
       (computeHiddenTargets ["A"; "C"]
          [arrowEdge "e0" "C" "D"; arrowEdge "e1" "A" "B"]).
Proof.
  apply hidden_monotone.
  - intros x [<- | []]. now left.
  - intros x [<- | []]. right. now left.
Defined.

Lemma reach_target (E : list Edge.t) (a b : Id) :
  reach E a b -> exists e, In e E /\ Edge.target e = b.
Proof.
  intros H. destruct H as [e He | a e _ He]; exists e; auto.
Qed.

Lemma no_member_nil {A : Type} (l : list A) : (forall x, ~ In x l) -> l = [].
Proof.
  destruct l as [|a l]; [reflexivity|]. intros H. destruct (H a). now left.
Qed.

(** X3. Every hidden id is the target of an edge, so ids of the collapse
    set that no edge leaves hide nothing; with no collapsed id, or with no
    edge, nothing is hidden. *)
Theorem hidden_edge_cases (C : JSSet.t) (E : list Edge.t) :
  (forall x, In x (computeHiddenTargets C E) ->
             exists e, In e E /\ Edge.target e = x)
  /\ computeHiddenTargets [] E = []
  /\ computeHiddenTargets C [] = []
  /\ ((forall e, In e E -> ~ In (Edge.source e) C) ->
      computeHiddenTargets C E = []).
Proof.
  split; [|split; [|split]].
  - intros x Hx. apply computeHiddenTargets_spec in Hx.
    destruct Hx as (c & _ & Hreach). now apply reach_target with c.
  - apply no_member_nil. intros x Hx. apply computeHiddenTargets_spec in Hx.
    destruct Hx as (c & [] & _).
  - apply no_member_nil. intros x Hx. apply computeHiddenTargets_spec in Hx.
    destruct Hx as (c & _ & Hreach). apply reach_target in Hreach.
    destruct Hreach as (e & [] & _).
  - intros Hsrc. apply no_member_nil. intros x Hx.
    apply computeHiddenTargets_spec in Hx. destruct Hx as (c & Hc & Hreach).
    assert (Hfirst : forall a b, reach E a b -> exists e, In e E /\ Edge.source e = a).
    { intros a b H. induction H as [e He | a e H IH He]; [now exists e | exact IH]. }
    destruct (Hfirst c x Hreach) as (e & He & <-). now apply (Hsrc e He).
Qed.

Lemma hidden_edge_cases_witness :
  computeHiddenTargets ["ghost"] [arrowEdge "e1" "A" "B"] = [].
Proof.
  apply (hidden_edge_cases ["ghost"] [arrowEdge "e1" "A" "B"]).
  intros e [<- | []] [H | []]. discriminate.
Defined.

(* ------------------------------------------------------------------ *)
(** ** What is rendered *)

(** X4. A node is rendered exactly when it is not collapsed and no
    collapsed id reaches it. The source node of a rendered edge is
    rendered; its target node is rendered unless the target is itself
    collapsed. *)
Theorem rendered_nodes_and_edges (st : State) :
  (forall n : Node.t,
     In n (decoratedNodes st)
     <-> In n (nodes st)
         /\ ~ In (Node.id n) (collapsed st)
         /\ ~ exists c, In c (collapsed st) /\ reach (edges st) c (Node.id n))
  /\ (forall (e : Edge.t) (n : Node.t),
        In e (visibleEdges st) -> In n (nodes st) ->
        (Node.id n = Edge.source e -> In n (decoratedNodes st))
        /\ (Node.id n = Edge.target e ->
            In n (decoratedNodes st) \/ In (Edge.target e) (collapsed st))).
Proof.
  split.
  - intros n. rewrite decoratedNodes_spec. unfold hiddenTargets.
    rewrite computeHiddenTargets_spec. unfold descendant. tauto.
  - intros e n He Hn. unfold visibleEdges in He. apply filter_In in He.
    destruct He as [_ He]. rewrite !andb_true_iff, !negb_true_iff, !has_not_In in He.
    destruct He as [[Hs Ht] Hc]. split; intros Hid.
    + apply decoratedNodes_spec. rewrite Hid. auto.
    + destruct (JSSet.has (collapsed st) (Edge.target e)) eqn:Hcol.
      * right. now apply has_In.
      * left. apply decoratedNodes_spec. rewrite Hid.
        apply has_not_In in Hcol. auto.
Qed.

(** An edge into a collapsed leaf is rendered while its target is not. *)
Lemma edge_into_collapsed_leaf :
  let st := onToggleCollapse "A" (addChild "A" "e" 0 "Math" initialState) in
  map Edge.id (visibleEdges st) = ["e"]
  /\ map Node.id (decoratedNodes st) = ["root"].
Proof. split; reflexivity. Qed.

Lemma has_ext (s s' : JSSet.t) :
  (forall x, In x s <-> In x s') -> forall v, JSSet.has s v = JSSet.has s' v.
Proof.
  intros H v. destruct (JSSet.has s' v) eqn:Hv.
  - apply has_In. apply H. now apply has_In.
  - apply has_not_In. intros Hin. apply has_not_In in Hv. apply Hv. now apply H.
Qed.

Lemma toggle_twice_members (s : JSSet.t) (v x : Id) :
  let once := if JSSet.has s v then JSSet.delete s v else JSSet.add s v in
  In x (if JSSet.has once v then JSSet.delete once v else JSSet.add once v)
  <-> In x s.
Proof.
  simpl. destruct (JSSet.has s v) eqn:Hv.
  - assert (Hd : JSSet.has (JSSet.delete s v) v = false).
    { apply has_not_In. unfold JSSet.delete. intros H. apply filter_In in H.
      destruct H as [_ H]. now rewrite String.eqb_refl in H. }
    rewrite Hd, add_In. unfold JSSet.delete. rewrite filter_In.
    apply has_In in Hv. split.
    + intros [[H _] | ->]; assumption.
    + intros H. destruct (String.eqb x v) eqn:Hx.
      * right. now apply String.eqb_eq.
      * left. split; [assumption | reflexivity].
  - assert (Ha : JSSet.has (JSSet.add s v) v = true).
    { apply has_In. apply add_In. now right. }
    rewrite Ha. unfold JSSet.delete. rewrite filter_In, add_In.
    apply has_not_In in Hv. split.
    + intros [[H | ->] Hneq]; [assumption|].
      now rewrite String.eqb_refl in Hneq.
    + intros H. split; [now left|].
      apply negb_true_iff, String.eqb_neq. intros ->. contradiction.
Qed.

(** X5. Toggling the collapse of a node twice gives back a collapsed set
    with the same members (the same list when the node was not collapsed),
    and exactly the same rendered nodes and rendered edges. *)
Theorem toggle_twice (v : Id) (st : State) :
  (forall x, In x (collapsed (onToggleCollapse v (onToggleCollapse v st)))
             <-> In x (collapsed st))
  /\ (JSSet.has (collapsed st) v = false ->
      collapsed (onToggleCollapse v (onToggleCollapse v st)) = collapsed st)
  /\ decoratedNodes (onToggleCollapse v (onToggleCollapse v st)) = decoratedNodes st
  /\ visibleEdges (onToggleCollapse v (onToggleCollapse v st)) = visibleEdges st.
Proof.
  assert (Hmem : forall x, In x (collapsed (onToggleCollapse v (onToggleCollapse v st)))
                           <-> In x (collapsed st)).
  { intros x. apply (toggle_twice_members (collapsed st) v x). }
  assert (Hhid : forall x,
             In x (hiddenTargets (onToggleCollapse v (onToggleCollapse v st)))
             <-> In x (hiddenTargets st)).
  { intros x. unfold hiddenTargets. rewrite !computeHiddenTargets_spec.
    unfold descendant. simpl edges.
    split; intros (c & Hc & Hr); exists c; (split; [now apply Hmem | assumption]). }
  split; [exact Hmem|]. split; [|split].
  - intros Hv. simpl. rewrite Hv.
    assert (Ha : JSSet.has (JSSet.add (collapsed st) v) v = true)
      by (apply has_In, add_In; now right).
    rewrite Ha. unfold JSSet.add. rewrite Hv. unfold JSSet.delete.
    rewrite filter_app. simpl. rewrite String.eqb_refl. simpl. rewrite app_nil_r.
    apply filter_all_true. intros a Ha'. apply negb_true_iff, String.eqb_neq.
    intros ->. apply has_not_In in Hv. contradiction.
  - unfold decoratedNodes. simpl nodes. apply filter_ext. intros n.
    now rewrite (has_ext _ _ Hhid), (has_ext _ _ Hmem).
  - unfold visibleEdges. simpl edges. apply filter_ext. intros e.
    now rewrite !(has_ext _ _ Hhid), (has_ext _ _ Hmem).
Qed.

Lemma toggle_twice_witness :
  collapsed (onToggleCollapse "A" (onToggleCollapse "A" initialState))
  = collapsed initialState.
Proof.
  apply (toggle_twice "A" initialState). reflexivity.
Defined.

(* ------------------------------------------------------------------ *)
(** ** Adding and deleting nodes *)

(** X6. A child added to a selected node that is collapsed is hidden at
    once: it is appended to the node list, with an edge from its parent,
    and it is not rendered. *)
Theorem addChild_under_collapsed
  (u ue : Id) (r : Q) (subject : string) (st : State) (parent : Node.t)
  (Hsel : selectedNode st = Some parent)
  (Hcol : In (Node.id parent) (collapsed st)) :
  exists child : Node.t,
    Node.id child = u
    /\ nodes (addChild u ue r subject st) = nodes st ++ [child]
    /\ edges (addChild u ue r subject st)
       = edges st ++ [arrowEdge ue (Node.id parent) u]
    /\ selectedId (addChild u ue r subject st) = Some u
    /\ In u (hiddenTargets (addChild u ue r subject st))
    /\ ~ In child (decoratedNodes (addChild u ue r subject st)).
Proof.
  unfold addChild. rewrite Hsel.
  set (child := studyNode u
                  (Position.mk (Position.x (Node.position parent) + 200)
                               (Position.y (Node.position parent) + (r * 160 - 80)))
                  (subject ++ " Topic") subject (subject_color subject)).
  set (st' := setSelectedId (Some u)
                (setEdges (concat1 (arrowEdge ue (Node.id parent) u))
                   (setNodes (concat1 child) st))).
  exists child. split; [reflexivity|].
  split; [reflexivity|]. split; [reflexivity|]. split; [reflexivity|].
  assert (Hhid : In u (hiddenTargets st')).
  { unfold hiddenTargets. apply computeHiddenTargets_spec.
    exists (Node.id parent). split; [exact Hcol|].
    apply (reach_edge _ (arrowEdge ue (Node.id parent) u)).
    simpl. unfold concat1. apply in_or_app. right. now left. }
  split; [exact Hhid|].
  intros Hin. apply decoratedNodes_spec in Hin. destruct Hin as (_ & Hn & _).
  apply Hn. exact Hhid.
Qed.

Lemma addChild_under_collapsed_witness :
  In "B" (hiddenTargets (addChild "B" "e2" 0 "Math"
                           (onToggleCollapse "root" initialState))).
Proof.
  destruct (addChild_under_collapsed "B" "e2" 0 "Math"
              (onToggleCollapse "root" initialState) rootNode eq_refl
              (or_introl eq_refl)) as (child & _ & _ & _ & _ & H & _).
  exact H.
Defined.

(** X7. Deleting the selected node, when it is not the root, removes every
    node with its id and every edge at it, keeps all other nodes and edges,
    and selects the root. *)
Theorem deleteSelected_cascade (st : State) (sel : Node.t)
  (Hsel : selectedNode st = Some sel) (Hroot : Node.id sel <> "root") :
  (forall n, In n (nodes (deleteSelected st))
             <-> In n (nodes st) /\ Node.id n <> Node.id sel)
  /\ (forall e, In e (edges (deleteSelected st))
                <-> In e (edges st)
                    /\ Edge.source e <> Node.id sel /\ Edge.target e <> Node.id sel)
  /\ selectedId (deleteSelected st) = Some "root"
  /\ collapsed (deleteSelected st) = collapsed st.
Proof.
  unfold deleteSelected. rewrite Hsel.
  apply String.eqb_neq in Hroot. rewrite Hroot. simpl.
  split; [|split; [|split; reflexivity]].
  - intros n. rewrite filter_In, negb_true_iff, String.eqb_neq. tauto.
  - intros e. rewrite filter_In, andb_true_iff, !negb_true_iff, !String.eqb_neq. tauto.
Qed.

Lemma deleteSelected_cascade_witness :
  let st := addChild "A" "e" 0 "Math" initialState in
  selectedId (deleteSelected st) = Some "root"
  /\ edges (deleteSelected st) = [].
Proof.
  intros st.
  assert (Hne : "A" <> "root") by discriminate.
  destruct (deleteSelected_cascade st
              (studyNode "A" (Position.mk (250 + 200) (100 + (0 * 160 - 80)))
                 "Math Topic" "Math" (ColorString "#4f83cc")) eq_refl Hne) as (_ & _ & Hs & _).
  split; [exact Hs | reflexivity].
Defined.

(* ------------------------------------------------------------------ *)
(** ** The connection tools *)

(** X8. After a click on the one-way, two-way or dotted tool button, a
    connect gesture adds no node and exactly one edge from the source to
    the target with the style of the tool: an end arrow only for one-way
    and dotted, an arrow at both ends for two-way, a dashed stroke for
    dotted only. The ends are not checked: they may be equal or unknown. *)
Theorem tool_then_connect
  (tool : string) (u0 u1 u2 u3 : Id) (r1 r2 : Q) (source target : Id) (st : State)
  (Htool : tool = "one-way" \/ tool = "two-way" \/ tool = "dotted") :
  exists e : Edge.t,
    nodes (onConnect u0 u1 u2 u3 r1 r2 source target (selectTool tool st)) = nodes st
    /\ edges (onConnect u0 u1 u2 u3 r1 r2 source target (selectTool tool st))
       = edges st ++ [e]
    /\ Edge.id e = u0 /\ Edge.source e = source /\ Edge.target e = target
    /\ Edge.label e = or_undefined (connLabel st)
    /\ Edge.markerEnd e = Some ArrowClosed
    /\ Edge.markerStart e
       = (if String.eqb tool "two-way" then Some ArrowClosed else None)
    /\ option_map Style.strokeDasharray (Edge.style e)
       = Some (if String.eqb tool "dotted" then Some "6 6" else None).
Proof.
  destruct Htool as [-> | [-> | ->]]; eexists; repeat split.
Qed.

Lemma tool_then_connect_witness :
  List.length (edges (onConnect "u0" "u1" "u2" "u3" 0 0 "root" "root"
                        (selectTool "two-way" initialState))) = 1.
Proof.
  destruct (tool_then_connect "two-way" "u0" "u1" "u2" "u3" 0 0 "root" "root"
              initialState (or_intror (or_introl eq_refl))) as (e & _ & He & _).
  rewrite He. reflexivity.
Defined.



(* ------------------------------------------------------------------ *)
(** ** Edge rows *)

(** X10. The arrow select of an edge row shows what was last chosen in it:
    after choosing one-way, two-way or none for the edges with id [v], each
    of them displays that value; the edges with another id are the same
    as before, and there are as many edges. *)
Theorem arrow_select_roundtrip (v : Id) (value : string) (st : State)
  (Hvalue : value = "one-way" \/ value = "two-way" \/ value = "none") :
  List.length (edges (editEdgeArrow v value st)) = List.length (edges st)
  /\ (forall e, In e (edges (editEdgeArrow v value st)) -> Edge.id e = v ->
                arrowSelectValue e = value)
  /\ (forall e, In e (edges (editEdgeArrow v value st)) -> Edge.id e <> v ->
                In e (edges st))
  /\ nodes (editEdgeArrow v value st) = nodes st.
Proof.
  unfold editEdgeArrow, mapEdge. simpl.
  split; [apply length_map|]. split; [|split; [|reflexivity]].
  - intros e He Hid. apply in_map_iff in He. destruct He as (x & <- & _).
    destruct (String.eqb (Edge.id x) v) eqn:Hx.
    + destruct Hvalue as [-> | [-> | ->]]; reflexivity.
    + apply String.eqb_neq in Hx. contradiction.
  - intros e He Hid. apply in_map_iff in He. destruct He as (x & <- & Hx).
    destruct (String.eqb (Edge.id x) v) eqn:Hxv; [|exact Hx].
    apply String.eqb_eq in Hxv. contradiction.
Qed.

Lemma arrow_select_roundtrip_witness :
  let st := editEdgeArrow "e" "two-way" (addChild "A" "e" 0 "Math" initialState) in
  map arrowSelectValue (edges st) = ["two-way"]
  /\ List.length (edges st) = 1.
Proof.
  intros st. split; [reflexivity|].
  apply (arrow_select_roundtrip "e" "two-way" (addChild "A" "e" 0 "Math" initialState)).
  right. now left.
Defined.

(** The first segment made by [insertWaypointAt] from a two-way edge keeps
    the start arrow only, and its row displays "none". *)
Lemma first_segment_displays_none :
  let st := insertWaypointAt "w" "a" "b" "e" (Position.mk 0 0)
              (editEdgeArrow "e" "two-way" (addChild "A" "e" 0 "Math" initialState)) in
  map (fun e => (Edge.id e, Edge.markerStart e, arrowSelectValue e)) (edges st)
  = [("a", Some ArrowClosed, "none"); ("b", None, "one-way")].
Proof. reflexivity. Qed.

(* ------------------------------------------------------------------ *)
(** ** Import *)

(** X11. An import replaces nodes and edges by those of the payload (none
    when the property is missing) and the collapsed set by the ids of the
    payload without their repetitions; the selection and the tool settings
    stay as they were, so the selected id may name no node afterwards. *)
Theorem import_replaces (parsed : Snapshot) (st : State) :
  nodes (importJSON parsed st) = or_empty (snap_nodes parsed)
  /\ edges (importJSON parsed st) = or_empty (snap_edges parsed)
  /\ NoDup (collapsed (importJSON parsed st))
  /\ (forall x, In x (collapsed (importJSON parsed st))
                <-> In x (or_empty (snap_collapsed parsed)))
  /\ selectedId (importJSON parsed st) = selectedId st
  /\ selectedEdgeId (importJSON parsed st) = selectedEdgeId st
  /\ currentTool (importJSON parsed st) = currentTool st
  /\ (snap_nodes parsed = None -> selectedNode (importJSON parsed st) = None).
Proof.
  split; [reflexivity|]. split; [reflexivity|].
  split; [apply of_list_NoDup|]. split; [intros x; apply of_list_In|].
  split; [reflexivity|]. split; [reflexivity|]. split; [reflexivity|].
  intros H. unfold selectedNode. simpl. rewrite H. reflexivity.
Qed.

Lemma import_replaces_witness :
  selectedNode (importJSON (mkSnapshot None None (Some ["A"; "A"])) initialState) = None
  /\ collapsed (importJSON (mkSnapshot None None (Some ["A"; "A"])) initialState) = ["A"].
Proof.
  split; [|reflexivity].
  apply (import_replaces (mkSnapshot None None (Some ["A"; "A"])) initialState).
  reflexivity.
Defined.

(* ------------------------------------------------------------------ *)
(** ** What [removeWaypoint] may remove *)

Lemma distinctIds_NoDup (ids : list Id) : distinctIds ids = true <-> NoDup ids.
Proof.
  induction ids as [|v ids IH]; simpl.
  - split; [constructor | reflexivity].
  - rewrite andb_true_iff, negb_true_iff, IH. split.
    + intros [Hv Hnd]. constructor; [|assumption].
      change (JSSet.has ids v = false) in Hv. now apply has_not_In.
    + intros H. inversion H as [|? ? Hv Hnd]; subst. split; [|assumption].
      change (JSSet.has ids v = false). now apply has_not_In.
Qed.

Lemma same_id_same_node (nds : list Node.t) (n m : Node.t) :
  NoDup (map Node.id nds) -> In n nds -> In m nds -> Node.id n = Node.id m -> n = m.
Proof.
  induction nds as [|a nds IH]; intros Hnd Hn Hm Hid; [destruct Hn|].
  simpl in Hnd. inversion Hnd as [|? ? Ha Hrest]; subst.
  destruct Hn as [<- | Hn], Hm as [<- | Hm]; try reflexivity.
  - destruct Ha. rewrite Hid. now apply in_map.
  - destruct Ha. rewrite <- Hid. now apply in_map.
  - now apply IH.
Qed.

(** X12. When node ids are distinct, [removeWaypoint] removes at most one
    node, of type waypoint: every node of another type stays, every edge
    that goes is an edge at the removed waypoint, and at most one edge is
    added. *)
Theorem removeWaypoint_keeps_content (u edgeId : Id) (st : State)
  (Hids : distinctIds (map Node.id (nodes st)) = true) :
  (forall n, In n (nodes st) -> Node.type n <> "waypoint" ->
             In n (nodes (removeWaypoint u edgeId st)))
  /\ List.length (nodes st) <= S (List.length (nodes (removeWaypoint u edgeId st)))
  /\ (forall e, In e (edges st) -> ~ In e (edges (removeWaypoint u edgeId st)) ->
                exists w, In w (nodes st) /\ Node.type w = "waypoint"
                          /\ (Edge.source e = Node.id w \/ Edge.target e = Node.id w))
  /\ (forall e, In e (edges (removeWaypoint u edgeId st)) ->
                In e (edges st) \/ Edge.id e = u).
Proof.
  apply distinctIds_NoDup in Hids.
  unfold removeWaypoint.
  destruct (find_edge edgeId (edges st)) as [e0|].
  2:{ repeat split; auto. intros e He Hn. contradiction. }
  destruct (find (waypointFor (edges st) e0) (nodes st)) as [wp|] eqn:Hwp.
  2:{ repeat split; auto. intros e He Hn. contradiction. }
  apply find_some in Hwp. destruct Hwp as [Hin Hty].
  unfold waypointFor in Hty. apply andb_prop in Hty. destruct Hty as [Hty _].
  apply String.eqb_eq in Hty. simpl.
  assert (Hkeep : forall n, In n (nodes st) -> n <> wp ->
                            negb (String.eqb (Node.id n) (Node.id wp)) = true).
  { intros n Hn Hneq. apply negb_true_iff, String.eqb_neq. intros Hid.
    apply Hneq. now apply (same_id_same_node (nodes st)). }
  set (others := filter (fun x => negb (String.eqb (Edge.source x) (Node.id wp))
                                  && negb (String.eqb (Edge.target x) (Node.id wp)))
                   (edges st)).
  assert (Hothers : forall e, In e (edges st) -> ~ In e others ->
                              Edge.source e = Node.id wp \/ Edge.target e = Node.id wp).
  { intros e He Hn. destruct (String.eqb (Edge.source e) (Node.id wp)) eqn:Hs.
    - left. now apply String.eqb_eq.
    - destruct (String.eqb (Edge.target e) (Node.id wp)) eqn:Ht.
      + right. now apply String.eqb_eq.
      + destruct Hn. apply filter_In. split; [assumption|]. now rewrite Hs, Ht. }
  split; [|split; [|split]].
  - intros n Hn Hnty. apply filter_In. split; [assumption|].
    apply Hkeep; [assumption | congruence].
  - clear Hothers. induction (nodes st) as [|a l IH]; simpl; [lia|].
    simpl in Hids. inversion Hids as [|? ? Ha Hl]; subst.
    destruct (String.eqb (Node.id a) (Node.id wp)) eqn:Ha'; simpl.
    + rewrite filter_all_true; [lia|].
      intros b Hb. apply negb_true_iff, String.eqb_neq. intros Hid.
      apply Ha. apply String.eqb_eq in Ha'. rewrite Ha', <- Hid. now apply in_map.
    + destruct Hin as [-> | Hin]; [now rewrite String.eqb_refl in Ha'|].
      assert (IH' := IH Hl Hin).
      assert (Hk : forall n, In n l -> n <> wp ->
                             negb (String.eqb (Node.id n) (Node.id wp)) = true).
      { intros n Hn. apply Hkeep. now right. }
      specialize (IH' Hk). lia.
  - intros e He Hn. exists wp. split; [assumption|]. split; [assumption|].
    apply Hothers; [assumption|]. intros Ho. apply Hn.
    destruct (find _ (edges st)); [destruct (find _ (edges st))|];
      try exact Ho; apply in_or_app; now left.
  - intros e He.
    assert (Hcase : In e others \/ Edge.id e = u).
    { destruct (find (fun x => String.eqb (Edge.target x) (Node.id wp)) (edges st));
        [destruct (find (fun x => String.eqb (Edge.source x) (Node.id wp)) (edges st))|];
        try (now left).
      apply in_app_or in He. destruct He as [He | [<- | []]]; [now left | now right]. }
    destruct Hcase as [Ho | Hu]; [left | now right].
    unfold others in Ho. now apply filter_In in Ho.
Qed.

Lemma removeWaypoint_keeps_content_witness :
  let st := play [EvAddChild "A" "e" 0 "Math"; EvSelectTool "informational";
                  EvConnect "u0" "w" "ea" "eb" 0 0 "root" "A"] initialState in
  map Node.id (nodes (removeWaypoint "j" "ea" st)) = ["root"; "A"]
  /\ List.length (nodes st) <= S (List.length (nodes (removeWaypoint "j" "ea" st))).
Proof.
  intros st. split; [reflexivity|].
  apply (removeWaypoint_keeps_content "j" "ea" st). reflexivity.
Defined.

(* ------------------------------------------------------------------ *)
(** ** Invariants of the graph along the gestures *)

Lemma play_invariant (ok : State -> Event -> bool) (P : State -> Prop) :
  (forall st ev, ok st ev = true -> P st -> P (step ev st)) ->
  forall (evs : list Event) (st : State),
    playable ok evs st = true -> P st -> P (play evs st).
Proof.
  intros Hstep. induction evs as [|ev evs IH]; intros st Hok HP; [exact HP|].
  simpl in Hok. apply andb_prop in Hok. destruct Hok as [Hev Hrest].
  simpl. apply (IH _ Hrest). now apply Hstep.
Qed.

Lemma hasNode_In (nds : list Node.t) (v : Id) :
  hasNode nds v = true <-> In v (map Node.id nds).
Proof.
  unfold hasNode. rewrite existsb_exists, in_map_iff. split.
  - intros (n & Hn & He). apply String.eqb_eq in He. now exists n.
  - intros (n & He & Hn). exists n. split; [assumption|]. now apply String.eqb_eq.
Qed.

Lemma danglingFree_closed (nds : list Node.t) (eds : list Edge.t) :
  danglingFree nds eds = true <-> closedOver (map Node.id nds) eds.
Proof.
  unfold danglingFree, closedOver. rewrite forallb_forall. split.
  - intros H e He. specialize (H e He). apply andb_prop in H.
    now rewrite <- !hasNode_In.
  - intros H e He. destruct (H e He) as [Hs Ht].
    apply andb_true_iff. now rewrite !hasNode_In.
Qed.

Lemma ids_concat1 (n : Node.t) (nds : list Node.t) :
  map Node.id (concat1 n nds) = map Node.id nds ++ [Node.id n].
Proof. unfold concat1. now rewrite map_app. Qed.

Lemma closed_more_ids (ids ids' : list Id) (eds : list Edge.t) :
  incl ids ids' -> closedOver ids eds -> closedOver ids' eds.
Proof.
  intros Hincl H e He. destruct (H e He). split; now apply Hincl.
Qed.

Lemma closed_add_node (n : Node.t) (nds : list Node.t) (eds : list Edge.t) :
  closedOver (map Node.id nds) eds -> closedOver (map Node.id (concat1 n nds)) eds.
Proof.
  apply closed_more_ids. rewrite ids_concat1. now apply incl_appl.
Qed.

Lemma closed_add_edges (ids : list Id) (eds new : list Edge.t) :
  closedOver ids eds -> closedOver ids new -> closedOver ids (eds ++ new).
Proof.
  intros H Hnew e He. apply in_app_or in He. destruct He; auto.
Qed.

Lemma closed_one (ids : list Id) (e : Edge.t) :
  In (Edge.source e) ids -> In (Edge.target e) ids -> closedOver ids [e].
Proof. intros Hs Ht x [<- | []]. now split. Qed.

Lemma closed_filter (ids : list Id) (p : Edge.t -> bool) (eds : list Edge.t) :
  closedOver ids eds -> closedOver ids (filter p eds).
Proof. intros H e He. apply filter_In in He. now apply H. Qed.

Lemma ids_filter (q : Id -> bool) (nds : list Node.t) (v : Id) :
  In v (map Node.id nds) -> q v = false ->
  In v (map Node.id (filter (fun n => negb (q (Node.id n))) nds)).
Proof.
  intros Hin Hq. apply in_map_iff in Hin. destruct Hin as (n & <- & Hn).
  apply in_map. apply filter_In. split; [assumption | now rewrite Hq].
Qed.

(** Removing the nodes whose id satisfies [q], with the edges at them. *)
Lemma closed_delete (q : Id -> bool) (nds : list Node.t) (eds : list Edge.t) :
  closedOver (map Node.id nds) eds ->
  closedOver (map Node.id (filter (fun n => negb (q (Node.id n))) nds))
    (filter (fun e => negb (q (Edge.source e)) && negb (q (Edge.target e))) eds).
Proof.
  intros H e He. apply filter_In in He. destruct He as [He Hq].
  apply andb_prop in Hq. destruct Hq as [Hs Ht]. apply negb_true_iff in Hs, Ht.
  destruct (H e He). split; now apply ids_filter.
Qed.

Lemma closed_mapEdge (ids : list Id) (v : Id) (f : Edge.t -> Edge.t) (eds : list Edge.t) :
  (forall x, Edge.source (f x) = Edge.source x /\ Edge.target (f x) = Edge.target x) ->
  closedOver ids eds -> closedOver ids (mapEdge v f eds).
Proof.
  intros Hf H e He. unfold mapEdge in He. apply in_map_iff in He.
  destruct He as (x & <- & Hx). destruct (H x Hx) as [Hs Ht].
  destruct (String.eqb (Edge.id x) v); [|now split].
  destruct (Hf x) as [-> ->]. now split.
Qed.

Lemma ids_of_sig (l l' : list Node.t) :
  nodeSig l' = nodeSig l -> map Node.id l' = map Node.id l.
Proof.
  intros H. apply (f_equal (map fst)) in H. unfold nodeSig in H.
  rewrite !map_map in H. exact H.
Qed.

Lemma loopFree_spec (eds : list Edge.t) (e : Edge.t) :
  loopFree eds = true -> In e eds -> Edge.source e <> Edge.target e.
Proof.
  unfold loopFree. rewrite forallb_forall. intros H He.
  specialize (H e He). now apply negb_true_iff, String.eqb_neq in H.
Qed.

Ltac closed_new_node := simpl; apply closed_add_node; assumption.

Lemma closed_onConnect (u0 u1 u2 u3 : Id) (r1 r2 : Q) (s t : Id) (st : State) :
  endpointsKnown st (EvConnect u0 u1 u2 u3 r1 r2 s t) = true ->
  closedOver (map Node.id (nodes st)) (edges st) ->
  closedOver (map Node.id (nodes (onConnect u0 u1 u2 u3 r1 r2 s t st)))
             (edges (onConnect u0 u1 u2 u3 r1 r2 s t st)).
Proof.
  intros Hok H. unfold endpointsKnown in Hok. unfold onConnect.
  destruct (String.eqb (currentTool st) "node"); [closed_new_node|].
  simpl in Hok. apply andb_prop in Hok. destruct Hok as [Hs Ht].
  apply hasNode_In in Hs, Ht.
  destruct (String.eqb (currentTool st) "informational").
  - simpl. apply closed_add_edges; [now apply closed_add_node|].
    rewrite ids_concat1. intros e [<- | [<- | []]]; simpl; split;
      apply in_or_app; ((left; assumption) || (right; now left)).
  - destruct (String.eqb (currentTool st) "dotted"); simpl;
      (apply closed_add_edges; [assumption | now apply closed_one]).
Qed.

Lemma closed_onKeyDelete (st : State) :
  closedOver (map Node.id (nodes st)) (edges st) ->
  closedOver (map Node.id (nodes (onKeyDelete st))) (edges (onKeyDelete st)).
Proof.
  intros H. unfold onKeyDelete.
  destruct (truthy (selectedEdgeId st)); [simpl; now apply closed_filter|].
  destruct (truthy (selectedId st) && negb (opt_is (selectedId st) "root"));
    [|exact H].
  simpl. apply (closed_delete (opt_is (selectedId st))). exact H.
Qed.

Lemma closed_addChild (u ue : Id) (r : Q) (subject : string) (st : State) :
  closedOver (map Node.id (nodes st)) (edges st) ->
  closedOver (map Node.id (nodes (addChild u ue r subject st)))
             (edges (addChild u ue r subject st)).
Proof.
  intros H. unfold addChild.
  assert (Hbase : forall b, In b (nodes st) ->
            closedOver (map Node.id (concat1
                          (studyNode u
                             (Position.mk (Position.x (Node.position b) + 200)
                                (Position.y (Node.position b) + (r * 160 - 80)))
                             (subject ++ " Topic") subject (subject_color subject))
                          (nodes st)))
              (concat1 (arrowEdge ue (Node.id b) u) (edges st))).
  { intros b Hb. apply closed_add_edges; [now apply closed_add_node|].
    rewrite ids_concat1. apply closed_one; simpl; apply in_or_app.
    - left. now apply in_map.
    - right. now left. }
  destruct (selectedNode st) as [b|] eqn:Hsel.
  - simpl. apply Hbase. unfold selectedNode in Hsel. now apply find_some in Hsel.
  - destruct (hd_error (nodes st)) as [b|] eqn:Hhd; [|exact H].
    simpl. apply Hbase. destruct (nodes st); [discriminate|].
    injection Hhd as ->. now left.
Qed.

Lemma closed_deleteSelected (st : State) :
  closedOver (map Node.id (nodes st)) (edges st) ->
  closedOver (map Node.id (nodes (deleteSelected st))) (edges (deleteSelected st)).
Proof.
  intros H. unfold deleteSelected.
  destruct (selectedNode st) as [n|]; [|exact H].
  destruct (String.eqb (Node.id n) "root"); [exact H|].
  simpl. apply (closed_delete (fun i => String.eqb i (Node.id n))). exact H.
Qed.

Lemma closed_splitEdgeToWaypoint (uw ua ub edgeId : Id) (st : State) :
  closedOver (map Node.id (nodes st)) (edges st) ->
  closedOver (map Node.id (nodes (splitEdgeToWaypoint uw ua ub edgeId st)))
             (edges (splitEdgeToWaypoint uw ua ub edgeId st)).
Proof.
  intros H. unfold splitEdgeToWaypoint.
  destruct (find_edge edgeId (edges st)) as [e|] eqn:He; [|exact H].
  unfold find_edge in He. apply find_some in He. destruct He as [He _].
  destruct (H e He) as [Hs Ht]. simpl.
  apply closed_add_edges.
  - apply closed_add_node. now apply closed_filter.
  - rewrite ids_concat1. intros x [<- | [<- | []]]; simpl; split;
      apply in_or_app; ((left; assumption) || (right; now left)).
Qed.

Lemma closed_insertWaypointAt (uw ua ub edgeId : Id) (pos : Position.t) (st : State) :
  closedOver (map Node.id (nodes st)) (edges st) ->
  closedOver (map Node.id (nodes (insertWaypointAt uw ua ub edgeId pos st)))
             (edges (insertWaypointAt uw ua ub edgeId pos st)).
Proof.
  intros H. unfold insertWaypointAt. simpl.
  destruct (find_edge edgeId (edges st)) as [e|] eqn:He;
    [|now apply closed_add_node].
  unfold find_edge in He. apply find_some in He. destruct He as [He _].
  destruct (H e He) as [Hs Ht].
  apply closed_add_edges.
  - apply closed_add_node. now apply closed_filter.
  - rewrite ids_concat1. intros x [<- | [<- | []]]; simpl; split;
      apply in_or_app; ((left; assumption) || (right; now left)).
Qed.

Lemma closed_removeWaypoint (u edgeId : Id) (st : State) :
  loopFree (edges st) = true ->
  closedOver (map Node.id (nodes st)) (edges st) ->
  closedOver (map Node.id (nodes (removeWaypoint u edgeId st)))
             (edges (removeWaypoint u edgeId st)).
Proof.
  intros Hloop H. unfold removeWaypoint.
  destruct (find_edge edgeId (edges st)) as [e|]; [|exact H].
  destruct (find (waypointFor (edges st) e) (nodes st)) as [wp|]; [|exact H].
  simpl.
  pose proof (closed_delete (fun i => String.eqb i (Node.id wp)) _ _ H) as Hdel.
  destruct (find (fun x => String.eqb (Edge.target x) (Node.id wp)) (edges st))
    as [bf|] eqn:Hbf; [|exact Hdel].
  destruct (find (fun x => String.eqb (Edge.source x) (Node.id wp)) (edges st))
    as [af|] eqn:Haf; [|exact Hdel].
  apply find_some in Hbf, Haf. destruct Hbf as [Hbf Hbt], Haf as [Haf Has].
  apply String.eqb_eq in Hbt, Has.
  apply closed_add_edges; [exact Hdel|].
  apply closed_one; simpl.
  - apply (ids_filter (fun i => String.eqb i (Node.id wp))).
    + now apply (H bf Hbf).
    + apply String.eqb_neq. rewrite <- Hbt. now apply (loopFree_spec (edges st)).
  - apply (ids_filter (fun i => String.eqb i (Node.id wp))).
    + now apply (H af Haf).
    + apply String.eqb_neq. rewrite <- Has. intros Heq.
      now apply (loopFree_spec (edges st) af Hloop Haf).
Qed.

Lemma closed_applyTemplate (u1 u2 u3 u4 : Id) (type : string) (st : State) :
  closedOver (map Node.id (nodes st)) (edges st) ->
  closedOver (map Node.id (nodes (applyTemplate u1 u2 u3 u4 type st)))
             (edges (applyTemplate u1 u2 u3 u4 type st)).
Proof.
  intros H. unfold applyTemplate.
  destruct (String.eqb type "exam"); [now apply danglingFree_closed|].
  destruct (String.eqb type "research"); [now apply danglingFree_closed|].
  destruct (String.eqb type "planner"); [now apply danglingFree_closed | exact H].
Qed.

Lemma closed_step (st : State) (ev : Event) :
  endpointsKnown st ev = true ->
  closedOver (map Node.id (nodes st)) (edges st) ->
  closedOver (map Node.id (nodes (step ev st))) (edges (step ev st)).
Proof.
  intros Hok H. destruct ev; try exact H; try closed_new_node.
  - unfold step, onPaneClick.
    destruct (String.eqb (currentTool st) "node"); [closed_new_node|].
    destruct (String.eqb (currentTool st) "informational");
      [closed_new_node | exact H].
  - now apply closed_onConnect.
  - unfold step, onSelectionChange.
    destruct sel_nodes; [destruct sel_edges|]; exact H.
  - now apply closed_onKeyDelete.
  - now apply closed_addChild.
  - now apply closed_deleteSelected.
  - now apply closed_splitEdgeToWaypoint.
  - now apply closed_insertWaypointAt.
  - unfold step, onEdgeClick.
    destruct (String.eqb (currentTool st) "waypoint"); [|exact H].
    now apply closed_insertWaypointAt.
  - now apply closed_removeWaypoint.
  - unfold step, updateSelected. simpl.
    rewrite (ids_of_sig (nodes st)); [exact H|].
    apply nodeSig_map. intros n.
    destruct (opt_is (selectedId st) (Node.id n)); split; reflexivity.
  - simpl. apply closed_mapEdge; [|exact H]. intros x. split; reflexivity.
  - simpl. apply closed_mapEdge; [|exact H]. intros x. split; reflexivity.
  - simpl. apply closed_mapEdge; [|exact H]. intros x. split; reflexivity.
  - simpl. apply closed_mapEdge; [|exact H]. intros x. split; reflexivity.
  - simpl. now apply closed_filter.
  - simpl. now apply closed_filter.
  - unfold step, selectTool.
    repeat match goal with
      | |- context [if ?b then _ else _] => destruct b
      end; exact H.
  - unfold step, autoArrange. simpl.
    rewrite (ids_of_sig (nodes st)); [exact H|].
    apply nodeSig_indexed. intros p. split; reflexivity.
  - now apply closed_applyTemplate.
  - simpl. now apply danglingFree_closed.
Qed.

(** A waypoint whose first inbound edge is a self-loop: [removeWaypoint]
    rejoins from the waypoint it removes. *)
Lemma removeWaypoint_self_loop_dangles :
  let st := play [EvAddChild "A" "e" 0 "Math"; EvSelectTool "informational";
                  EvConnect "u0" "w" "ea" "eb" 0 0 "root" "A";
                  EvDeleteEdgeRow "ea"; EvSelectTool "one-way";
                  EvConnect "loop" "u1" "u2" "u3" 0 0 "w" "w";
                  EvDeleteEdgeRow "eb";
                  EvConnect "out" "u1" "u2" "u3" 0 0 "w" "A"] initialState in
  danglingFree (nodes st) (edges st) = true
  /\ map (fun e => (Edge.id e, Edge.source e, Edge.target e))
         (edges (removeWaypoint "j" "out" st))
     = [("e", "root", "A"); ("j", "w", "w")]
  /\ danglingFree (nodes (removeWaypoint "j" "out" st))
                  (edges (removeWaypoint "j" "out" st)) = false.
Proof. repeat split; reflexivity. Qed.

(** X13. No gesture leaves a dangling edge, as long as connect gestures name
    nodes of the graph, [removeWaypoint] is not used on a graph with a
    self-loop and imported payloads have no dangling edge: in every state
    reached this way both ends of every edge are ids of nodes. *)
Theorem no_dangling_edge (evs : list Event)
  (Hevs : playable endpointsKnown evs initialState = true) :
  danglingFree (nodes (play evs initialState)) (edges (play evs initialState)) = true.
Proof.
  apply danglingFree_closed.
  apply (play_invariant endpointsKnown
           (fun st => closedOver (map Node.id (nodes st)) (edges st)) closed_step
           evs initialState Hevs).
  intros e [].
Qed.

Lemma no_dangling_edge_witness :
  danglingFree
    (nodes (play [EvAddChild "A" "e" 0 "Math"; EvSelectTool "informational";
                  EvConnect "u0" "w" "ea" "eb" 0 0 "root" "A";
                  EvRemoveWaypoint "j" "ea"; EvSelectionChange [rootNode] [];
                  EvApplyTemplate "p" "q" "r" "s" "exam"; EvKeyDelete]
             initialState))
    (edges (play [EvAddChild "A" "e" 0 "Math"; EvSelectTool "informational";
                  EvConnect "u0" "w" "ea" "eb" 0 0 "root" "A";
                  EvRemoveWaypoint "j" "ea"; EvSelectionChange [rootNode] [];
                  EvApplyTemplate "p" "q" "r" "s" "exam"; EvKeyDelete]
             initialState)) = true.
Proof.
  apply no_dangling_edge. reflexivity.
Defined.

Lemma NoDup_ids_concat (n : Node.t) (nds : list Node.t) :
  hasNode nds (Node.id n) = false -> NoDup (map Node.id nds) ->
  NoDup (map Node.id (concat1 n nds)).
Proof.
  intros Hn H. rewrite ids_concat1. apply NoDup_app; [assumption | |].
  - constructor; [intros [] | constructor].
  - intros x Hx [<- | []].
    apply hasNode_In in Hx. congruence.
Qed.

Lemma NoDup_ids_filter (p : Node.t -> bool) (nds : list Node.t) :
  NoDup (map Node.id nds) -> NoDup (map Node.id (filter p nds)).
Proof.
  induction nds as [|a l IH]; intros H; [constructor|].
  simpl in H. inversion H as [|? ? Ha Hl]; subst. simpl.
  destruct (p a); [|now apply IH]. simpl. constructor; [|now apply IH].
  intros Hin. apply Ha. apply in_map_iff in Hin. destruct Hin as (n & Hid & Hn).
  apply filter_In in Hn. rewrite <- Hid. apply in_map. tauto.
Qed.

Ltac ids_new_node :=
  simpl; apply NoDup_ids_concat; [simpl; now apply negb_true_iff | assumption].

Lemma ids_step (st : State) (ev : Event) :
  nodeIdsFresh st ev = true ->
  NoDup (map Node.id (nodes st)) -> NoDup (map Node.id (nodes (step ev st))).
Proof.
  intros Hok H. destruct ev; simpl in Hok; try exact H; try ids_new_node.
  - unfold step, onPaneClick.
    destruct (String.eqb (currentTool st) "node"); [ids_new_node|].
    destruct (String.eqb (currentTool st) "informational"); [ids_new_node | exact H].
  - unfold step, onConnect.
    destruct (String.eqb (currentTool st) "node"); [ids_new_node|].
    destruct (String.eqb (currentTool st) "informational"); [ids_new_node|].
    destruct (String.eqb (currentTool st) "dotted"); exact H.
  - unfold step, onSelectionChange.
    destruct sel_nodes; [destruct sel_edges|]; exact H.
  - unfold step, onKeyDelete.
    destruct (truthy (selectedEdgeId st)); [exact H|].
    destruct (truthy (selectedId st) && negb (opt_is (selectedId st) "root"));
      [|exact H].
    simpl. now apply NoDup_ids_filter.
  - unfold step, addChild.
    destruct (selectedNode st); [ids_new_node|].
    destruct (hd_error (nodes st)); [ids_new_node | exact H].
  - unfold step, deleteSelected.
    destruct (selectedNode st) as [n|]; [|exact H].
    destruct (String.eqb (Node.id n) "root"); [exact H|].
    simpl. now apply NoDup_ids_filter.
  - unfold step, splitEdgeToWaypoint.
    destruct (find_edge edgeId (edges st)); [ids_new_node | exact H].
  - unfold step, onEdgeClick.
    destruct (String.eqb (currentTool st) "waypoint"); [|exact H].
    unfold insertWaypointAt. ids_new_node.
  - unfold step, removeWaypoint.
    destruct (find_edge edgeId (edges st)) as [e|]; [|exact H].
    destruct (find (waypointFor (edges st) e) (nodes st)); [|exact H].
    simpl. now apply NoDup_ids_filter.
  - unfold step, updateSelected. simpl.
    rewrite (ids_of_sig (nodes st)); [exact H|].
    apply nodeSig_map. intros n.
    destruct (opt_is (selectedId st) (Node.id n)); split; reflexivity.
  - unfold step, selectTool.
    repeat match goal with
      | |- context [if ?b then _ else _] => destruct b
      end; exact H.
  - unfold step, autoArrange. simpl.
    rewrite (ids_of_sig (nodes st)); [exact H|].
    apply nodeSig_indexed. intros p. split; reflexivity.
  - unfold step, applyTemplate.
    destruct (String.eqb type "exam"); [now apply distinctIds_NoDup|].
    destruct (String.eqb type "research"); [now apply distinctIds_NoDup|].
    destruct (String.eqb type "planner"); [now apply distinctIds_NoDup | exact H].
  - simpl. now apply distinctIds_NoDup.
Qed.

(** X14. Node ids stay pairwise distinct, as long as the uuid of every new
    node is not the id of a node of the graph and imported payloads have
    distinct node ids; the templates replace the nodes by nodes with
    distinct ids. *)
Theorem node_ids_distinct (evs : list Event)
  (Hevs : playable nodeIdsFresh evs initialState = true) :
  distinctIds (map Node.id (nodes (play evs initialState))) = true.
Proof.
  apply distinctIds_NoDup.
  apply (play_invariant nodeIdsFresh
           (fun st => NoDup (map Node.id (nodes st))) ids_step
           evs initialState Hevs).
  simpl. constructor; [intros [] | constructor].
Qed.

Lemma node_ids_distinct_witness :
  distinctIds
    (map Node.id
       (nodes (play [EvAddChild "A" "e" 0 "Math"; EvSelectTool "informational";
                     EvConnect "u0" "w" "ea" "eb" 0 0 "root" "A";
                     EvSplitEdge "w2" "a" "b" "e";
                     EvApplyTemplate "p" "q" "r" "s" "research";
                     EvAddChild "A" "e" 0 "Math"] initialState))) = true.
Proof.
  apply node_ids_distinct. reflexivity.
Defined.

(** A uuid equal to an id of the graph gives two nodes the same id. *)
Lemma repeated_uuid_repeats_id :
  map Node.id (nodes (addChild "root" "e" 0 "Math" initialState)) = ["root"; "root"].
Proof. reflexivity. Qed.

(* ------------------------------------------------------------------ *)
(** ** A waypoint does not change what reaches what *)

Section Subdivide.

Variables (E : list Edge.t) (e sa sb : Edge.t) (edgeId uw : Id).

Hypothesis He : In e E.
(** The id of the waypoint is new. *)
Hypothesis Hfresh : forall x, In x E -> Edge.source x <> uw /\ Edge.target x <> uw.
(** The edges that carry the id of [e] have the ends of [e]. *)
Hypothesis Hsame : forall x, In x E -> Edge.id x = edgeId ->
  Edge.source x = Edge.source e /\ Edge.target x = Edge.target e.
(** The two segments. *)
Hypothesis Hsa : Edge.source sa = Edge.source e /\ Edge.target sa = uw.
Hypothesis Hsb : Edge.source sb = uw /\ Edge.target sb = Edge.target e.

Local Abbreviation E' :=
  (filter (fun x => negb (String.eqb (Edge.id x) edgeId)) E ++ [sa; sb]).

Lemma segA_in : In sa E'.
Proof. apply in_or_app. right. now left. Qed.

Lemma segB_in : In sb E'.
Proof. apply in_or_app. right. right. now left. Qed.

Lemma through_waypoint : reach E' (Edge.source e) (Edge.target e).
Proof.
  destruct Hsa as [Hs1 Ht1], Hsb as [Hs2 Ht2].
  rewrite <- Ht2. apply reach_step; [|exact segB_in].
  rewrite Hs2, <- Ht1, <- Hs1. apply reach_edge. exact segA_in.
Qed.

Lemma edge_kept_or_bent (x : Edge.t) :
  In x E ->
  In x E' \/ (Edge.source x = Edge.source e /\ Edge.target x = Edge.target e).
Proof.
  intros Hx. destruct (String.eqb (Edge.id x) edgeId) eqn:Hid.
  - right. apply Hsame; [assumption | now apply String.eqb_eq].
  - left. apply in_or_app. left. apply filter_In. split; [assumption|].
    now rewrite Hid.
Qed.

Lemma reach_subdivide_fwd (a b : Id) : reach E a b -> reach E' a b.
Proof.
  intros H. induction H as [x Hx | a x H IH Hx].
  - destruct (edge_kept_or_bent x Hx) as [Hin | [-> ->]].
    + now apply reach_edge.
    + exact through_waypoint.
  - destruct (edge_kept_or_bent x Hx) as [Hin | [Hs Ht]].
    + now apply reach_step.
    + rewrite Ht. apply reach_trans with (Edge.source e).
      * now rewrite <- Hs.
      * exact through_waypoint.
Qed.

Lemma in_subdivided (x : Edge.t) : In x E' -> In x E \/ x = sa \/ x = sb.
Proof.
  intros Hx. apply in_app_or in Hx. destruct Hx as [Hx | [<- | [<- | []]]]; auto.
  left. now apply filter_In in Hx.
Qed.

Lemma reach_subdivide_bwd (a b : Id) :
  reach E' a b -> a <> uw ->
  (b <> uw -> reach E a b)
  /\ (b = uw -> a = Edge.source e \/ reach E a (Edge.source e)).
Proof.
  destruct Hsa as [Hs1 Ht1], Hsb as [Hs2 Ht2].
  destruct (Hfresh e He) as [Hes Het].
  intros H. induction H as [x Hx | a x H IH Hx]; intros Ha.
  - destruct (in_subdivided x Hx) as [Hin | [-> | ->]].
    + split; [intros _; now apply reach_edge|].
      intros Hb. now apply (Hfresh x Hin) in Hb.
    + split; [intros Hb; now rewrite Ht1 in Hb | intros _; now left].
    + now rewrite Hs2 in Ha.
  - specialize (IH Ha). destruct IH as [IH1 IH2].
    destruct (in_subdivided x Hx) as [Hin | [-> | ->]].
    + destruct (Hfresh x Hin) as [Hxs Hxt].
      split; [intros _; apply reach_step; auto | intros Hb; contradiction].
    + split; [intros Hb; now rewrite Ht1 in Hb|].
      intros _. right. rewrite Hs1 in IH1. now apply IH1.
    + split; [|intros Hb; rewrite Ht2 in Hb; contradiction].
      intros _. rewrite Ht2. destruct (IH2 Hs2) as [-> | Hr].
      * now apply reach_edge.
      * now apply reach_step.
Qed.

End Subdivide.

(** X15. Inserting a waypoint in an edge, with [splitEdgeToWaypoint] or with
    [insertWaypointAt], hides and un-hides no other node: when the id of
    the waypoint is new, not collapsed, and the id of the edge is carried
    only by edges with the same ends, every other id is hidden after the
    operation exactly when it was hidden before, and the waypoint is hidden
    exactly when the source of the edge is collapsed or hidden. *)
Theorem waypoint_keeps_hidden
  (uw ua ub edgeId : Id) (pos : Position.t) (st : State) (e : Edge.t)
  (Hedge : find_edge edgeId (edges st) = Some e)
  (Hfresh : forall x, In x (edges st) -> Edge.source x <> uw /\ Edge.target x <> uw)
  (Hsame : forall x, In x (edges st) -> Edge.id x = edgeId ->
             Edge.source x = Edge.source e /\ Edge.target x = Edge.target e)
  (Hcol : ~ In uw (collapsed st)) :
  forall st', st' = splitEdgeToWaypoint uw ua ub edgeId st
              \/ st' = insertWaypointAt uw ua ub edgeId pos st ->
    (forall v, v <> uw -> (In v (hiddenTargets st') <-> In v (hiddenTargets st)))
    /\ (In uw (hiddenTargets st')
        <-> In (Edge.source e) (collapsed st)
            \/ In (Edge.source e) (hiddenTargets st)).
Proof.
  assert (He : In e (edges st)).
  { unfold find_edge in Hedge. now apply find_some in Hedge. }
  assert (Hgen : forall sa sb : Edge.t,
             Edge.source sa = Edge.source e /\ Edge.target sa = uw ->
             Edge.source sb = uw /\ Edge.target sb = Edge.target e ->
             forall st',
               collapsed st' = collapsed st ->
               edges st' = filter (fun x => negb (String.eqb (Edge.id x) edgeId))
                             (edges st) ++ [sa; sb] ->
               (forall v, v <> uw ->
                          (In v (hiddenTargets st') <-> In v (hiddenTargets st)))
               /\ (In uw (hiddenTargets st')
                   <-> In (Edge.source e) (collapsed st)
                       \/ In (Edge.source e) (hiddenTargets st))).
  { intros sa sb Hsa Hsb st' Hc HE. unfold hiddenTargets. rewrite Hc, HE.
    split.
    - intros v Hv. rewrite !computeHiddenTargets_spec. unfold descendant.
      split; intros (c & Hcin & Hr); exists c; (split; [assumption|]).
      + apply (reach_subdivide_bwd (edges st) e sa sb edgeId uw
                 He Hfresh Hsa Hsb c v Hr); [|assumption].
        intros ->. contradiction.
      + now apply (reach_subdivide_fwd (edges st) e sa sb edgeId uw Hsame Hsa Hsb).
    - rewrite !computeHiddenTargets_spec. unfold descendant. split.
      + intros (c & Hcin & Hr).
        assert (Hc' : c <> uw) by (intros ->; contradiction).
        destruct (proj2 (reach_subdivide_bwd (edges st) e sa sb edgeId uw
                           He Hfresh Hsa Hsb c uw Hr Hc') eq_refl) as [<- | Hr'].
        * now left.
        * right. now exists c.
      + destruct Hsa as [Hs1 Ht1].
        assert (Hin : In sa (filter (fun x => negb (String.eqb (Edge.id x) edgeId))
                               (edges st) ++ [sa; sb]))
          by (apply in_or_app; right; now left).
        intros [Hcin | (c & Hcin & Hr)].
        * exists (Edge.source e). split; [assumption|].
          rewrite <- Hs1, <- Ht1. now apply reach_edge.
        * exists c. split; [assumption|]. rewrite <- Ht1.
          apply reach_step; [|assumption]. rewrite Hs1.
          now apply (reach_subdivide_fwd (edges st) e sa sb edgeId uw
                       Hsame (conj Hs1 Ht1) Hsb). }
  intros st' [-> | ->].
  - unfold splitEdgeToWaypoint. rewrite Hedge.
    eapply Hgen; [| | reflexivity | reflexivity]; split; reflexivity.
  - unfold insertWaypointAt.
    eapply Hgen; [| | reflexivity | simpl; rewrite Hedge; reflexivity];
      split; reflexivity.
Qed.

Lemma waypoint_keeps_hidden_witness :
  let st := onToggleCollapse "root" (addChild "A" "e" 0 "Math" initialState) in
  In "A" (hiddenTargets (insertWaypointAt "w" "a" "b" "e" (Position.mk 0 0) st))
  /\ In "w" (hiddenTargets (splitEdgeToWaypoint "w" "a" "b" "e" st)).
Proof.
  intros st.
  assert (Hfresh : forall x, In x (edges st) ->
                             Edge.source x <> "w" /\ Edge.target x <> "w").
  { intros x [<- | []]. split; discriminate. }
  assert (Hsame : forall x, In x (edges st) -> Edge.id x = "e" ->
            Edge.source x = Edge.source (arrowEdge "e" "root" "A")
            /\ Edge.target x = Edge.target (arrowEdge "e" "root" "A")).
  { intros x [<- | []] _. split; reflexivity. }
  assert (Hcol : ~ In "w" (collapsed st)).
  { intros [H | []]. discriminate. }
  split.
  - apply (waypoint_keeps_hidden "w" "a" "b" "e" (Position.mk 0 0) st
             (arrowEdge "e" "root" "A") eq_refl Hfresh Hsame Hcol _
             (or_intror eq_refl)); [discriminate|].
    now left.
  - apply (waypoint_keeps_hidden "w" "a" "b" "e" (Position.mk 0 0) st
             (arrowEdge "e" "root" "A") eq_refl Hfresh Hsame Hcol _
             (or_introl eq_refl)).
    left. now left.
Defined.

(* ------------------------------------------------------------------ *)
(** ** Removing a waypoint that was just inserted *)

Section RemoveFresh.

Variables (u uw s t : Id) (nds : list Node.t) (others : list Edge.t)
          (wpn : Node.t) (sa sb : Edge.t) (st1 : State).

Hypothesis Hwid : Node.id wpn = uw.
Hypothesis Hwty : Node.type wpn = "waypoint".
Hypothesis Hnodes : nodes st1 = nds ++ [wpn].
Hypothesis Hedges : edges st1 = others ++ [sa; sb].
Hypothesis Hsa : Edge.source sa = s /\ Edge.target sa = uw.
Hypothesis Hsb : Edge.source sb = uw /\ Edge.target sb = t.
Hypothesis Hends : s <> uw /\ t <> uw.
Hypothesis Hsegs : Edge.id sa <> Edge.id sb.
Hypothesis Hnode_fresh : forall n, In n nds -> Node.id n <> uw.
Hypothesis Hedge_fresh : forall x, In x others ->
  Edge.source x <> uw /\ Edge.target x <> uw
  /\ Edge.id x <> Edge.id sa /\ Edge.id x <> Edge.id sb.
Hypothesis Hclear : forall n, In n nds -> Node.type n = "waypoint" ->
  Node.id n <> s /\ Node.id n <> t
  /\ (forall x, In x others -> ~ (Edge.source x = s /\ Edge.target x = Node.id n))
  /\ (forall x, In x others -> ~ (Edge.source x = Node.id n /\ Edge.target x = t)).

Lemma fresh_find_segment (seg : Id) :
  seg = Edge.id sa \/ seg = Edge.id sb ->
  exists sg, find_edge seg (edges st1) = Some sg /\ (sg = sa \/ sg = sb).
Proof.
  intros Hseg. rewrite Hedges. unfold find_edge.
  rewrite find_app_split, find_all_false.
  - simpl. destruct Hseg as [-> | ->].
    + rewrite String.eqb_refl. eauto.
    + destruct (String.eqb (Edge.id sa) (Edge.id sb));
        [|rewrite String.eqb_refl]; eauto.
  - intros x Hx. apply Hedge_fresh in Hx.
    apply String.eqb_neq. destruct Hseg as [-> | ->]; tauto.
Qed.

Lemma fresh_search_skips (sg : Edge.t) (n : Node.t) :
  sg = sa \/ sg = sb -> In n nds ->
  waypointFor (others ++ [sa; sb]) sg n = false.
Proof.
  intros Hsg Hn. unfold waypointFor.
  destruct (String.eqb (Node.type n) "waypoint") eqn:Hty; [|reflexivity].
  apply String.eqb_eq in Hty. simpl.
  destruct (Hclear n Hn Hty) as (Hs & Ht & Hout & Hin).
  pose proof (Hnode_fresh n Hn) as Hfresh.
  destruct Hsa as [Hsa1 Hsa2], Hsb as [Hsb1 Hsb2], Hends as [Hs' Ht'].
  rewrite !existsb_app. simpl. rewrite !orb_false_r.
  destruct Hsg as [-> | ->];
    rewrite ?Hsa1, ?Hsa2, ?Hsb1, ?Hsb2;
    rewrite (existsb_all_false _ others), (existsb_all_false _ others);
    try (simpl; rewrite !eqb_pair_false; [reflexivity | | | |]; congruence);
    intros;
    match goal with
    | Hy : In ?y others |- _ =>
        apply eqb_pair_false; intros H1 H2;
        first [ destruct (Hedge_fresh y Hy) as (? & ? & ? & ?); congruence
              | apply (Hout y Hy); now split
              | apply (Hin y Hy); now split ]
    end.
Qed.

Lemma fresh_search_finds (sg : Edge.t) :
  sg = sa \/ sg = sb ->
  find (waypointFor (edges st1) sg) (nodes st1) = Some wpn.
Proof.
  intros Hsg. rewrite Hnodes, Hedges, find_app_split, find_all_false.
  - simpl. unfold waypointFor. rewrite Hwty, Hwid, !existsb_app. simpl.
    destruct Hsa as [Hsa1 Hsa2], Hsb as [Hsb1 Hsb2].
    destruct Hsg as [-> | ->]; rewrite ?Hsa1, ?Hsa2, ?Hsb1, ?Hsb2;
      rewrite !String.eqb_refl; simpl; rewrite ?orb_true_r; reflexivity.
  - intros n Hin. now apply fresh_search_skips.
Qed.

(** [removeWaypoint] on either segment of a waypoint that was just inserted
    gives back the nodes and joins the two segments. *)
Lemma remove_fresh_waypoint (seg : Id) :
  seg = Edge.id sa \/ seg = Edge.id sb ->
  nodes (removeWaypoint u seg st1) = nds
  /\ edges (removeWaypoint u seg st1)
     = others ++ [Edge.mk u s t (Edge.type sa) (Edge.label sa) (Edge.style sa)
                    (Edge.markerEnd sb) None None None None None].
Proof.
  intros Hseg. destruct (fresh_find_segment seg Hseg) as (sg & Hfind & Hsg).
  pose proof (fresh_search_finds sg Hsg) as Hwp.
  destruct Hsa as [Hsa1 Hsa2], Hsb as [Hsb1 Hsb2], Hends as [Hs' Ht'].
  unfold removeWaypoint. rewrite Hfind, Hwp. simpl.
  rewrite Hnodes, Hedges, Hwid. split.
  - rewrite filter_app. simpl. rewrite Hwid, String.eqb_refl. simpl.
    rewrite app_nil_r. apply filter_all_true.
    intros n Hin. apply negb_true_iff, String.eqb_neq. now apply Hnode_fresh.
  - rewrite !find_app_split, (find_all_false _ others), (find_all_false _ others).
    + simpl. rewrite Hsa1, Hsa2, Hsb1, Hsb2, !String.eqb_refl.
      replace (String.eqb s uw) with false by (symmetry; now apply String.eqb_neq).
      f_equal; [|now rewrite Hsa1, Hsb2].
      rewrite filter_app. simpl.
      rewrite Hsa1, Hsa2, Hsb1, !String.eqb_refl. simpl.
      rewrite andb_false_r, app_nil_r.
      apply filter_all_true.
      intros x Hx. apply Hedge_fresh in Hx.
      apply andb_true_iff. split; apply negb_true_iff, String.eqb_neq; tauto.
    + intros x Hx. apply Hedge_fresh in Hx. apply String.eqb_neq. tauto.
    + intros x Hx. apply Hedge_fresh in Hx. apply String.eqb_neq. tauto.
Qed.

End RemoveFresh.

Lemma in_without (edgeId : Id) (eds : list Edge.t) (x : Edge.t) :
  In x (filter (fun y => negb (String.eqb (Edge.id y) edgeId)) eds) -> In x eds.
Proof. intros H. now apply filter_In in H. Qed.

(** X16. [splitEdgeToWaypoint] followed by [removeWaypoint] on either
    segment gives back the node list and replaces the edge by one edge with
    the same source, target, type, label, style and end marker, a new id and
    no start marker, provided that the generated ids are new and that no
    waypoint already in the graph is an end of the edge, the target of an
    edge leaving its source or the source of an edge entering its target. *)
Theorem split_then_remove
  (uw ua ub u edgeId seg : Id) (st : State) (e : Edge.t)
  (Hedge : find_edge edgeId (edges st) = Some e)
  (Hnode_fresh : forall n, In n (nodes st) -> Node.id n <> uw)
  (Hedge_fresh : forall x, In x (edges st) ->
     Edge.source x <> uw /\ Edge.target x <> uw
     /\ Edge.id x <> ua /\ Edge.id x <> ub)
  (Hsegs : ua <> ub)
  (Hclear : forall n, In n (nodes st) -> Node.type n = "waypoint" ->
     Node.id n <> Edge.source e /\ Node.id n <> Edge.target e
     /\ (forall x, In x (edges st) ->
           ~ (Edge.source x = Edge.source e /\ Edge.target x = Node.id n))
     /\ (forall x, In x (edges st) ->
           ~ (Edge.source x = Node.id n /\ Edge.target x = Edge.target e)))
  (Hseg : seg = ua \/ seg = ub) :
  nodes (removeWaypoint u seg (splitEdgeToWaypoint uw ua ub edgeId st)) = nodes st
  /\ edges (removeWaypoint u seg (splitEdgeToWaypoint uw ua ub edgeId st))
     = filter (fun x => negb (String.eqb (Edge.id x) edgeId)) (edges st)
       ++ [Edge.mk u (Edge.source e) (Edge.target e) (Edge.type e) (Edge.label e)
             (Edge.style e) (Edge.markerEnd e) None None None None None].
Proof.
  assert (He : In e (edges st)).
  { unfold find_edge in Hedge. now apply find_some in Hedge. }
  destruct (Hedge_fresh e He) as (Hes & Het & _).
  unfold splitEdgeToWaypoint. rewrite Hedge.
  match goal with
  | |- context [setNodes (concat1 ?w) (setEdges (fun eds => _ ++ [?a; ?b]) st)] =>
      apply (remove_fresh_waypoint u uw (Edge.source e) (Edge.target e) (nodes st)
               (filter (fun x => negb (String.eqb (Edge.id x) edgeId)) (edges st))
               w a b)
  end; try reflexivity; try (split; [reflexivity | reflexivity]);
    try (split; assumption); try assumption.
  - intros x Hx. apply in_without in Hx. now apply Hedge_fresh.
  - intros n Hn Hty. destruct (Hclear n Hn Hty) as (H1 & H2 & H3 & H4).
    split; [assumption|]. split; [assumption|].
    split; intros x Hx; apply in_without in Hx; auto.
Qed.

Lemma split_then_remove_witness :
  let st := addChild "A" "e" 0 "Math" initialState in
  map (fun x => (Edge.id x, Edge.source x, Edge.target x))
      (edges (removeWaypoint "j" "b" (splitEdgeToWaypoint "w" "a" "b" "e" st)))
  = [("j", "root", "A")].
Proof.
  intros st.
  assert (Hn : forall n, In n (nodes st) -> Node.id n <> "w").
  { intros n [<- | [<- | []]]; discriminate. }
  assert (He : forall x, In x (edges st) ->
                 Edge.source x <> "w" /\ Edge.target x <> "w"
                 /\ Edge.id x <> "a" /\ Edge.id x <> "b").
  { intros x [<- | []]. repeat split; discriminate. }
  assert (Hab : "a" <> "b") by discriminate.
  assert (Hc : forall n, In n (nodes st) -> Node.type n = "waypoint" ->
             Node.id n <> Edge.source (arrowEdge "e" "root" "A")
             /\ Node.id n <> Edge.target (arrowEdge "e" "root" "A")
             /\ (forall x, In x (edges st) ->
                   ~ (Edge.source x = Edge.source (arrowEdge "e" "root" "A")
                      /\ Edge.target x = Node.id n))
             /\ (forall x, In x (edges st) ->
                   ~ (Edge.source x = Node.id n
                      /\ Edge.target x = Edge.target (arrowEdge "e" "root" "A")))).
  { intros n [<- | [<- | []]] Hty; discriminate Hty. }
  destruct (split_then_remove "w" "a" "b" "j" "e" "b" st (arrowEdge "e" "root" "A")
              eq_refl Hn He Hab Hc (or_intror eq_refl)) as [_ Hedges].
  rewrite Hedges. reflexivity.
Defined.

(** X17. [insertWaypointAt] followed by [removeWaypoint] on either segment,
    under the same provisos, gives back the node list and replaces the edge
    by one edge with the same source, target, label and end marker; the
    start marker of the edge and its label background settings are lost,
    a missing type becomes smoothstep and a missing style the empty
    style. *)
Theorem insert_then_remove
  (uw ua ub u edgeId seg : Id) (pos : Position.t) (st : State) (e : Edge.t)
  (Hedge : find_edge edgeId (edges st) = Some e)
  (Hnode_fresh : forall n, In n (nodes st) -> Node.id n <> uw)
  (Hedge_fresh : forall x, In x (edges st) ->
     Edge.source x <> uw /\ Edge.target x <> uw
     /\ Edge.id x <> ua /\ Edge.id x <> ub)
  (Hsegs : ua <> ub)
  (Hclear : forall n, In n (nodes st) -> Node.type n = "waypoint" ->
     Node.id n <> Edge.source e /\ Node.id n <> Edge.target e
     /\ (forall x, In x (edges st) ->
           ~ (Edge.source x = Edge.source e /\ Edge.target x = Node.id n))
     /\ (forall x, In x (edges st) ->
           ~ (Edge.source x = Node.id n /\ Edge.target x = Edge.target e)))
  (Hseg : seg = ua \/ seg = ub) :
  nodes (removeWaypoint u seg (insertWaypointAt uw ua ub edgeId pos st)) = nodes st
  /\ edges (removeWaypoint u seg (insertWaypointAt uw ua ub edgeId pos st))
     = filter (fun x => negb (String.eqb (Edge.id x) edgeId)) (edges st)
       ++ [Edge.mk u (Edge.source e) (Edge.target e)
             (Some (type_or_smoothstep (Edge.type e))) (Edge.label e)
             (Some (style_or_empty (Edge.style e))) (Edge.markerEnd e) None
             None None None None].
Proof.
  assert (He : In e (edges st)).
  { unfold find_edge in Hedge. now apply find_some in Hedge. }
  destruct (Hedge_fresh e He) as (Hes & Het & _).
  set (a := Edge.mk ua (Edge.source e) uw
              (Some (type_or_smoothstep (Edge.type e))) (Edge.label e)
              (Some (style_or_empty (Edge.style e))) None (Edge.markerStart e)
              None None None None).
  set (b := Edge.mk ub uw (Edge.target e)
              (Some (type_or_smoothstep (Edge.type e))) None
              (Some (style_or_empty (Edge.style e))) (Edge.markerEnd e) None
              None None None None).
  apply (remove_fresh_waypoint u uw (Edge.source e) (Edge.target e) (nodes st)
           (filter (fun x => negb (String.eqb (Edge.id x) edgeId)) (edges st))
           (Node.mk uw "waypoint" pos NodeData.empty) a b);
    try reflexivity; try (split; [reflexivity | reflexivity]);
    try (split; assumption); try assumption.
  - unfold insertWaypointAt. simpl. now rewrite Hedge.
  - intros x Hx. apply in_without in Hx. now apply Hedge_fresh.
  - intros n Hn Hty. destruct (Hclear n Hn Hty) as (H1 & H2 & H3 & H4).
    split; [assumption|]. split; [assumption|].
    split; intros x Hx; apply in_without in Hx; auto.
Qed.

Lemma insert_then_remove_witness :
  let st := editEdgeArrow "e" "two-way" (addChild "A" "e" 0 "Math" initialState) in
  map (fun x => (Edge.id x, arrowSelectValue x))
      (edges (removeWaypoint "j" "a"
                (insertWaypointAt "w" "a" "b" "e" (Position.mk 0 0) st)))
  = [("j", "one-way")].
Proof.
  intros st.
  set (e := withMarkers (Some ArrowClosed) (Some ArrowClosed) (arrowEdge "e" "root" "A")).
  assert (Hn : forall n, In n (nodes st) -> Node.id n <> "w").
  { intros n [<- | [<- | []]]; discriminate. }
  assert (He : forall x, In x (edges st) ->
                 Edge.source x <> "w" /\ Edge.target x <> "w"
                 /\ Edge.id x <> "a" /\ Edge.id x <> "b").
  { intros x [<- | []]. repeat split; discriminate. }
  assert (Hab : "a" <> "b") by discriminate.
  assert (Hc : forall n, In n (nodes st) -> Node.type n = "waypoint" ->
             Node.id n <> Edge.source e /\ Node.id n <> Edge.target e
             /\ (forall x, In x (edges st) ->
                   ~ (Edge.source x = Edge.source e /\ Edge.target x = Node.id n))
             /\ (forall x, In x (edges st) ->
                   ~ (Edge.source x = Node.id n /\ Edge.target x = Edge.target e))).
  { intros n [<- | [<- | []]] Hty; discriminate Hty. }
  destruct (insert_then_remove "w" "a" "b" "j" "e" "a" (Position.mk 0 0) st e
              eq_refl Hn He Hab Hc (or_introl eq_refl)) as [_ Hedges].
  rewrite Hedges. reflexivity.
Defined.

(* ------------------------------------------------------------------ *)
(** ** Auto Arrange *)

Lemma nth_error_indexed {A B : Type} (g : nat * A -> B) (l : list A) :
  forall k i : nat,
    nth_error (map g (combine (seq k (List.length l)) l)) i
    = option_map (fun a => g (k + i, a)) (nth_error l i).
Proof.
  induction l as [|a l IH]; intros k i.
  - destruct i; reflexivity.
  - destruct i as [|i]; simpl.
    + now rewrite Nat.add_0_r.
    + rewrite IH. now rewrite Nat.add_succ_r.
Qed.

Lemma map_indexed_proj {A B C : Type} (g : nat * A -> B) (f : B -> C) (f' : A -> C)
  (l : list A) :
  (forall p, f (g p) = f' (snd p)) ->
  forall k : nat, map f (map g (combine (seq k (List.length l)) l)) = map f' l.
Proof.
  intros H. induction l as [|a l IH]; intros k; [reflexivity|].
  simpl. now rewrite IH, H.
Qed.

Lemma perRow_pos (st : State) : 0 < perRow st.
Proof.
  unfold perRow. apply Nat.sqrt_up_pos.
  destruct (Nat.eqb (List.length (nodes st)) 0) eqn:H; [lia|].
  apply Nat.eqb_neq in H. lia.
Qed.

Lemma perRow_square (st : State) : List.length (nodes st) <= perRow st * perRow st.
Proof.
  unfold perRow. destruct (Nat.eqb (List.length (nodes st)) 0) eqn:H.
  - apply Nat.eqb_eq in H. rewrite H. lia.
  - apply Nat.eqb_neq in H. apply Nat.sqrt_up_spec. lia.
Qed.

(** The node at index [i] after Auto Arrange. *)
Lemma autoArrange_nth (st : State) (i : nat) (n : Node.t) :
  nth_error (nodes (autoArrange st)) i = Some n ->
  exists m : Node.t,
    nth_error (nodes st) i = Some m
    /\ n = Node.mk (Node.id m) (Node.type m)
             (Position.mk (80 + inject_Z (Z.of_nat (i mod perRow st)) * 200)
                          (80 + inject_Z (Z.of_nat (i / perRow st)) * 160))
             (Node.data m).
Proof.
  unfold autoArrange. simpl. rewrite nth_error_indexed.
  destruct (nth_error (nodes st) i) as [m|]; [|discriminate].
  simpl. intros [= <-]. exists m. split; reflexivity.
Qed.

(** X18. Auto Arrange keeps the nodes in order with their ids, types and
    data, keeps the edges, and puts the node of index [i] at column
    [i mod perRow] and row [i / perRow] of a grid with [perRow] columns
    and at most [perRow] rows; no two nodes get the same place. *)
Theorem autoArrange_grid (st : State) :
  map (fun n => (Node.id n, Node.type n, Node.data n)) (nodes (autoArrange st))
  = map (fun n => (Node.id n, Node.type n, Node.data n)) (nodes st)
  /\ edges (autoArrange st) = edges st
  /\ (forall i n, nth_error (nodes (autoArrange st)) i = Some n ->
        i mod perRow st < perRow st /\ i / perRow st < perRow st
        /\ Position.x (Node.position n)
           = (80 + inject_Z (Z.of_nat (i mod perRow st)) * 200)%Q
        /\ Position.y (Node.position n)
           = (80 + inject_Z (Z.of_nat (i / perRow st)) * 160)%Q)
  /\ (forall i j ni nj,
        nth_error (nodes (autoArrange st)) i = Some ni ->
        nth_error (nodes (autoArrange st)) j = Some nj ->
        i <> j ->
        ~ (Position.x (Node.position ni) == Position.x (Node.position nj)
           /\ Position.y (Node.position ni) == Position.y (Node.position nj))%Q).
Proof.
  pose proof (perRow_pos st) as Hpos.
  split; [|split; [reflexivity|split]].
  - unfold autoArrange. simpl. apply map_indexed_proj. reflexivity.
  - intros i n Hn.
    assert (Hi : i < List.length (nodes st)).
    { destruct (autoArrange_nth st i n Hn) as (m & Hm & _).
      apply nth_error_Some. congruence. }
    destruct (autoArrange_nth st i n Hn) as (m & _ & ->). simpl.
    split; [apply Nat.mod_upper_bound; lia|].
    split; [|split; reflexivity].
    apply Nat.Div0.div_lt_upper_bound.
    pose proof (perRow_square st). lia.
  - intros i j ni nj Hi Hj Hij [Hx Hy].
    destruct (autoArrange_nth st i ni Hi) as (mi & _ & ->).
    destruct (autoArrange_nth st j nj Hj) as (mj & _ & ->).
    simpl in Hx, Hy.
    assert (Hx' : (inject_Z (Z.of_nat (i mod perRow st))
                   == inject_Z (Z.of_nat (j mod perRow st)))%Q) by lra.
    assert (Hy' : (inject_Z (Z.of_nat (i / perRow st))
                   == inject_Z (Z.of_nat (j / perRow st)))%Q) by lra.
    apply inject_Z_injective, Znat.Nat2Z.inj in Hx'.
    apply inject_Z_injective, Znat.Nat2Z.inj in Hy'.
    apply Hij.
    rewrite (Nat.div_mod_eq i (perRow st)), (Nat.div_mod_eq j (perRow st)).
    now rewrite Hx', Hy'.
Qed.

Lemma autoArrange_grid_witness :
  let st := autoArrange (play [EvAddChild "A" "e1" 0 "Math";
                               EvAddChild "B" "e2" 0 "Math"] initialState) in
  map (fun n => (Node.id n, Qred (Position.x (Node.position n)),
                 Qred (Position.y (Node.position n)))) (nodes st)
  = [("root", 80, 80); ("A", 280, 80); ("B", 80, 240)]%Q
  /\ ~ (280 == 80 /\ 80 == 240)%Q.
Proof.
  intros st. split; [reflexivity|].
  destruct (autoArrange_grid (play [EvAddChild "A" "e1" 0 "Math";
                                    EvAddChild "B" "e2" 0 "Math"] initialState))
    as (_ & _ & _ & Hdistinct).
  apply (Hdistinct 1 2
           (Node.mk "A" "study" (Position.mk 280 80)
              (NodeData.mk (Some "Math Topic") (Some "Math") (Some (ColorString "#4f83cc"))
                 (Some false)))
           (Node.mk "B" "study" (Position.mk 80 240)
              (NodeData.mk (Some "Math Topic") (Some "Math") (Some (ColorString "#4f83cc"))
                 (Some false)))).
  - reflexivity.
  - reflexivity.
  - discriminate.
Defined.

(* ------------------------------------------------------------------ *)
(** ** The two ways to delete a node, and inspector edits *)

(** X23. With a node selected that is not the root and has a non-empty id,
    and no edge selected, the Delete key leaves the same nodes and edges as
    the Delete button; the key clears the selection where the button
    selects the root. *)
Theorem delete_key_like_button (st : State) (sel : Node.t)
  (Hsel : selectedNode st = Some sel)
  (Hroot : Node.id sel <> "root") (Hid : Node.id sel <> "")
  (Hedge : truthy (selectedEdgeId st) = false) :
  nodes (onKeyDelete st) = nodes (deleteSelected st)
  /\ edges (onKeyDelete st) = edges (deleteSelected st)
  /\ selectedId (onKeyDelete st) = None
  /\ selectedId (deleteSelected st) = Some "root".
Proof.
  assert (Hs : selectedId st = Some (Node.id sel)).
  { unfold selectedNode in Hsel. apply find_some in Hsel. destruct Hsel as [_ H].
    destruct (selectedId st) as [v|]; [|discriminate].
    simpl in H. apply String.eqb_eq in H. now subst. }
  unfold onKeyDelete, deleteSelected. rewrite Hsel, Hedge, Hs.
  apply String.eqb_neq in Hroot, Hid. simpl. rewrite Hroot, Hid. simpl.
  split; [|split; [|split; reflexivity]].
  - apply filter_ext. intros n. now rewrite String.eqb_sym.
  - apply filter_ext. intros e.
    now rewrite (String.eqb_sym (Node.id sel)), (String.eqb_sym (Node.id sel)).
Qed.

Lemma delete_key_like_button_witness :
  let st := addChild "A" "e" 0 "Math" initialState in
  nodes (onKeyDelete st) = nodes (deleteSelected st)
  /\ selectedId (onKeyDelete st) = None.
Proof.
  intros st.
  assert (H1 : "A" <> "root") by discriminate.
  assert (H2 : "A" <> "") by discriminate.
  destruct (delete_key_like_button st
              (studyNode "A" (Position.mk (250 + 200) (100 + (0 * 160 - 80)))
                 "Math Topic" "Math" (ColorString "#4f83cc")) eq_refl H1 H2 eq_refl)
    as (Hn & _ & Hs & _).
  split; assumption.
Defined.

(** A selected id that names no node: the Delete key still removes the
    edges at that id, the Delete button does nothing. *)
Lemma delete_key_on_stale_selection :
  let st := importJSON (mkSnapshot (Some [rootNode])
                          (Some [arrowEdge "e" "root" "gone"]) None)
              (setSelectedId (Some "gone") initialState) in
  selectedNode st = None
  /\ edges (onKeyDelete st) = []
  /\ deleteSelected st = st.
Proof. repeat split; reflexivity. Qed.


(* ================================================================== *)
(** * The to-do list *)

Lemma todo_same_id_eq (a b : option Id) : Todo.same_id a b = true <-> a = b.
Proof.
  destruct a as [x|], b as [y|]; simpl; split; try discriminate; try reflexivity.
  - intros H. apply String.eqb_eq in H. now subst.
  - intros [= ->]. apply String.eqb_refl.
Qed.

(** X19. Submitting the form without a title or without a deadline changes
    nothing. Otherwise, when no task is being edited, the new task is put
    in front of the others with the generated id, the creation date and
    the fields of the form, and the form is emptied and closed. *)
Theorem todo_submit (newId now : string) (st : Todo.State) :
  (Todo.title (Todo.form st) = "" \/ Todo.deadline (Todo.form st) = "" ->
   Todo.handleSubmit newId now st = st)
  /\ (Todo.title (Todo.form st) <> "" -> Todo.deadline (Todo.form st) <> "" ->
      Todo.isEditing st = false ->
      exists t : Todo.Item,
        Todo.tasks (Todo.handleSubmit newId now st) = t :: Todo.tasks st
        /\ Todo.id t = Some newId /\ Todo.createdAt t = Some now
        /\ Todo.title t = Todo.title (Todo.form st)
        /\ Todo.description t = Todo.description (Todo.form st)
        /\ Todo.deadline t = Todo.deadline (Todo.form st)
        /\ Todo.recurrence t = Todo.recurrence (Todo.form st)
        /\ Todo.form (Todo.handleSubmit newId now st) = Todo.defaultForm
        /\ Todo.showModal (Todo.handleSubmit newId now st) = false).
Proof.
  unfold Todo.handleSubmit. split.
  - intros [H | H]; rewrite H; simpl; [reflexivity|].
    now rewrite orb_true_r.
  - intros Ht Hd He. apply String.eqb_neq in Ht, Hd. rewrite Ht, Hd, He. simpl.
    eexists. repeat split.
Qed.

Lemma todo_submit_witness :
  Todo.handleSubmit "id1" "2026-01-01T00:00:00.000Z" Todo.initialState
  = Todo.initialState.
Proof.
  apply (todo_submit "id1" "2026-01-01T00:00:00.000Z" Todo.initialState).
  now left.
Defined.

(** X20. Opening a task of the list in the form and saving it unchanged
    leaves the list as it was, when the task has a title and a deadline and
    the tasks with its id are all equal to it; the form is emptied and
    closed. *)
Theorem todo_edit_then_save (newId now : string) (t : Todo.Item) (st : Todo.State)
  (Htitle : Todo.title t <> "") (Hdeadline : Todo.deadline t <> "")
  (Hsame : forall t', In t' (Todo.tasks st) -> Todo.id t' = Todo.id t -> t' = t) :
  Todo.handleSubmit newId now (Todo.handleEdit t st) = Todo.resetForm st.
Proof.
  unfold Todo.handleSubmit, Todo.handleEdit. simpl.
  apply String.eqb_neq in Htitle, Hdeadline. rewrite Htitle, Hdeadline. simpl.
  unfold Todo.resetForm. simpl. f_equal.
  induction (Todo.tasks st) as [|a l IH]; [reflexivity|]. simpl.
  rewrite IH by (intros t' Ht'; apply Hsame; now right). f_equal.
  destruct (Todo.same_id (Todo.id a) (Todo.id t)) eqn:Hid; [|reflexivity].
  apply todo_same_id_eq in Hid.
  rewrite (Hsame a (or_introl eq_refl) Hid).
  unfold Todo.merge. destruct t as [i ti de dl re [c|] [k|]]; reflexivity.
Qed.

Lemma todo_edit_then_save_witness :
  let t := Todo.mkItem (Some "a") "Read" "" "2026-01-01T09:00:00.000Z" "none"
             (Some "2025-12-31T09:00:00.000Z") None in
  let st := Todo.mkState [t] Todo.defaultForm false false in
  Todo.tasks (Todo.handleSubmit "n" "now" (Todo.handleEdit t st)) = [t].
Proof.
  intros t st.
  assert (H1 : Todo.title t <> "") by discriminate.
  assert (H2 : Todo.deadline t <> "") by discriminate.
  assert (H3 : forall t', In t' (Todo.tasks st) -> Todo.id t' = Todo.id t -> t' = t).
  { intros t' [<- | []] _. reflexivity. }
  rewrite (todo_edit_then_save "n" "now" t st H1 H2 H3). reflexivity.
Defined.

(** A task completed while it is open in the form is un-completed by the
    save, when the form was opened on a task with a [completed] field. *)
Lemma todo_save_overwrites_completed :
  let t := Todo.mkItem (Some "a") "Read" "" "2026-01-01T09:00:00.000Z" "none"
             None (Some false) in
  let st := Todo.mkState [t] Todo.defaultForm false false in
  map Todo.completed
      (Todo.tasks (Todo.toggleComplete (Some "a") (Todo.handleEdit t st)))
  = [Some true]
  /\ map Todo.completed
       (Todo.tasks (Todo.handleSubmit "n" "now"
                      (Todo.toggleComplete (Some "a") (Todo.handleEdit t st))))
     = [Some false].
Proof. split; reflexivity. Qed.

(** X21. A confirmed delete removes exactly the tasks with the given id
    and keeps the others in order; a declined one changes nothing. *)
Theorem todo_delete (v : option Id) (st : Todo.State) :
  Todo.handleDelete false v st = st
  /\ (forall t, In t (Todo.tasks (Todo.handleDelete true v st))
                <-> In t (Todo.tasks st) /\ Todo.id t <> v)
  /\ (exists keep : Todo.Item -> bool,
        Todo.tasks (Todo.handleDelete true v st) = filter keep (Todo.tasks st))
  /\ Todo.form (Todo.handleDelete true v st) = Todo.form st.
Proof.
  split; [reflexivity|]. split; [|split; [eexists; reflexivity | reflexivity]].
  intros t. simpl. rewrite filter_In, negb_true_iff.
  rewrite <- todo_same_id_eq.
  destruct (Todo.same_id (Todo.id t) v); split; intros [H1 H2]; split;
    congruence.
Qed.

(** X22. Ticking a task twice gives back the same checkbox state for every
    task and leaves every other field alone; the list itself is the same
    again when each task with that id had a [completed] field. *)
Theorem todo_toggle_twice (v : option Id) (st : Todo.State) :
  map Todo.checked (Todo.tasks (Todo.toggleComplete v (Todo.toggleComplete v st)))
  = map Todo.checked (Todo.tasks st)
  /\ map (fun t => (Todo.id t, Todo.title t, Todo.description t, Todo.deadline t,
                    Todo.recurrence t, Todo.createdAt t))
         (Todo.tasks (Todo.toggleComplete v (Todo.toggleComplete v st)))
     = map (fun t => (Todo.id t, Todo.title t, Todo.description t, Todo.deadline t,
                      Todo.recurrence t, Todo.createdAt t)) (Todo.tasks st)
  /\ ((forall t, In t (Todo.tasks st) -> Todo.id t = v -> Todo.completed t <> None) ->
      Todo.tasks (Todo.toggleComplete v (Todo.toggleComplete v st)) = Todo.tasks st).
Proof.
  unfold Todo.toggleComplete. simpl. rewrite !map_map.
  split; [|split].
  - apply map_ext. intros t.
    destruct (Todo.same_id (Todo.id t) v) eqn:Hid; simpl; rewrite Hid;
      [|reflexivity].
    unfold Todo.checked, Todo.not_completed. simpl.
    now destruct (Todo.completed t) as [[|]|].
  - apply map_ext. intros t.
    destruct (Todo.same_id (Todo.id t) v) eqn:Hid; simpl; rewrite Hid; reflexivity.
  - intros H. induction (Todo.tasks st) as [|a l IH]; [reflexivity|]. simpl.
    rewrite IH by (intros t Ht; apply H; now right). f_equal.
    destruct (Todo.same_id (Todo.id a) v) eqn:Hid; simpl; rewrite Hid;
      [|reflexivity].
    apply todo_same_id_eq in Hid.
    specialize (H a (or_introl eq_refl) Hid).
    unfold Todo.not_completed. simpl.
    destruct a as [i ti de dl re c [[|]|]]; simpl in *; congruence.
Qed.

Lemma todo_toggle_twice_witness :
  let t := Todo.mkItem (Some "a") "Read" "" "2026-01-01T09:00:00.000Z" "none"
             None (Some true) in
  let st := Todo.mkState [t] Todo.defaultForm false false in
  Todo.tasks (Todo.toggleComplete (Some "a") (Todo.toggleComplete (Some "a") st))
  = [t].
Proof.
  intros t st. apply (todo_toggle_twice (Some "a") st).
  intros t' [<- | []] _. discriminate.
Defined.

(** A first tick on a task without [completed] field, then a second one:
    the task ends with [completed: false]. *)
Lemma todo_toggle_twice_adds_field :
  let t := Todo.mkItem (Some "a") "Read" "" "2026-01-01T09:00:00.000Z" "none"
             None None in
  let st := Todo.mkState [t] Todo.defaultForm false false in
  map Todo.completed
      (Todo.tasks (Todo.toggleComplete (Some "a") (Todo.toggleComplete (Some "a") st)))
  = [Some false].
Proof. reflexivity. Qed.
